(** * arco-scripts: the component style build (compileStyle.ts)

    A shallow embedding of
    [packages/arco-scripts/src/scripts/build/component/compileStyle.ts]:
    the helpers [distLess], [distCss], [compileLess], [copyFileWatched],
    [copyAsset] and the two entry points [watch] and [build].

    JavaScript strings are Rocq strings, character by character (exact for
    ASCII paths and style sheets).  The file system is a finite map from
    paths to contents.  A task function takes the file system and answers
    with what it did (files written, lines printed), the file system it
    leaves, and how it ended for gulp; running a task graph strings these
    answers together with the starts and completions gulp sees.  What the
    program does not decide (the matches of a glob, a write that fails, the
    compiler, the minifier) is a parameter of the run. *)

From Stdlib Require Import Ascii String List Arith Bool Lia.
From stdpp Require Import base option list gmap strings.

Local Open Scope string_scope.
Local Open Scope list_scope.
Local Set Warnings "-register-all".

(** ** JavaScript string primitives used by the file *)

Module JS.

(** [s.indexOf(c)] for a one-character needle; [None] stands for [-1]. *)
Fixpoint indexOf (c : ascii) (s : string) : option nat :=
  match s with
  | EmptyString => None
  | String a s' =>
      if Ascii.eqb a c then Some 0 else option_map S (indexOf c s')
  end.

(** [s.slice(n)] for [n >= 0]. *)
Fixpoint slice (n : nat) (s : string) : string :=
  match n, s with
  | 0, _ => s
  | S _, EmptyString => EmptyString
  | S k, String _ s' => slice k s'
  end.

(** [s.slice(-1)]: the last character, or the empty string. *)
Fixpoint slice_last (s : string) : string :=
  match s with
  | EmptyString => EmptyString
  | String a EmptyString => s
  | String _ s' => slice_last s'
  end.

(** [s.slice(s.indexOf(c))]: [indexOf] answers [-1] when [c] does not
    occur, and [slice(-1)] keeps the last character only. *)
Definition slice_from_indexOf (c : ascii) (s : string) : string :=
  match indexOf c s with
  | Some i => slice i s
  | None => slice_last s
  end.

(** [s.startsWith(p)]. *)
Definition startsWith (s p : string) : bool := String.prefix p s.

(** [xs.join(sep)]. *)
Fixpoint join (sep : string) (xs : list string) : string :=
  match xs with
  | [] => EmptyString
  | [x] => x
  | x :: rest => x +:+ sep +:+ join sep rest
  end.

(** [s.replace(pat, '')] for a string pattern: the first occurrence of
    [pat] is removed, the rest of [s] is kept. *)
Fixpoint remove_first (pat s : string) : string :=
  if String.prefix pat s then slice (String.length pat) s
  else match s with
       | EmptyString => EmptyString
       | String a s' => String a (remove_first pat s')
       end.

(** A value that may be [undefined]; [`${v}`] and [v + s] print
    [undefined] as the nine letters. *)
Definition toString (v : option string) : string :=
  match v with
  | Some s => s
  | None => "undefined"
  end.

(** Truthiness of a value that is a string or [undefined]. *)
Definition truthy (v : option string) : bool :=
  match v with
  | Some EmptyString | None => false
  | Some _ => true
  end.

End JS.

(** ** POSIX [path.relative] *)

Module Path.

(** Segments of a path: the pieces between the ['/'] separators. *)
Fixpoint split_go (cur : string) (s : string) : list string :=
  match s with
  | EmptyString => [String.rev cur]
  | String a s' =>
      if Ascii.eqb a "/" then String.rev cur :: split_go EmptyString s'
      else split_go (String a cur) s'
  end.
Definition split (s : string) : list string := split_go EmptyString s.

Definition isAbsolute (p : string) : bool := String.prefix "/" p.

(** Normalisation of a segment list, from the root: empty segments and
    ["."] are dropped, [".."] removes the segment before it (and is
    dropped at the root).  [acc] holds the normalised part, reversed. *)
Fixpoint normalize_go (acc : list string) (segs : list string) : list string :=
  match segs with
  | [] => rev acc
  | seg :: rest =>
      if String.eqb seg "" || String.eqb seg "." then normalize_go acc rest
      else if String.eqb seg ".." then normalize_go (tail acc) rest
      else normalize_go (seg :: acc) rest
  end.

(** [path.resolve(p)] in the working directory [cwd] (an absolute path),
    as the list of segments below the root. *)
Definition resolve (cwd p : string) : list string :=
  normalize_go [] (split (if isAbsolute p then p else cwd +:+ "/" +:+ p)).

Fixpoint strip_common (xs ys : list string) : list string * list string :=
  match xs, ys with
  | x :: xs', y :: ys' =>
      if String.eqb x y then strip_common xs' ys' else (xs, ys)
  | _, _ => (xs, ys)
  end.

(** [path.relative(from, to)]: climb out of what is left of [from] after
    the common prefix, then descend into what is left of [to]. *)
Definition relative (cwd from to : string) : string :=
  let '(f, t) := strip_common (resolve cwd from) (resolve cwd to) in
  JS.join "/" (map (fun _ => "..") f ++ t).

End Path.

(** ** Configuration ([config/style.config]) and the outside world *)

(** A file travelling through a gulp stream: its path relative to the glob
    base, and its contents. *)
Record vinyl := Vinyl { v_relative : string; v_contents : string }.

Definition error := string.

(** [cssConfig.output.dist] *)
Record distConfig := DistConfig {
  dist_path : string;
  rawFileName : string;
  cssFileName : string
}.

(** [styleConfig.css].  The module-format directories may be left out
    ([undefined]); the compiler is the transform the configuration names,
    already applied to its options: it turns a file into a compiled file or
    fails, and may read imported files from the file system. *)
Record cssConfig := CssConfig {
  entry : list string;
  watch_globs : list string;
  watchBase : string -> option string;
  output_es : option string;
  output_cjs : option string;
  output_dist : distConfig;
  compiler : gmap string string -> vinyl -> error + vinyl
}.

(** [styleConfig.asset] *)
Record assetConfig := AssetConfig {
  asset_entry : list string;
  asset_output : string
}.

Inductive level := Info | Err.

(** What a task does to the world. *)
Inductive effect :=
| Print (l : level) (args : list string)   (* print.info / print.error *)
| ConsoleError (er : error)                (* console.error *)
| Write (path contents : string).          (* a file written to disk *)

(** What a run leaves behind, in the order it happens. *)
Inductive event :=
| Effect (ef : effect)
| Start (task : string)                    (* gulp invokes a task function *)
| Settle (task : string) (ok : bool)       (* gulp sees the task complete or fail *)
| Resolved.                                (* resolve(null) of build() is called *)

(** How a task invocation ends for gulp: the callback was called or the
    returned stream or promise finished ([Done]), an error reached gulp
    ([Failed]), or nothing was returned and the callback never called
    ([Never]). *)
Inductive completion := Done | Failed (er : error) | Never.

(** What happened, the files on disk afterwards, and the signal. *)
Record result (E : Type) := Result {
  events : list E;
  fs_after : gmap string string;
  signal : completion
}.
Arguments Result {E} events fs_after signal.
Arguments events {E} r.
Arguments fs_after {E} r.
Arguments signal {E} r.

(** The part of a run the program does not decide. *)
Record env := Env {
  cwd : string;                                   (* process.cwd() *)
  BUILD_ENV_MODE : option string;                 (* constant.BUILD_ENV_MODE *)
  now : string;                                   (* new Date().toLocaleString() *)
  glob_sync : string -> list string;              (* glob.sync(pattern) *)
  gulp_src : gmap string string -> list string -> option string -> list vinyl;
                                                  (* gulp.src(globs, {base}) *)
  write_error : string -> option error;           (* writing this path fails *)
  cleanCSS : string -> error + string;            (* gulp-clean-css on contents:
                                                     the minified text, or the
                                                     error it raises *)
  regexp_replace : string -> string -> string -> string;
                                                  (* s.replace(new RegExp(source, 'g'), to)
                                                     by source, to and s, for the
                                                     sources and replacements not
                                                     spelled out below *)
  handleStyleJSEntry : gmap string string -> result effect;
  call_fault : option error                       (* the composed gulp function throws *)
}.

(** The double quote and the line feed, as one-character strings. *)
Definition dquote : string := String (ascii_of_nat 34) EmptyString.
Definition newline : string := String (ascii_of_nat 10) EmptyString.

(** ** distLess: the import index *)

Section DistLess.
Variable css : cssConfig.
Variable e : env.

(** [cssConfig.output.es + entry.slice(entry.indexOf('/'))] *)
Definition esEntry (entry : string) : string :=
  JS.toString (output_es css) +:+ JS.slice_from_indexOf "/" entry.

Definition relativePath (entry : string) : string :=
  Path.relative (cwd e) (dist_path (output_dist css)) (esEntry entry).

(** [`@import "${relativePath}";`] *)
Definition import_text (entry : string) : string :=
  "@import " +:+ dquote +:+ relativePath entry +:+ dquote +:+ ";".

(** [esEntry.startsWith(`${cssConfig.output.es}/style`)] *)
Definition is_style (entry : string) : bool :=
  JS.startsWith (esEntry entry) (JS.toString (output_es css) +:+ "/style").

(** One turn of [entries.forEach]: [unshift] or [push]. *)
Definition distLess_step (texts : list string) (entry : string) : list string :=
  if is_style entry then import_text entry :: texts
  else texts ++ [import_text entry].

Definition distLess_texts (entries : list string) : list string :=
  fold_left distLess_step entries [].

(** [cssConfig.entry.forEach((e) => entries = entries.concat(glob.sync(e)))] *)
Definition distLess_entries : list string :=
  fold_left (fun entries pat => entries ++ glob_sync e pat) (entry css) [].

Definition index_path : string :=
  dist_path (output_dist css) +:+ "/" +:+ rawFileName (output_dist css).

(** [distLess(cb)]: synchronous; [fs.outputFileSync] throws when the write
    fails, and then [cb] is not reached. *)
Definition distLess (fs : gmap string string) : result effect :=
  let entries := distLess_entries in
  match entries with
  | [] => Result [] fs Done
  | _ :: _ =>
      let contents := JS.join newline (distLess_texts entries) in
      match write_error e index_path with
      | Some er => Result [] fs (Failed er)
      | None => Result [Write index_path contents] (<[index_path := contents]> fs) Done
      end
  end.
End DistLess.

(** The order in which the index lists the entries: the style entries,
    latest match first, then the other entries as matched. *)
Definition index_order (css : cssConfig) (entries : list string) : list string :=
  rev (List.filter (is_style css) entries)
  ++ List.filter (fun x => negb (is_style css x)) entries.

(** Every style entry stands before every entry that is not one. *)
Definition style_first (css : cssConfig) (order : list string) : Prop :=
  forall i j a b,
    order !! i = Some a -> order !! j = Some b ->
    is_style css a = true -> is_style css b = false -> i < j.


(** ** The asset-path rewrite of distCss

    [replace(new RegExp(`(\.{2}\/)+${cssConfig.output.es}`, 'g'), to)].
    The pattern is written in a template literal, where [\.] and [\/] are
    the plain characters [.] and [/]: the expression handed to [RegExp] is
    [(.{2}/)+] followed by the directory name, so each turn of the group is
    two characters other than a line terminator and then a slash.  The
    directory name is spliced in as it is, and a dollar sign in the
    replacement has a meaning of its own.  The search is spelled out here
    for a name without pattern characters ([plain_name]), matched letter by
    letter, and a replacement without dollar sign ([no_dollar]), inserted
    as it is; for any other name or replacement [rewritten], below, asks
    the world. *)

Module Rewrite.

(** [.] of a pattern without the [s] flag. *)
Definition dot (c : ascii) : bool :=
  negb (Ascii.eqb c (ascii_of_nat 10) || Ascii.eqb c (ascii_of_nat 13)).

(** One turn of [(.{2}/)] at the head of [s]. *)
Definition turn (a b c : ascii) : bool := dot a && dot b && Ascii.eqb c "/".

Definition then_name (name s : string) : option nat :=
  if String.prefix name s then Some (String.length name) else None.

(** After a first turn: as many further turns as possible (the [+] is
    greedy), giving one back at a time until the name follows.  The
    answer is the number of characters matched from here. *)
Fixpoint more_turns (name s : string) : option nat :=
  match s with
  | String a (String b (String c rest)) =>
      if turn a b c then
        match more_turns name rest with
        | Some n => Some (3 + n)
        | None => then_name name s
        end
      else then_name name s
  | _ => then_name name s
  end.

(** A match of the whole pattern starting at the head of [s]: its length. *)
Definition match_at (name s : string) : option nat :=
  match s with
  | String a (String b (String c rest)) =>
      if turn a b c then option_map (Nat.add 3) (more_turns name rest) else None
  | _ => None
  end.

(** The [g] flag: matches are taken from left to right, each search
    starting where the last match ended.  [skip] counts the characters of
    a match still to be passed over. *)
Fixpoint replace_go (name to : string) (skip : nat) (s : string) : string :=
  match s with
  | EmptyString => EmptyString
  | String c s' =>
      match skip with
      | S k => replace_go name to k s'
      | 0 =>
          match match_at name s with
          | Some n => to +:+ replace_go name to (n - 1) s'
          | None => String c (replace_go name to 0 s')
          end
      end
  end.

Definition replace (name to s : string) : string := replace_go name to 0 s.

(** Characters with a meaning of their own in a pattern. *)
Definition pattern_char (c : ascii) : bool :=
  existsb (Ascii.eqb c) (list_ascii_of_string "\^$.|?*+()[]{}").

Fixpoint plain_name (s : string) : bool :=
  match s with
  | EmptyString => true
  | String c s' => negb (pattern_char c) && plain_name s'
  end.

Definition no_dollar (s : string) : bool :=
  match JS.indexOf "$" s with
  | None => true
  | Some _ => false
  end.

(** [n] parent-directory segments. *)
Fixpoint parents (n : nat) : string :=
  match n with
  | 0 => EmptyString
  | S k => "../" +:+ parents k
  end.

(** [sub] occurs somewhere in [s]. *)
Fixpoint occurs (sub s : string) : bool :=
  String.prefix sub s ||
  match s with
  | EmptyString => false
  | String _ s' => occurs sub s'
  end.

End Rewrite.

(** ** Streams of files

    A stream takes the files it is handed one after the other and hands
    each on when it is through with it; on the first file it fails on it
    raises its error and stops: the files behind are not handled and
    nothing more is handed on.  The streams of a chain
    [a.pipe(b).pipe(c)] are followed one after the other: [gulp.dest] of
    the first directory has written all it was handed before the second
    writes what it got from the first.  An error is heard by the listeners
    of the stream that raised it only; the programs here put theirs on the
    last stream of the chain. *)

Definition dest_path (dir rel : string) : string := dir +:+ "/" +:+ rel.

(** What a stream does with one file: its error, or what it did, the disk
    it leaves and the file it hands on. *)
Definition stage : Type :=
  gmap string string -> vinyl -> error + (list effect * gmap string string * vinyl).

(** A stream that changes the file and does nothing else. *)
Definition through (tr : gmap string string -> vinyl -> error + vinyl) : stage :=
  fun fs v =>
    match tr fs v with
    | inl er => inl er
    | inr v' => inr ([], fs, v')
    end.

Section Streams.
Variable e : env.

(** [gulp.dest(dir)] *)
Definition dest (dir : string) : stage :=
  fun fs v =>
    let p := dest_path dir (v_relative v) in
    match write_error e p with
    | Some er => inl er
    | None => inr ([Write p (v_contents v)], <[p := v_contents v]> fs, v)
    end.
End Streams.

(** One stream over the files it is handed: what it did, the disk, the
    files it handed on, and the error it stopped on. *)
Fixpoint feed (st : stage) (files : list vinyl) (fs : gmap string string)
  : list effect * gmap string string * list vinyl * option error :=
  match files with
  | [] => ([], fs, [], None)
  | v :: rest =>
      match st fs v with
      | inl er => ([], fs, [], Some er)
      | inr (evs, fs', v') =>
          let '(evs', fs'', out, r) := feed st rest fs' in
          (evs ++ evs', fs'', v' :: out, r)
      end
  end.

(** How a chain ended: the first error of a stream before the last, which
    no listener of the program hears, and the error of the last stream. *)
Record outcome := Outcome { upstream : option error; final : option error }.

(** The files of a source through the streams of a chain. *)
Fixpoint pipe_files (stages : list stage) (files : list vinyl) (fs : gmap string string)
  : list effect * gmap string string * outcome :=
  match stages with
  | [] => ([], fs, Outcome None None)
  | st :: rest =>
      let '(evs, fs1, out, r) := feed st files fs in
      match rest with
      | [] => (evs, fs1, Outcome None r)
      | _ :: _ =>
          let '(evs', fs2, o) := pipe_files rest out fs1 in
          (evs ++ evs', fs2,
           Outcome (match r with Some er => Some er | None => upstream o end) (final o))
      end
  end.

Section Tasks.
Variable css : cssConfig.
Variable asset : assetConfig.
Variable e : env.

(** [[cssConfig.output.es, cssConfig.output.cjs].filter((path) => !!path)] *)
Definition destDirs : list string :=
  map JS.toString (List.filter JS.truthy [output_es css; output_cjs css]).

(** The [error] listener the program puts on the last stream of a chain. *)
Definition report (what : string) (er : error) : list effect :=
  [Print Err ["[arco-scripts]"; what]; ConsoleError er].

(** [copyFileWatched]: the watched sources into the module-format
    directories.  The promise is resolved when the last stream ends and
    rejected from the [error] listener of the last stream; when a stream
    before the last fails, the last one neither ends nor fails and the
    promise stays as it is. *)
Definition copyFileWatched (fs : gmap string string) : result effect :=
  match destDirs with
  | [] => Result [] fs Done
  | dirs =>
      let files :=
        flat_map (fun pattern => gulp_src e fs [pattern] (watchBase css pattern))
                 (watch_globs css) in
      let '(evs, fs', o) := pipe_files (map (dest e) dirs) files fs in
      match final o with
      | Some er =>
          Result (evs ++ report "Failed to build css, error in copying files" er)
                 fs' (Failed er)
      | None =>
          match upstream o with
          | Some _ => Result evs fs' Never
          | None => Result evs fs' Done
          end
      end
  end.

(** The streams of [compileLess] in front of the destinations: the
    configured compiler, then [cleanCSS()]. *)
Definition compile_and_clean (fs : gmap string string) (v : vinyl) : error + vinyl :=
  match compiler css fs v with
  | inl er => inl er
  | inr c =>
      match cleanCSS e (v_contents c) with
      | inl er => inl er
      | inr min => inr (Vinyl (v_relative c) min)
      end
  end.

(** How a stream handed to gulp ends for gulp. *)
Definition stream_signal (o : outcome) : completion :=
  match upstream o, final o with
  | Some er, _ => Failed er
  | None, Some er => Failed er
  | None, None => Done
  end.

(** [compileLess]: every entry compiled and written to each module-format
    directory; the stream it returns is the last of the chain, with the
    listener on it. *)
Definition compileLess (fs : gmap string string) : result effect :=
  match destDirs with
  | [] => Result [] fs Done
  | dirs =>
      let files := gulp_src e fs (entry css) None in
      let '(evs, fs', o) :=
        pipe_files (through compile_and_clean :: map (dest e) dirs) files fs in
      Result (evs ++ match final o with
                     | Some er => report "Failed to build css, error in compiling less" er
                     | None => []
                     end)
             fs' (stream_signal o)
  end.

(** [copyAsset]: no listener of its own. *)
Definition copyAsset (fs : gmap string string) : result effect :=
  let files := gulp_src e fs (asset_entry asset) None in
  let '(evs, fs', o) := pipe_files [dest e (asset_output asset)] files fs in
  Result evs fs' (stream_signal o).

(** [!isDev && (!BUILD_ENV_MODE || BUILD_ENV_MODE === 'production')] *)
Definition needCleanCss (isDev : bool) : bool :=
  negb isDev &&
  (negb (JS.truthy (BUILD_ENV_MODE e)) ||
   match BUILD_ENV_MODE e with
   | Some m => String.eqb m "production"
   | None => false
   end).

(** [path.relative(cssConfig.output.dist.path, assetConfig.output)] *)
Definition rewrite_to : string :=
  Path.relative (cwd e) (dist_path (output_dist css)) (asset_output asset).

(** [replace(new RegExp(`(\.{2}\/)+${cssConfig.output.es}`, 'g'), to)] on
    the compiled index. *)
Definition rewritten (compiled : string) : string :=
  let name := JS.toString (output_es css) in
  if Rewrite.plain_name name && Rewrite.no_dollar rewrite_to
  then Rewrite.replace name rewrite_to compiled
  else regexp_replace e ("(.{2}/)+" +:+ name) rewrite_to compiled.

(** [gulpIf(needCleanCss, cleanCSS())] behind it. *)
Definition artifact (isDev : bool) (compiled : string) : error + string :=
  if needCleanCss isDev then cleanCSS e (rewritten compiled)
  else inr (rewritten compiled).

Definition artifact_path : string :=
  dest_path (dist_path (output_dist css)) (cssFileName (output_dist css)).

(** [notifyLessCompileResult], put on the compiler stream in dev mode. *)
Definition notify_error (er : error) : list effect :=
  [Print Err ["[arco-scripts]"; "Failed to update style"]; ConsoleError er].
Definition notify_end : list effect :=
  [Print Info ["[arco-scripts]"; "Style updated at " +:+ now e]].

(** [distCss(isDev)]: the stream it returns, run to its end.
    [gulp.src] with [allowEmpty] gives an empty stream when the index file
    is not there.  A compiler error is taken by [notifyLessCompileResult]
    in dev mode, which ends the stream; otherwise nothing listens on the
    compiler stream, and nothing listens on the minifier.  An error of the
    final [gulp.dest] reaches the listener at the end of the chain. *)
Definition distCss (isDev : bool) (fs : gmap string string) : result effect :=
  match fs !! index_path css with
  | None => Result (if isDev then notify_end else []) fs Done
  | Some raw =>
      match compiler css fs (Vinyl (rawFileName (output_dist css)) raw) with
      | inl er =>
          if isDev then Result (notify_error er) fs Done
          else Result [] fs (Failed er)
      | inr c =>
          let said := if isDev then notify_end else [] in
          match artifact isDev (v_contents c) with
          | inl er => Result said fs (Failed er)
          | inr out =>
              match write_error e artifact_path with
              | Some er =>
                  Result (said ++ report "Failed to build css, error in dist all css" er)
                         fs (Failed er)
              | None =>
                  Result (said ++ [Write artifact_path out])
                         (<[artifact_path := out]> fs) Done
              end
          end
      end
  end.
End Tasks.

(** ** gulp.series and gulp.parallel

    A task function is done for gulp when it calls the callback it is given
    or when the stream or promise it returns finishes; it has failed when an
    error reaches gulp instead; a function that returns nothing and does not
    call the callback is never done.  [series] starts a task when the one
    before it is done and gives up at the first task that fails.
    [parallel] starts all its tasks at once, in the order given, before any
    of them runs; it is done when all are and reports the first failure.
    The functions are then invoked in that order; what each does is
    recorded as a whole, one after the other in the order of invocation
    (which is how it happens for a function that works synchronously, as
    [distLess] does). *)

Inductive task :=
| Leaf (name : string) (body : gmap string string -> result event)
| Series (children : list task)
| Parallel (children : list task).

(** A task function of the program, as a leaf. *)
Definition lift (body : gmap string string -> result effect)
    (fs : gmap string string) : result event :=
  let r := body fs in
  Result (map Effect (events r)) (fs_after r) (signal r).

Definition settle (name : string) (c : completion) : list event :=
  match c with
  | Done => [Settle name true]
  | Failed _ => [Settle name false]
  | Never => []
  end.

(** The signal of two tasks run side by side. *)
Definition both (c1 c2 : completion) : completion :=
  match c1, c2 with
  | Failed er, _ => Failed er
  | _, Failed er => Failed er
  | Done, Done => Done
  | _, _ => Never
  end.

(** The task functions gulp starts when it starts [t]: the first of a
    series, all of a parallel. *)
Fixpoint starts (t : task) : list event :=
  match t with
  | Leaf name _ => [Start name]
  | Series children =>
      match children with
      | [] => []
      | t' :: _ => starts t'
      end
  | Parallel children =>
      (fix all (ts : list task) : list event :=
         match ts with
         | [] => []
         | t' :: rest => starts t' ++ all rest
         end) children
  end.

(** What follows once [t] is started. *)
Fixpoint work (t : task) (fs : gmap string string) : result event :=
  match t with
  | Leaf name body =>
      let r := body fs in
      Result (events r ++ settle name (signal r)) (fs_after r) (signal r)
  | Series children =>
      (fix series (ts : list task) (fs : gmap string string) : result event :=
         match ts with
         | [] => Result [] fs Done
         | t' :: rest =>
             let r := work t' fs in
             match signal r with
             | Done =>
                 let r' := series rest (fs_after r) in
                 Result (events r
                         ++ match rest with [] => [] | next :: _ => starts next end
                         ++ events r')
                        (fs_after r') (signal r')
             | _ => r
             end
         end) children fs
  | Parallel children =>
      (fix parallel (ts : list task) (fs : gmap string string) : result event :=
         match ts with
         | [] => Result [] fs Done
         | t' :: rest =>
             let r := work t' fs in
             let r' := parallel rest (fs_after r) in
             Result (events r ++ events r') (fs_after r') (both (signal r) (signal r'))
         end) children fs
  end.

Definition run (t : task) (fs : gmap string string) : result event :=
  let r := work t fs in
  Result (starts t ++ events r) (fs_after r) (signal r).

(** The result of a call that may throw. *)
Inductive thrown (A : Type) :=
| Ret (a : A)
| Throw (er : error).
Arguments Ret {A} a.
Arguments Throw {A} er.

(** Calling a composed task with no callback, [composed(null)]: the outcome
    of the graph goes to nobody. *)
Definition call (e : env) (t : task) (fs : gmap string string) : thrown (result event) :=
  match call_fault e with
  | Some er => Throw er
  | None => Ret (run t fs)
  end.

Section EntryPoints.
Variable css : cssConfig.
Variable asset : assetConfig.

(** [gulp.parallel(copyAsset,
      gulp.series(copyFileWatched, distLess, () => { distCss(true); }))]:
    the last function starts the stream of [distCss] and lets go of it. *)
Definition fastBuild (e : env) : task :=
  Parallel
    [ Leaf "copyAsset" (lift (copyAsset asset e));
      Series
        [ Leaf "copyFileWatched" (lift (copyFileWatched css e));
          Leaf "distLess" (lift (distLess css e));
          Leaf "<anonymous>"
            (fun fs =>
               let r := lift (distCss css asset e true) fs in
               Result (events r) (fs_after r) Never) ] ].

(** The graph of [build()], stage by stage; the task of the last stage
    calls [resolve(null)]. *)
Definition buildStage1 (e : env) : task :=
  Parallel
    [ Leaf "copyAsset" (lift (copyAsset asset e));
      Leaf "copyFileWatched" (lift (copyFileWatched css e));
      Leaf "compileLess" (lift (compileLess css e));
      Leaf "handleStyleJSEntry" (lift (handleStyleJSEntry e)) ].

Definition buildStage2 (e : env) : task :=
  Parallel
    [ Leaf "distLess" (lift (distLess css e));
      Leaf "distCss" (lift (distCss css asset e false)) ].

Definition buildStage3 : task :=
  Parallel [ Leaf "<anonymous>" (fun fs => Result [Resolved] fs Never) ].

Definition buildGraph (e : env) : task :=
  Series [ buildStage1 e; buildStage2 e; buildStage3 ].

(** The promise [build()] returns. *)
Inductive promise := Pending | Fulfilled | Rejected (er : error).

Record built := Built {
  built_events : list event;
  built_fs : gmap string string;
  built_promise : promise
}.

Definition resolved (evs : list event) : bool :=
  existsb (fun ev => match ev with Resolved => true | _ => false end) evs.

(** [build()]: the executor of the promise calls the composed graph; an
    exception thrown by the executor rejects the promise. *)
Definition build (e : env) (fs : gmap string string) : built :=
  match call e (buildGraph e) fs with
  | Throw er => Built [] fs (Rejected er)
  | Ret r =>
      Built (events r) (fs_after r)
            (if resolved (events r) then Fulfilled else Pending)
  end.

(** *** watch() *)

(** The events chokidar reports through ['all']. *)
Inductive eventName := add | addDir | change | unlink | unlinkDir.

Definition eventName_string (k : eventName) : string :=
  match k with
  | add => "add"
  | addDir => "addDir"
  | change => "change"
  | unlink => "unlink"
  | unlinkDir => "unlinkDir"
  end.

(** A change on disk as the watcher delivers it, with the state of the
    outside world at that moment. *)
Record fsevent := FsEvent {
  ev_name : eventName;
  ev_fullPath : string;
  ev_edit : gmap string string -> gmap string string;
  ev_env : env
}.

(** What a watch session has done so far. *)
Record session := Session {
  ses_cwd : string;
  ses_fs : gmap string string;
  ses_log : list event
}.

(** [watch()]: the first build, not guarded, then the subscription
    ([ignoreInitial]: files already there raise no event). *)
Definition watch (e : env) (fs : gmap string string) : thrown session :=
  match call e (fastBuild e) fs with
  | Throw er => Throw er
  | Ret r => Ret (Session (cwd e) (fs_after r) (events r))
  end.

(** [try { ... } catch {}] around a call whose value is not used. *)
Definition try_catch {A} (c : thrown A) : option A :=
  match c with
  | Ret a => Some a
  | Throw _ => None
  end.

Definition log_line (cwd0 : string) (c : fsevent) : string :=
  "[" +:+ eventName_string (ev_name c) +:+ "] "
      +:+ JS.remove_first cwd0 (ev_fullPath c).

(** The listener of ['all'].  Each rebuild is followed to its end before
    the next event is taken. *)
Definition on_all (s : session) (c : fsevent) : thrown session :=
  let line := Effect (Print Info [log_line (ses_cwd s) c]) in
  let fs := ev_edit c (ses_fs s) in
  match try_catch (call (ev_env c) (fastBuild (ev_env c)) fs) with
  | Some r => Ret (Session (ses_cwd s) (fs_after r) (ses_log s ++ line :: events r))
  | None => Ret (Session (ses_cwd s) fs (ses_log s ++ [line]))
  end.

(** The session over the events delivered; an exception leaving the
    listener would end it. *)
Fixpoint deliver (s : session) (cs : list fsevent) : thrown session :=
  match cs with
  | [] => Ret s
  | c :: rest =>
      match on_all s c with
      | Ret s' => deliver s' rest
      | Throw er => Throw er
      end
  end.
End EntryPoints.

(** ** Notions used to state the properties *)

(** Segments that normalisation keeps as they are. *)
Definition kept (seg : string) : bool :=
  negb (String.eqb seg "" || String.eqb seg "." || String.eqb seg "..").

(** The directive [distLess] writes for a relative path. *)
Definition directive (rel : string) : string :=
  "@import " +:+ dquote +:+ rel +:+ dquote +:+ ";".

(** The writes of [gulp.dest(dir)] for these files. *)
Definition writes_into (dir : string) (files : list vinyl) : list effect :=
  map (fun v => Write (dest_path dir (v_relative v)) (v_contents v)) files.

(** The disk with these files written under [dir], one after the other. *)
Definition stored (dir : string) (files : list vinyl) (fs : gmap string string)
  : gmap string string :=
  fold_left (fun fs v => <[dest_path dir (v_relative v) := v_contents v]> fs) files fs.

(** The files at the head of the list that the disk takes under [dir], and
    the error on the first it does not take. *)
Fixpoint accepted (e : env) (dir : string) (files : list vinyl) : list vinyl :=
  match files with
  | [] => []
  | v :: rest =>
      match write_error e (dest_path dir (v_relative v)) with
      | Some _ => []
      | None => v :: accepted e dir rest
      end
  end.

Fixpoint refused (e : env) (dir : string) (files : list vinyl) : option error :=
  match files with
  | [] => None
  | v :: rest =>
      match write_error e (dest_path dir (v_relative v)) with
      | Some er => Some er
      | None => refused e dir rest
      end
  end.

(** What a transform makes of the files at the head of the list, up to the
    first it fails on, and its error there. *)
Fixpoint passed (tr : vinyl -> error + vinyl) (files : list vinyl) : list vinyl :=
  match files with
  | [] => []
  | v :: rest =>
      match tr v with
      | inl _ => []
      | inr v' => v' :: passed tr rest
      end
  end.

Fixpoint stopped (tr : vinyl -> error + vinyl) (files : list vinyl) : option error :=
  match files with
  | [] => None
  | v :: rest =>
      match tr v with
      | inl er => Some er
      | inr _ => stopped tr rest
      end
  end.

(** The lines the watcher prints for the events it is given: [print.info]
    with a single argument. *)
Definition event_lines (log : list event) : list string :=
  flat_map (fun ev => match ev with
                      | Effect (Print Info [l]) => [l]
                      | _ => []
                      end) log.

(** An effect other than a line of the watcher. *)
Definition quiet (ef : effect) : Prop := forall l, ef <> Print Info [l].

(** ** The words of the spec, for comparison with the code *)

(** In the words of the spec an entry counts as a style entry when its
    source lies under the reserved "style" namespace: below its first
    directory, in the directory [style]. *)
Definition under_style_namespace (entry : string) : bool :=
  match Path.split entry with
  | _ :: seg :: _ :: _ => String.eqb seg "style"
  | _ => false
  end.

(** In the words of the spec the rewrite takes a prefix of one or more
    parent-directory segments [../] immediately followed by the name of the
    ESM directory.  A match of this at the head of [s]: its length. *)
Fixpoint parents_then_name (name s : string) : option nat :=
  match s with
  | String a (String b (String c rest)) =>
      if Ascii.eqb a "." && Ascii.eqb b "." && Ascii.eqb c "/" then
        match parents_then_name name rest with
        | Some n => Some (3 + n)
        | None => option_map (Nat.add 3) (Rewrite.then_name name rest)
        end
      else None
  | _ => None
  end.

(** Every such prefix replaced, from left to right. *)
Fixpoint spec_replace_go (name to : string) (skip : nat) (s : string) : string :=
  match s with
  | EmptyString => EmptyString
  | String c s' =>
      match skip with
      | S k => spec_replace_go name to k s'
      | 0 =>
          match parents_then_name name s with
          | Some n => to +:+ spec_replace_go name to (n - 1) s'
          | None => String c (spec_replace_go name to 0 s')
          end
      end
  end.

Definition spec_rewritten (name to s : string) : string := spec_replace_go name to 0 s.

(** ** A component library, for the worked examples

    Sources under [components], ESM output in [es], CommonJS output in
    [lib], the distributable in [dist] next to them, assets in [asset].
    The stand-in compiler hands the contents on unchanged, and the stand-in
    minifier marks what it was given. *)

Module Sample.

Definition css : cssConfig :=
  CssConfig ["components/**/*.less"] ["components/**/*.less"]
            (fun _ => Some "components")
            (Some "es") (Some "lib")
            (DistConfig "dist" "index.less" "arco.css")
            (fun _ v => inr v).

Definition asset : assetConfig := AssetConfig ["components/**/*.png"] "asset".

Definition sources : list vinyl :=
  [Vinyl "button/style/index.less" ".btn{color:red}";
   Vinyl "style/index.less" "@import 'theme';"].

Definition world : env :=
  Env "/proj" None "12:00:00"
      (fun _ => ["components/button/style/index.less"; "components/style/index.less"])
      (fun _ globs _ =>
         if existsb (String.eqb "components/**/*.less") globs then sources else [])
      (fun _ => None)
      (fun s => inr ("min(" +:+ s +:+ ")"))
      (fun _ _ s => s)
      (fun fs => Result [] fs Done)
      None.

(** The same world with a disk that refuses the CommonJS copy of one file. *)
Definition world_copy_error : env :=
  Env (cwd world) (BUILD_ENV_MODE world) (now world) (glob_sync world) (gulp_src world)
      (fun p => if String.eqb p "lib/style/index.less" then Some "EACCES" else None)
      (cleanCSS world) (regexp_replace world) (handleStyleJSEntry world) (call_fault world).

(** The same world with a disk that refuses the index file. *)
Definition world_index_error : env :=
  Env (cwd world) (BUILD_ENV_MODE world) (now world) (glob_sync world) (gulp_src world)
      (fun p => if String.eqb p "dist/index.less" then Some "EACCES" else None)
      (cleanCSS world) (regexp_replace world) (handleStyleJSEntry world) (call_fault world).

(** A world in which the composed gulp function throws when called. *)
Definition world_throwing : env :=
  Env (cwd world) (BUILD_ENV_MODE world) (now world) (glob_sync world) (gulp_src world)
      (write_error world) (cleanCSS world) (regexp_replace world) (handleStyleJSEntry world)
      (Some "boom").

(** A world whose entry globs match nothing. *)
Definition world_empty : env :=
  Env (cwd world) (BUILD_ENV_MODE world) (now world) (fun _ => []) (fun _ _ _ => [])
      (write_error world) (cleanCSS world) (regexp_replace world) (handleStyleJSEntry world)
      (call_fault world).

(** The same world with a disk that refuses the ESM copy of one file. *)
Definition world_esm_error : env :=
  Env (cwd world) (BUILD_ENV_MODE world) (now world) (glob_sync world) (gulp_src world)
      (fun p => if String.eqb p "es/style/index.less" then Some "EACCES" else None)
      (cleanCSS world) (regexp_replace world) (handleStyleJSEntry world) (call_fault world).

(** The same world with a minifier that rejects what it is given. *)
Definition world_minifier_error : env :=
  Env (cwd world) (BUILD_ENV_MODE world) (now world) (glob_sync world) (gulp_src world)
      (write_error world) (fun _ => inl "CssSyntaxError") (regexp_replace world)
      (handleStyleJSEntry world) (call_fault world).

(** A library with a component [styleguide], matched after the entry of
    the [style] directory. *)
Definition world_styleguide : env :=
  Env (cwd world) (BUILD_ENV_MODE world) (now world)
      (fun _ => ["components/style/index.less"; "components/styleguide/style/index.less"])
      (gulp_src world) (write_error world) (cleanCSS world) (regexp_replace world)
      (handleStyleJSEntry world) (call_fault world).

(** A disk holding an index whose style sheet names an image in a
    directory [es] of its own, below [locale]. *)
Definition disk_locale_reference : gmap string string :=
  {[ "dist/index.less" := ".flag{background:url(locale/es/flag.png)}" ]}.

(** A disk holding an index whose style sheet reaches the ESM directory
    from a directory of its own. *)
Definition disk_nested_reference : gmap string string :=
  {[ "dist/index.less" := ".a{background:url(img/../es/button/x.png)}" ]}.

Definition disk_parent_reference : gmap string string :=
  {[ "dist/index.less" := ".a{background:url(../es/button/x.png)}" ]}.

End Sample.

(** ** Further notions and worlds for the properties below *)

(** An effect that writes a file. *)
Definition is_write (ef : effect) : bool :=
  match ef with
  | Write _ _ => true
  | _ => false
  end.

Module Sample2.

(** The sample library with other output directories. *)
Definition css : cssConfig :=
  CssConfig (entry Sample.css) (watch_globs Sample.css) (watchBase Sample.css)
            (Some "esm") None
            (DistConfig "dist/css" "index.less" "arco.min.css")
            (compiler Sample.css).

End Sample2.

(** The signals of the four tasks of the first stage of [build()], each
    task run on the disk the one before it left. *)
Definition stage1_signals (css : cssConfig) (asset : assetConfig) (e : env)
    (fs : gmap string string) : list completion :=
  let a := copyAsset asset e fs in
  let c := copyFileWatched css e (fs_after a) in
  let l := compileLess css e (fs_after c) in
  let h := handleStyleJSEntry e (fs_after l) in
  [signal a; signal c; signal l; signal h].

(** A path at which the style build is configured to put a file. *)
Definition output_location (css : cssConfig) (asset : assetConfig) (p : string) : Prop :=
  p = index_path css \/ p = artifact_path css
  \/ exists d rel, (d = asset_output asset \/ In d (destDirs css)) /\ p = dest_path d rel.

(** * Project creation (the module that follows compileStyle.ts in the file)

    [addGitIgnore], [tryGitInit], [tryGitCommit], [getPackageInfo],
    [handleDependencies] and the exported function that creates a project
    from a template.  Commands, the registry and the template are outside
    the program: a run takes their answers as parameters and leaves the
    list of the steps it took. *)

Module Init.

(** ** getPackageInfo *)

(** [s.split(sep)] for a one-character separator. *)
Fixpoint split (sep : ascii) (s : string) : list string :=
  match s with
  | EmptyString => [EmptyString]
  | String a s' =>
      if Ascii.eqb a sep then EmptyString :: split sep s'
      else match split sep s' with
           | x :: xs => String a x :: xs
           | [] => [String a EmptyString]
           end
  end.

(** [s.charAt(0)] *)
Definition charAt0 (s : string) : string :=
  match s with
  | EmptyString => EmptyString
  | String a _ => String a EmptyString
  end.

(** [s.match(/.+@/)] finds something: an [@] with a character other than
    a line terminator right before it. *)
Fixpoint match_some_then_at (s : string) : bool :=
  match s with
  | String a ((String b _) as s') =>
      (Rewrite.dot a && Ascii.eqb b "@") || match_some_then_at s'
  | _ => false
  end.

(** No line terminator in [s]: [.*] runs to its end. *)
Fixpoint one_line (s : string) : bool :=
  match s with
  | EmptyString => true
  | String a s' => Rewrite.dot a && one_line s'
  end.

(** [{ name, version }]; [None] is [undefined]. *)
Record packageInfo := PackageInfo {
  pkg_name : option string;
  pkg_version : option string
}.

(** The first group of the second [file:] pattern (the prefix, an optional
    group of any characters but line terminators, the end of the input) for
    [s] starting with [file:]: the text behind the prefix.  With a line
    terminator in it the pattern does not match and indexing [null] throws;
    when it is empty the group takes no part and the answer is
    [undefined]. *)
Definition file_path (s : string) : thrown (option string) :=
  let rest := JS.slice 5 s in
  if one_line rest then
    Ret (match rest with EmptyString => None | _ => Some rest end)
  else Throw "TypeError".

Section GetPackageInfo.
(** [require(path.join(dir, 'package.json'))], by the directory. *)
Variable require_package : string -> thrown packageInfo.

Definition getPackageInfo (installPackage : string) : thrown packageInfo :=
  if match_some_then_at installPackage then
    Ret (PackageInfo
           (Some (charAt0 installPackage
                    +:+ hd EmptyString (split "@" (JS.slice 1 installPackage))))
           (nth_error (split "@" installPackage) 1))
  else if String.prefix "file:" installPackage then
    match file_path installPackage with
    | Throw er => Throw er
    | Ret None => Throw "TypeError"           (* path.join(undefined, ...) *)
    | Ret (Some dir) => require_package dir
    end
  else Ret (PackageInfo (Some installPackage) None).
End GetPackageInfo.

(** ** addGitIgnore

    The files of the project directory, by name.  Reading a file that is
    not there throws; [fs.moveSync] of a file that is not there throws as
    well, inside the [try]. *)
Definition addGitIgnore (fs : gmap string string) : thrown (gmap string string) :=
  match fs !! ".gitignore" with
  | Some old =>
      match fs !! "gitignore" with
      | None => Throw "ENOENT"
      | Some data => Ret (delete "gitignore" (<[".gitignore" := old +:+ data]> fs))
      end
  | None =>
      match fs !! "gitignore" with
      | Some data => Ret (delete "gitignore" (<[".gitignore" := data]> fs))
      | None => Ret fs
      end
  end.

(** ** handleDependencies *)

(** The argument: [null], a string or an array. *)
Inductive dependencies := DepsNull | DepsString (s : string) | DepsArray (l : list string).

(** After [if (dependencies && !(dependencies instanceof Array))
    dependencies = [dependencies]]: the array, when the value is truthy. *)
Definition as_array (d : dependencies) : option (list string) :=
  match d with
  | DepsNull => None
  | DepsString EmptyString => None
  | DepsString s => Some [s]
  | DepsArray l => Some l
  end.

Definition npm_args (hostNPM : string) (d : dependencies) : list string :=
  ["install"; "--registry"; hostNPM; "--loglevel"; "error"]
  ++ match as_array d with
     | Some l => ["--save"; "--save-exact"] ++ l
     | None => []
     end.

(** How an awaited promise ends. *)
Inductive settled := Resolves | Rejects (reason : string).

(** The promise around a child process: resolved when it closes with code
    [0], rejected with the given reason otherwise ([None] is a [null]
    code). *)
Definition on_close (code : option nat) (reason : string) : settled :=
  match code with
  | Some 0 => Resolves
  | _ => Rejects reason
  end.

Section HandleDependencies.
(* getGlobalInfo().host.npm, read inside the executor of the promise: the
   registry, or what is thrown on the way to it (a TypeError when [host]
   is not there) *)
Variable hostNPM : thrown string.
Variable crossSpawn : string -> list string -> option nat.  (* the code at 'close' *)

(** An exception of the executor rejects the promise, before anything is
    spawned. *)
Definition handleDependencies (d : dependencies) : settled :=
  match hostNPM with
  | Throw er => Rejects er
  | Ret host =>
      let args := npm_args host d in
      on_close (crossSpawn "npm" args)
               ("Command Error: npm " +:+ JS.join " " args)
  end.
End HandleDependencies.

(** ** The exported function: a project from a template *)

(** The entries of the locale table the code reads. *)
Inductive key :=
| TIP_PROJECT_INIT_ING
| TIP_TEMPLATE_DOWNLOAD_ING | TIP_TEMPLATE_DOWNLOAD_DONE | TIP_TEMPLATE_DOWNLOAD_FAILED
| TIP_TEMPLATE_COPY_ING | TIP_TEMPLATE_COPY_DONE | TIP_TEMPLATE_COPY_FAILED
| TIP_TEMPLATE_ADAPT_ING | TIP_TEMPLATE_ADAPT_DONE | TIP_TEMPLATE_ADAPT_FAILED
| TIP_DEPENDENCIES_INSTALL_ING | TIP_DEPENDENCIES_INSTALL_DONE
| TIP_DEPENDENCIES_INSTALL_FAILED
| TIP_PROJECT_BUILD_ING | TIP_PROJECT_BUILD_DONE | TIP_PROJECT_BUILD_FAILED
| TIP_PROJECT_INIT_DONE | TIP_HELP_INFO_LERNA | TIP_HELP_INFO
| ERROR_PROJECT_INIT_FAILED | ERROR_GIT_INIT_FAILED.

(** What a run does, in order. *)
Inductive step :=
| Log (s : string)                               (* print(s) *)
| LogWarn (args : list string)                   (* print.warn(...args) *)
| LogError (args : list string)                  (* print.error(...args) *)
| LogErrorIn (scope : list string) (s : string)  (* print.error([...scope], s) *)
| LogSuccess (s : string)                        (* print.success(s) *)
| Divider                                        (* print.divider() *)
| SpinStart (k : key)                            (* spinner.start(locale.k) *)
| SpinSucceed (k : key)                          (* spinner.succeed(locale.k) *)
| SpinFail (k : key)                             (* spinner.fail(locale.k) *)
| EmptyDir (dir : string)                        (* fs.emptyDirSync(dir) *)
| Chdir (dir : string)                           (* process.chdir(dir) *)
| WriteJson (file : string)                      (* fs.writeJsonSync(file, {}) *)
| Remove (file : string)                         (* fs.removeSync(file) *)
| CopySync (src dest : string)                   (* fs.copySync(src, dest, ...) *)
| Spawn (command : string) (args : list string)  (* crossSpawn(command, args, ...) *)
| ExecSync (command : string)                    (* execSync(command, ...) *)
| TransformToProject                             (* materialTemplate.transformToProject *)
| AddGitIgnore                                   (* addGitIgnore() *)
| BeforeGitCommit                                (* beforeGitCommit() *)
| AfterInit.                                     (* the template's after-init hook *)

(** How the call ends: the promise is fulfilled, the process exits with a
    code, or the promise is rejected by something thrown outside every
    [try]. *)
Inductive ending := Returned | Exited (code : nat) | Threw (er : error).

(** The Lerna configuration, as far as it is read. *)
Record lerna := Lerna {
  useWorkspaces : bool;
  npmClient : option string
}.

(** The machine the command runs on.  The directory operations of the
    function itself ([emptyDirSync], [chdir], [writeJsonSync],
    [removeSync]) are taken to succeed. *)
Record world := World {
  originalDirectory : string;                  (* process.cwd(), absolute *)
  isInGitRepository : bool;
  locale : key -> string;
  green : string -> string;                    (* chalk.green *)
  hostNPM : thrown string;                     (* getGlobalInfo().host.npm, or what
                                                  reading it throws *)
  crossSpawn : string -> list string -> option nat;
  execSync : string -> option error;           (* what the command throws *)
  require_package : string -> thrown packageInfo;
  copySync : string -> string -> option error;
  transformToProject : option error;
  (* the export of the hook module at a path, when [require] finds a truthy
     one, with what awaiting its call throws *)
  require_hook : string -> option (option error);
  project_files : gmap string string;          (* the directory once adapted *)
  getLernaConfig : thrown (option lerna)
}.

Record options := Options {
  root : string;
  template : string;
  projectName : string;
  packageJson_name : option string;            (* packageJson.name *)
  isForMonorepo : bool;
  arcoPackageName : option string;
  (* [Some r] is a function, [r] what calling it throws *)
  beforeGitCommit : option (option error)
}.

Definition flow := (list step * ending)%type.

(** The steps so far, then the rest of the run. *)
Definition after (steps : list step) (rest : flow) : flow :=
  (steps ++ fst rest, snd rest).

(** [path.resolve(p)] in the directory [dir], as a string. *)
Definition absolute (dir p : string) : string :=
  "/" +:+ JS.join "/" (Path.resolve dir p).

Definition tryGitInit (w : world) : bool * list step :=
  match execSync w "git init" with
  | None => (true, [ExecSync "git init"])
  | Some er =>
      (false, [ExecSync "git init"; LogWarn [locale w ERROR_GIT_INIT_FAILED; er]])
  end.

(** The [catch] of [tryGitCommit]. *)
Definition commit_given_up (er : error) : list step :=
  [LogWarn ["Git commit not created"; er];
   LogWarn ["Removing .git directory..."];
   Remove "./.git"].

Definition commit_command (commitMessage : string) : string :=
  "git commit -m " +:+ dquote +:+ commitMessage +:+ dquote +:+ " --no-verify".

Definition tryGitCommit (w : world) (commitMessage : string) : bool * list step :=
  match execSync w "git add -A" with
  | Some er => (false, ExecSync "git add -A" :: commit_given_up er)
  | None =>
      match execSync w (commit_command commitMessage) with
      | Some er =>
          (false, ExecSync "git add -A" :: ExecSync (commit_command commitMessage)
                    :: commit_given_up er)
      | None =>
          (true, [ExecSync "git add -A"; ExecSync (commit_command commitMessage)])
      end
  end.

(** Lines 314-316: a [file:] template is made absolute. *)
Definition resolved_template (w : world) (template : string) : thrown string :=
  if String.prefix "file:" template then
    match file_path template with
    | Throw er => Throw er
    | Ret None => Throw "TypeError"            (* path.resolve(dir, undefined) *)
    | Ret (Some p) => Ret ("file:" +:+ absolute (originalDirectory w) p)
    end
  else Ret template.

(** The working directory after [process.chdir(root)]. *)
Definition projectDirectory (w : world) (o : options) : string :=
  absolute (originalDirectory w) (root o).

Definition commitMessage (o : options) : string :=
  "arco-cli: " +:+ (if isForMonorepo o then "add package" else "initialize")
  +:+ " " +:+ JS.toString (packageJson_name o).

(** Lines 414-439: the build and the help text, when there is no hook. *)
Definition build_and_help (w : world) (o : options) : list step :=
  [SpinStart TIP_PROJECT_BUILD_ING; Spawn "npm" ["run"; "build"]]
  ++ match on_close (crossSpawn w "npm" ["run"; "build"]) "Command Error: npm run build" with
     | Resolves => [SpinSucceed TIP_PROJECT_BUILD_DONE]
     | Rejects err => [SpinFail TIP_PROJECT_BUILD_FAILED; LogError [err]]
     end
  ++ [Divider; LogSuccess (" " +:+ locale w TIP_PROJECT_INIT_DONE)]
  ++ (if isForMonorepo o
      then [LogSuccess (" " +:+ locale w TIP_HELP_INFO_LERNA);
            LogSuccess "   $ yarn dev"]
      else [LogSuccess (" " +:+ locale w TIP_HELP_INFO);
            LogSuccess ("   $ cd " +:+ projectName o);
            LogSuccess "   $ npm run dev"])
  ++ [Divider].

(** Lines 405-444. *)
Definition finish (w : world) (o : options) (afterInit : option (option error))
    : list step :=
  match afterInit with
  | Some None => [AfterInit]
  | Some (Some er) =>
      [AfterInit;
       LogErrorIn ["arco-init"] (locale w ERROR_PROJECT_INIT_FAILED);
       LogError [er]]
  | None => build_and_help w o
  end.

Definition uses_yarn (lernaConfig : option lerna) : bool :=
  match lernaConfig with
  | Some c =>
      useWorkspaces c
      && match npmClient c with Some s => String.eqb s "yarn" | None => false end
  | None => false
  end.

(** The child process of [handleDependencies], when the registry can be
    read. *)
Definition npm_spawned (w : world) (d : dependencies) : list step :=
  match hostNPM w with
  | Ret host => [Spawn "npm" (npm_args host d)]
  | Throw _ => []
  end.

(** Lines 381-398: the dependencies of the new project. *)
Definition install (w : world) : list step :=
  SpinStart TIP_DEPENDENCIES_INSTALL_ING
  :: match getLernaConfig w with
     | Throw err => [SpinFail TIP_DEPENDENCIES_INSTALL_FAILED; LogError [err]]
     | Ret lernaConfig =>
         let '(spawned, outcome) :=
           if uses_yarn lernaConfig
           then ([Spawn "yarn" ["install"]],
                 on_close (crossSpawn w "yarn" ["install"]) "Command Error: yarn install")
           else (npm_spawned w DepsNull,
                 handleDependencies (hostNPM w) (crossSpawn w) DepsNull) in
         spawned
         ++ match outcome with
            | Resolves => [SpinSucceed TIP_DEPENDENCIES_INSTALL_DONE]
            | Rejects err => [SpinFail TIP_DEPENDENCIES_INSTALL_FAILED; LogError [err]]
            end
     end.

(** Lines 371-444: everything behind the three template stages. *)
Definition settle_project (w : world) (o : options) (templateInfo : packageInfo) : flow :=
  let afterInit :=
    require_hook w
      (absolute (projectDirectory w o)
         ("node_modules/" +:+ JS.toString (pkg_name templateInfo)
          +:+ "/hook/after-init.js")) in
  match addGitIgnore (project_files w) with
  | Throw er => ([AddGitIgnore], Threw er)
  | Ret _ =>
      after ([AddGitIgnore]
             ++ (if isInGitRepository w then [] else snd (tryGitInit w))
             ++ install w)
        match beforeGitCommit o with
        | Some (Some er) => ([BeforeGitCommit], Threw er)
        | called =>
            ((match called with Some _ => [BeforeGitCommit] | None => [] end)
             ++ snd (tryGitCommit w (commitMessage o))
             ++ finish w o afterInit,
             Returned)
        end
  end.

(** Lines 355-369. *)
Definition adapt (w : world) (o : options) (templateInfo : packageInfo) : flow :=
  match transformToProject w with
  | Some err =>
      ([SpinStart TIP_TEMPLATE_ADAPT_ING; TransformToProject;
        SpinFail TIP_TEMPLATE_ADAPT_FAILED; LogError [err]], Exited 1)
  | None =>
      after [SpinStart TIP_TEMPLATE_ADAPT_ING; TransformToProject;
             SpinSucceed TIP_TEMPLATE_ADAPT_DONE]
        (settle_project w o templateInfo)
  end.

(** Lines 339-353. *)
Definition copy (w : world) (o : options) (templateInfo : packageInfo) : flow :=
  let templatePath :=
    absolute (projectDirectory w o)
      ("node_modules/" +:+ JS.toString (pkg_name templateInfo) +:+ "/"
       +:+ (if isForMonorepo o then "template-for-monorepo" else "template")) in
  match copySync w templatePath (root o) with
  | Some err =>
      ([SpinStart TIP_TEMPLATE_COPY_ING; CopySync templatePath (root o);
        SpinFail TIP_TEMPLATE_COPY_FAILED; LogError [err]], Exited 1)
  | None =>
      after [SpinStart TIP_TEMPLATE_COPY_ING; CopySync templatePath (root o);
             SpinSucceed TIP_TEMPLATE_COPY_DONE]
        (adapt w o templateInfo)
  end.

(** Lines 325-337. *)
Definition download (w : world) (o : options) (template : string)
    (templateInfo : packageInfo) : flow :=
  let spawned := npm_spawned w (DepsString template) in
  match handleDependencies (hostNPM w) (crossSpawn w) (DepsString template) with
  | Rejects err =>
      (SpinStart TIP_TEMPLATE_DOWNLOAD_ING :: spawned
       ++ [SpinFail TIP_TEMPLATE_DOWNLOAD_FAILED; LogError [err]], Exited 1)
  | Resolves =>
      after (SpinStart TIP_TEMPLATE_DOWNLOAD_ING :: spawned
             ++ [Remove "./package-lock.json";
                 SpinSucceed TIP_TEMPLATE_DOWNLOAD_DONE])
        (copy w o templateInfo)
  end.

Definition createProject (w : world) (o : options) : flow :=
  match resolved_template w (template o) with
  | Throw er => ([], Threw er)
  | Ret template =>
      after [Log (newline +:+ locale w TIP_PROJECT_INIT_ING +:+ " " +:+ green w (root o));
             EmptyDir (root o); Chdir (root o); WriteJson "./package.json"]
        match getPackageInfo (require_package w) template with
        | Throw er => ([], Threw er)
        | Ret templateInfo => download w o template templateInfo
        end
  end.

(** ** A sample machine and sample options *)

Definition sample_locale (k : key) : string :=
  match k with
  | TIP_PROJECT_INIT_ING => "Creating project in"
  | TIP_PROJECT_INIT_DONE => "Project created"
  | TIP_HELP_INFO => "Start with"
  | TIP_HELP_INFO_LERNA => "Start from the repository root with"
  | ERROR_PROJECT_INIT_FAILED => "Project creation failed"
  | ERROR_GIT_INIT_FAILED => "git init failed"
  | _ => "..."
  end.

(** A machine outside any git repository, with no hook and no Lerna
    configuration, where git works and child processes close as
    [crossSpawn] says. *)
Definition sample_world (crossSpawn : string -> list string -> option nat) : world :=
  World "/home/dev" false sample_locale (fun s => s) (Ret "https://registry.npmjs.org")
        crossSpawn (fun _ => None)
        (fun _ => Throw "MODULE_NOT_FOUND")
        (fun _ _ => None) None (fun _ => None)
        {["gitignore" := "node_modules"]}
        (Ret None).

(** Every child process fails. *)
Definition all_fail (command : string) (args : list string) : option nat := Some 1.

(** Only the download of the template succeeds. *)
Definition only_template_installs (command : string) (args : list string) : option nat :=
  if existsb (String.eqb "--save") args then Some 0 else Some 1.

Definition sample_options : options :=
  Options "/home/dev/button" "@arco-materials/template-react@1.0.0" "button"
          (Some "button") false None None.

End Init.

(** ** Readings of a run *)

(** The commands a run handed to [execSync], in order. *)
Definition commands (steps : list Init.step) : list string :=
  omap (fun s => match s with Init.ExecSync c => Some c | _ => None end) steps.

(** The spinner texts of the install of the dependencies and of the
    build. *)
Definition late_key (k : Init.key) : bool :=
  match k with
  | Init.TIP_DEPENDENCIES_INSTALL_ING | Init.TIP_DEPENDENCIES_INSTALL_DONE
  | Init.TIP_DEPENDENCIES_INSTALL_FAILED
  | Init.TIP_PROJECT_BUILD_ING | Init.TIP_PROJECT_BUILD_DONE
  | Init.TIP_PROJECT_BUILD_FAILED => true
  | _ => false
  end.

(** A step that belongs to what follows the three template stages: git,
    the ignore file, the install of the dependencies, the hook, the build
    and the help text. *)
Definition past_template (s : Init.step) : bool :=
  match s with
  | Init.ExecSync _ | Init.AddGitIgnore | Init.BeforeGitCommit | Init.AfterInit
  | Init.Divider | Init.LogSuccess _ | Init.LogWarn _ | Init.LogErrorIn _ _ => true
  | Init.SpinStart k | Init.SpinSucceed k | Init.SpinFail k => late_key k
  | _ => false
  end.

(** How far a run of the project creation gets: it throws before or
    during the template stages, stops in one of the three with an exit, or
    reaches what follows them. *)
Definition template_outcome (w : Init.world) (o : Init.options) (f : Init.flow) : Prop :=
  (exists er, snd f = Init.Threw er /\ Forall (fun s => past_template s = false) (fst f))
  \/ (snd f = Init.Exited 1
      /\ exists pre k er,
           fst f = pre ++ [Init.SpinFail k; Init.LogError [er]]
           /\ (k = Init.TIP_TEMPLATE_DOWNLOAD_FAILED \/ k = Init.TIP_TEMPLATE_COPY_FAILED
               \/ k = Init.TIP_TEMPLATE_ADAPT_FAILED)
           /\ Forall (fun s => past_template s = false) pre)
  \/ (exists pre templateInfo,
        fst f = pre ++ fst (Init.settle_project w o templateInfo)
        /\ snd f = snd (Init.settle_project w o templateInfo)
        /\ Forall (fun s => past_template s = false) pre).

(** A step of the end of a run: the hook, or the build and the help
    text. *)
Definition closing_step (s : Init.step) : bool :=
  match s with
  | Init.AfterInit | Init.Divider | Init.LogSuccess _ | Init.LogErrorIn _ _
  | Init.SpinStart Init.TIP_PROJECT_BUILD_ING => true
  | _ => false
  end.

(** The words of a command line behind the first, each after a space. *)
Definition spaced (words : list string) : string :=
  fold_right (fun x acc => " " +:+ x +:+ acc) EmptyString words.

(** * Properties *)

(** ** String and path primitives on the paths of a component library *)

Example indexOf_ex : JS.indexOf "/" "components/style/index.less" = Some 10.
Proof. reflexivity. Qed.
Example slice_ex : JS.slice_from_indexOf "/" "components/style/index.less" = "/style/index.less".
Proof. reflexivity. Qed.
Example slice_noslash_ex : JS.slice_from_indexOf "/" "index.less" = "s".
Proof. reflexivity. Qed.
Example relative_ex1 : Path.relative "/proj" "dist" "es/style/index.less" = "../es/style/index.less".
Proof. vm_compute. reflexivity. Qed.
Example relative_ex2 : Path.relative "/proj" "dist/css" "dist/asset" = "../asset".
Proof. vm_compute. reflexivity. Qed.
Example relative_ex3 : Path.relative "/proj" "dist/css" "./es/../es/a//b/" = "../../es/a/b".
Proof. vm_compute. reflexivity. Qed.
Example relative_ex4 : Path.relative "/proj" "dist" "dist" = "".
Proof. vm_compute. reflexivity. Qed.
Example remove_first_ex : JS.remove_first "/proj" "/proj/components/a.less" = "/components/a.less".
Proof. reflexivity. Qed.

(** ** The import index: order of the directives *)

Lemma filter_nothing {A} (f : A -> bool) (l : list A) :
  (forall x, In x l -> f x = false) -> List.filter f l = [].
Proof.
  induction l as [|x l IH]; [done|]. intros H. cbn [List.filter].
  rewrite (H x) by (left; reflexivity). apply IH. intros y Hy. apply H. by right.
Qed.

Lemma distLess_texts_snoc css e entries en :
  distLess_texts css e (entries ++ [en]) =
  distLess_step css e (distLess_texts css e entries) en.
Proof. unfold distLess_texts. by rewrite fold_left_app. Qed.

Lemma distLess_texts_order css e entries :
  distLess_texts css e entries = map (import_text css e) (index_order css entries).
Proof.
  induction entries as [|en entries IH] using rev_ind; [done|].
  rewrite distLess_texts_snoc, IH. unfold distLess_step, index_order.
  rewrite !List.filter_app. cbn [List.filter].
  destruct (is_style css en); cbn [negb].
  - rewrite rev_app_distr, app_nil_r. reflexivity.
  - rewrite !app_nil_r, !map_app, <- app_assoc. reflexivity.
Qed.

Lemma style_first_index_order css entries :
  style_first css (index_order css entries).
Proof.
  intros i j a b Hi Hj Ha Hb. unfold index_order in *.
  set (st := rev (List.filter (is_style css) entries)) in *.
  set (ot := List.filter (fun x => negb (is_style css x)) entries) in *.
  assert (Hst : forall x, In x st -> is_style css x = true).
  { intros x Hx. apply in_rev, List.filter_In in Hx. tauto. }
  assert (Hot : forall x, In x ot -> is_style css x = false).
  { intros x Hx. apply List.filter_In in Hx. destruct Hx as [_ Hx].
    by apply negb_true_iff in Hx. }
  destruct (decide (i < length st)) as [Hlt|Hge].
  - destruct (decide (j < length st)) as [Hjl|Hjg]; [|lia].
    rewrite lookup_app_l in Hj by done.
    apply list_elem_of_lookup_2, list_elem_of_In, Hst in Hj. congruence.
  - rewrite lookup_app_r in Hi by lia.
    apply list_elem_of_lookup_2, list_elem_of_In, Hot in Hi. congruence.
Qed.

(** X25.  [distLess] handles the matched entries in match order, putting
    the directive of an entry that passes its test in front of the list
    built so far ([unshift]) and any other directive at its end ([push]).
    Whatever the order of the matches, the list is therefore the directives
    of the entries that pass the test (the latest match first) followed by
    the directives of the other entries in match order, so that no
    directive of an entry that fails the test stands before one of an entry
    that passes it.  When something matched and the disk takes the index,
    [distLess] writes it, and nothing else, with these directives joined by
    newlines, and calls its callback. *)
Theorem distLess_style_entries_first :
  forall css e entries,
    (forall en, distLess_texts css e (entries ++ [en]) =
                if is_style css en
                then import_text css e en :: distLess_texts css e entries
                else distLess_texts css e entries ++ [import_text css e en])
    /\ distLess_texts css e entries = map (import_text css e) (index_order css entries)
    /\ style_first css (index_order css entries)
    /\ List.filter (fun x => negb (is_style css x)) (index_order css entries)
       = List.filter (fun x => negb (is_style css x)) entries
    /\ (forall fs,
          distLess_entries css e <> [] -> write_error e (index_path css) = None ->
          events (distLess css e fs)
          = [Write (index_path css)
               (JS.join newline
                  (map (import_text css e) (index_order css (distLess_entries css e))))]
          /\ signal (distLess css e fs) = Done).
Proof.
  intros css e entries. repeat split.
  - intros en. rewrite distLess_texts_snoc. reflexivity.
  - apply distLess_texts_order.
  - apply style_first_index_order.
  - unfold index_order. rewrite List.filter_app.
    assert (H1 : forall l, List.filter (fun x => negb (is_style css x))
                     (rev (List.filter (is_style css) l)) = []).
    { intros l. apply filter_nothing. intros x Hx.
      apply in_rev, List.filter_In in Hx. destruct Hx as [_ ->]. reflexivity. }
    rewrite H1. cbn [app].
    induction entries as [|x l IH]; [done|]. cbn [List.filter].
    destruct (is_style css x) eqn:Hx; cbn [negb List.filter]; rewrite ?Hx; cbn [negb];
      [apply IH | by rewrite IH].
  - unfold distLess. destruct (distLess_entries css e) as [|x l] eqn:Hen; [done|].
    rewrite H0. cbn [events]. by rewrite distLess_texts_order.
  - unfold distLess. destruct (distLess_entries css e) as [|x l] eqn:Hen; [done|].
    by rewrite H0.
Qed.

(** C2.  The test of [distLess] is on the characters of the path:
    [<es>/style] has to begin it, and no separator is asked for behind.
    With the entry of the style directory, [components/style/index.less],
    matched first and the entry of a component whose name begins with
    these letters, [components/styleguide/style/index.less], matched after
    it, [distLess] takes the component's entry for a style entry as well
    and puts its directive in front: the index is written with the
    directive of a source that is not under the style namespace before the
    directive of the one that is. *)
Theorem distLess_takes_a_component_for_a_style_entry :
  distLess_entries Sample.css Sample.world_styleguide
  = ["components/style/index.less"; "components/styleguide/style/index.less"]
  /\ under_style_namespace "components/style/index.less" = true
  /\ under_style_namespace "components/styleguide/style/index.less" = false
  /\ is_style Sample.css "components/styleguide/style/index.less" = true
  /\ distLess Sample.css Sample.world_styleguide ∅
     = Result [Write "dist/index.less"
                 (directive "../es/styleguide/style/index.less" +:+ newline
                    +:+ directive "../es/style/index.less")]
              (<["dist/index.less" :=
                   directive "../es/styleguide/style/index.less" +:+ newline
                     +:+ directive "../es/style/index.less"]> ∅)
              Done.
Proof. repeat split; vm_compute; reflexivity. Qed.

Example distLess_sample :
  events (distLess Sample.css Sample.world ∅)
  = [Write "dist/index.less"
       (directive "../es/style/index.less" +:+ newline
          +:+ directive "../es/button/style/index.less")].
Proof. vm_compute. reflexivity. Qed.

(** Style entries come out latest match first, the others as matched; an
    entry without a slash keeps its last character only. *)
Example distLess_texts_order_sample :
  distLess_texts Sample.css Sample.world
    ["components/style/a.less"; "components/button/a.less"; "components/style/b.less";
     "components/card/a.less"; "index.less"]
  = [directive "../es/style/b.less"; directive "../es/style/a.less";
     directive "../es/button/a.less"; directive "../es/card/a.less";
     directive "../ess"].
Proof. vm_compute. reflexivity. Qed.

(** ** Strings, segments and relative paths *)

Lemma sapp_assoc (a b c : string) : (a +:+ b) +:+ c = a +:+ (b +:+ c).
Proof. induction a as [|x a IH]; [done|]. cbv [String.append]; fold String.append. by rewrite IH. Qed.

Lemma sapp_cons (x : ascii) (a b : string) : String x a +:+ b = String x (a +:+ b).
Proof. reflexivity. Qed.

Lemma sapp_nil_l (a : string) : EmptyString +:+ a = a.
Proof. reflexivity. Qed.

Lemma sapp_nil_r (a : string) : a +:+ EmptyString = a.
Proof. induction a as [|x a IH]; [done|]. by rewrite sapp_cons, IH. Qed.

Lemma rev_app_sapp (a b c : string) : String.rev_app a b +:+ c = String.rev_app a (b +:+ c).
Proof. revert b. induction a as [|x a IH]; intros b; [done|]. cbn [String.rev_app]. by rewrite IH. Qed.

(** A string without a slash is one segment. *)
Lemma split_go_no_slash cur s :
  JS.indexOf "/" s = None -> Path.split_go cur s = [String.rev cur +:+ s].
Proof.
  revert cur. induction s as [|a s IH]; intros cur H.
  - cbn [Path.split_go]. by rewrite sapp_nil_r.
  - cbn [JS.indexOf Path.split_go] in *. destruct (Ascii.eqb a "/"); [done|].
    destruct (JS.indexOf "/" s); [done|]. rewrite IH by done.
    unfold String.rev. cbn [String.rev_app]. rewrite !rev_app_sapp. reflexivity.
Qed.

Lemma split_go_slash cur a b :
  Path.split_go cur (a +:+ "/" +:+ b) = Path.split_go cur a ++ Path.split b.
Proof.
  revert cur. induction a as [|x a IH]; intros cur.
  - reflexivity.
  - rewrite sapp_cons. cbn [Path.split_go]. destruct (Ascii.eqb x "/").
    + by rewrite IH.
    + apply IH.
Qed.

Lemma split_slash a b : Path.split (a +:+ "/" +:+ b) = Path.split a ++ Path.split b.
Proof. apply split_go_slash. Qed.

Lemma normalize_go_app acc xs ys :
  Path.normalize_go acc (xs ++ ys) = Path.normalize_go (rev (Path.normalize_go acc xs)) ys.
Proof.
  revert acc. induction xs as [|x xs IH]; intros acc; cbn [app Path.normalize_go].
  - by rewrite rev_involutive.
  - destruct (String.eqb x "" || String.eqb x "."); [apply IH|].
    destruct (String.eqb x ".."); apply IH.
Qed.

Lemma strip_common_app base xs ys :
  Path.strip_common (base ++ xs) (base ++ ys) = Path.strip_common xs ys.
Proof.
  induction base as [|b base IH]; [done|]. cbn [app Path.strip_common].
  by rewrite String.eqb_refl.
Qed.

(** Both paths of [path.relative] are resolved in the same directory, which
    drops out of the answer. *)
Lemma relative_in_cwd cwd from to :
  Path.isAbsolute from = false -> Path.isAbsolute to = false ->
  exists base,
    Path.relative cwd from to =
    let '(f, t) := Path.strip_common
                     (Path.normalize_go (rev base) (Path.split from))
                     (Path.normalize_go (rev base) (Path.split to)) in
    JS.join "/" (map (fun _ => "..") f ++ t).
Proof.
  intros Hf Ht. exists (Path.normalize_go [] (Path.split cwd)).
  unfold Path.relative, Path.resolve. rewrite Hf, Ht, !split_slash, !normalize_go_app.
  reflexivity.
Qed.

Lemma normalize_go_kept acc segs :
  forallb kept segs = true -> Path.normalize_go acc segs = rev acc ++ segs.
Proof.
  revert acc. induction segs as [|x segs IH]; intros acc H; cbn [Path.normalize_go].
  - by rewrite app_nil_r.
  - cbn [forallb] in H. apply andb_true_iff in H as [Hx Hs]. unfold kept in Hx.
    apply negb_true_iff, orb_false_iff in Hx as [Hx Hx2]. rewrite Hx, Hx2.
    rewrite IH by done. cbn [rev]. by rewrite <- app_assoc.
Qed.

Lemma relative_plain cwd from to :
  Path.isAbsolute from = false -> Path.isAbsolute to = false ->
  forallb kept (Path.split from) = true -> forallb kept (Path.split to) = true ->
  Path.relative cwd from to =
  let '(f, t) := Path.strip_common (Path.split from) (Path.split to) in
  JS.join "/" (map (fun _ => "..") f ++ t).
Proof.
  intros Hf Ht Kf Kt. destruct (relative_in_cwd cwd from to Hf Ht) as [base ->].
  rewrite !normalize_go_kept, !rev_involutive, strip_common_app by done.
  reflexivity.
Qed.

Lemma indexOf_app_none c a b :
  JS.indexOf c a = None -> JS.indexOf c b = None -> JS.indexOf c (a +:+ b) = None.
Proof.
  intros Ha Hb. induction a as [|x a IH]; [done|].
  rewrite sapp_cons. cbn [JS.indexOf] in *. destruct (Ascii.eqb x c); [done|].
  destruct (JS.indexOf c a); [done|]. by rewrite IH.
Qed.

Lemma no_slash_not_absolute d : JS.indexOf "/" d = None -> Path.isAbsolute d = false.
Proof.
  destruct d as [|a d]; [done|]. unfold Path.isAbsolute. cbn [JS.indexOf String.prefix].
  destruct (ascii_dec "/" a) as [<-|Hne]; [done|]. by destruct d.
Qed.

Lemma split_no_slash s : JS.indexOf "/" s = None -> Path.split s = [s].
Proof. intros H. unfold Path.split. by rewrite split_go_no_slash. Qed.

Lemma relative_scenario cwd dist tail ext :
  JS.indexOf "/" dist = None -> kept dist = true -> dist <> "es" ->
  JS.indexOf "/" ext = None ->
  tail = "style" \/ tail = "button/style" ->
  Path.relative cwd dist ("es/" +:+ tail +:+ "/index." +:+ ext)
  = "../es/" +:+ tail +:+ "/index." +:+ ext.
Proof.
  intros Hdist Hkept Hne Hext Htail.
  assert (Hlast : Path.split ("index." +:+ ext) = ["index." +:+ ext])
    by (by apply split_no_slash, indexOf_app_none).
  assert (Hk : kept ("index." +:+ ext) = true) by reflexivity.
  assert (Hto : Path.split ("es/" +:+ tail +:+ "/index." +:+ ext)
                = "es" :: Path.split tail ++ ["index." +:+ ext]).
  { change ("es/" +:+ tail +:+ "/index." +:+ ext)
      with ("es" +:+ "/" +:+ tail +:+ "/" +:+ "index." +:+ ext).
    by rewrite !split_slash, Hlast. }
  assert (Hdiff : String.eqb dist "es" = false) by (by apply String.eqb_neq).
  rewrite relative_plain.
  - rewrite Hto, (split_no_slash dist Hdist). cbn [Path.strip_common]. rewrite Hdiff.
    by destruct Htail as [-> | ->].
  - by apply no_slash_not_absolute.
  - reflexivity.
  - rewrite (split_no_slash dist Hdist). cbn [forallb]. by rewrite Hkept.
  - rewrite Hto. cbn [forallb]. rewrite forallb_app. cbn [forallb]. rewrite Hk.
    by destruct Htail as [-> | ->].
Qed.

(** C3, as the code has it.  [distLess] drops the first directory of an
    entry before it puts the entry under the ESM directory, so for the
    entries [components/button/style/index.<ext>] and
    [components/style/index.<ext>], ESM directory [es] and a distributable
    directory next to it, the index imports [../es/style/index.<ext>] first
    and [../es/button/style/index.<ext>] second. *)
Theorem distLess_scenario :
  forall css e ext,
    output_es css = Some "es" ->
    JS.indexOf "/" (dist_path (output_dist css)) = None ->
    kept (dist_path (output_dist css)) = true ->
    dist_path (output_dist css) <> "es" ->
    JS.indexOf "/" ext = None ->
    distLess_texts css e
      ["components/button/style/index." +:+ ext; "components/style/index." +:+ ext]
    = [directive ("../es/style/index." +:+ ext);
       directive ("../es/button/style/index." +:+ ext)].
Proof.
  intros css e ext Hes Hdist Hkept Hne Hext.
  unfold distLess_texts. cbn [fold_left]. unfold distLess_step, is_style, esEntry.
  rewrite Hes.
  change (JS.startsWith
            (JS.toString (Some "es")
               +:+ JS.slice_from_indexOf "/" ("components/button/style/index." +:+ ext))
            (JS.toString (Some "es") +:+ "/style")) with false.
  change (JS.startsWith
            (JS.toString (Some "es")
               +:+ JS.slice_from_indexOf "/" ("components/style/index." +:+ ext))
            (JS.toString (Some "es") +:+ "/style")) with true.
  cbn [app]. unfold import_text, relativePath, esEntry. rewrite Hes.
  change (JS.toString (Some "es")
            +:+ JS.slice_from_indexOf "/" ("components/button/style/index." +:+ ext))
    with ("es/" +:+ "button/style" +:+ "/index." +:+ ext).
  change (JS.toString (Some "es")
            +:+ JS.slice_from_indexOf "/" ("components/style/index." +:+ ext))
    with ("es/" +:+ "style" +:+ "/index." +:+ ext).
  rewrite !relative_scenario by auto. reflexivity.
Qed.

Lemma distLess_scenario_less :
  distLess_texts Sample.css Sample.world
    ["components/button/style/index." +:+ "less"; "components/style/index." +:+ "less"]
  = [directive ("../es/style/index." +:+ "less");
     directive ("../es/button/style/index." +:+ "less")].
Proof.
  apply (distLess_scenario Sample.css Sample.world "less");
    [reflexivity|reflexivity|reflexivity|discriminate|reflexivity].
Defined.

(** The paths the scenario of C3 expects keep the first directory
    [components]; the index does not have them. *)
Lemma distLess_scenario_drops_first_directory :
  ~ (distLess_texts Sample.css Sample.world
       ["components/button/style/index.less"; "components/style/index.less"] !! 0
     = Some (directive "../es/components/style/index.less")
     /\ distLess_texts Sample.css Sample.world
          ["components/button/style/index.less"; "components/style/index.less"] !! 1
        = Some (directive "../es/components/button/style/index.less")).
Proof. vm_compute. intros [H _]. discriminate H. Qed.

(** ** The rewrite of asset paths *)

Lemma prefix_sapp (a b : string) : String.prefix a (a +:+ b) = true.
Proof.
  induction a as [|x a IH]; [by destruct b|].
  rewrite sapp_cons. cbn [String.prefix]. by destruct (ascii_dec x x).
Qed.

Lemma slice_sapp (a b : string) : JS.slice (String.length a) (a +:+ b) = b.
Proof. induction a as [|x a IH]; [by destruct b|]. by rewrite sapp_cons. Qed.

Lemma slice_slice (i j : nat) (s : string) : JS.slice i (JS.slice j s) = JS.slice (j + i) s.
Proof.
  revert s. induction j as [|j IH]; intros s; [done|].
  destruct s as [|c s]; cbn [JS.slice Nat.add]; [by destruct i|apply IH].
Qed.

Lemma length_sapp (a b : string) :
  String.length (a +:+ b) = String.length a + String.length b.
Proof. induction a as [|x a IH]; [done|]. rewrite sapp_cons. cbn [String.length]. by rewrite IH. Qed.

Lemma length_parents k : String.length (Rewrite.parents k) = 3 * k.
Proof.
  induction k as [|k IH]; [done|]. cbn [Rewrite.parents].
  rewrite length_sapp, IH. cbn [String.length]. lia.
Qed.

Lemma then_name_sapp name post :
  Rewrite.then_name name (name +:+ post) = Some (String.length name).
Proof. unfold Rewrite.then_name. by rewrite prefix_sapp. Qed.

Lemma more_turns_eq name s :
  Rewrite.more_turns name s =
  match Rewrite.match_at name s with
  | Some n => Some n
  | None => Rewrite.then_name name s
  end.
Proof.
  destruct s as [|a [|b [|c rest]]]; try reflexivity.
  cbn [Rewrite.more_turns Rewrite.match_at].
  destruct (Rewrite.turn a b c); [|done].
  by destruct (Rewrite.more_turns name rest).
Qed.

Lemma more_turns_ge name s m :
  Rewrite.more_turns name s = Some m -> String.length name <= m.
Proof.
  remember (String.length s) as len eqn:Hlen. revert s m Hlen.
  induction len as [len IH] using lt_wf_ind. intros s m Hlen.
  destruct s as [|a [|b [|c rest]]]; cbn [Rewrite.more_turns]; unfold Rewrite.then_name;
    try (case_match; intros; simplify_eq; lia).
  destruct (Rewrite.turn a b c).
  - destruct (Rewrite.more_turns name rest) as [n|] eqn:Hr.
    + intros [= <-]. apply (IH (String.length rest)) in Hr; [lia| |done].
      subst len. cbn [String.length]. lia.
    + case_match; intros; simplify_eq; lia.
  - case_match; intros; simplify_eq; lia.
Qed.

(** A run of parent-directory segments followed by the name is matched, at
    least as far as the name. *)
Lemma more_turns_parents name j post :
  exists m, Rewrite.more_turns name (Rewrite.parents j +:+ name +:+ post) = Some m
            /\ 3 * j + String.length name <= m
            /\ (Rewrite.match_at name (name +:+ post) = None ->
                m = 3 * j + String.length name).
Proof.
  induction j as [|j (m & Hm & Hge & Hex)].
  - cbn [Rewrite.parents]. rewrite sapp_nil_l, more_turns_eq.
    destruct (Rewrite.match_at name (name +:+ post)) as [n|] eqn:Hn.
    + exists n. split; [done|]. split; [|done].
      assert (H : Rewrite.more_turns name (name +:+ post) = Some n)
        by (by rewrite more_turns_eq, Hn).
      apply more_turns_ge in H. lia.
    + rewrite then_name_sapp. exists (String.length name). repeat split; lia.
  - exists (3 + m). cbn [Rewrite.parents]. rewrite sapp_assoc.
    change ("../" +:+ Rewrite.parents j +:+ name +:+ post)
      with (String "." (String "." (String "/" (Rewrite.parents j +:+ name +:+ post)))).
    cbn [Rewrite.more_turns].
    change (Rewrite.turn "." "." "/") with true. cbv iota. rewrite Hm.
    repeat split; [lia|]. intros H. specialize (Hex H). lia.
Qed.

Lemma match_at_parents name k post :
  1 <= k ->
  exists n, Rewrite.match_at name (Rewrite.parents k +:+ name +:+ post) = Some n
            /\ 3 * k + String.length name <= n
            /\ (Rewrite.match_at name (name +:+ post) = None ->
                n = 3 * k + String.length name).
Proof.
  intros Hk. destruct k as [|j]; [lia|].
  destruct (more_turns_parents name j post) as (m & Hm & Hge & Hex).
  exists (3 + m). cbn [Rewrite.parents]. rewrite sapp_assoc.
  change ("../" +:+ Rewrite.parents j +:+ name +:+ post)
    with (String "." (String "." (String "/" (Rewrite.parents j +:+ name +:+ post)))).
  cbn [Rewrite.match_at]. change (Rewrite.turn "." "." "/") with true. cbv iota.
  rewrite Hm. repeat split; [lia|]. intros H. specialize (Hex H). lia.
Qed.

Lemma replace_go_skip name to k s :
  Rewrite.replace_go name to k s = Rewrite.replace name to (JS.slice k s).
Proof.
  revert k. induction s as [|c s IH]; intros [|k]; try reflexivity.
  cbn [Rewrite.replace_go JS.slice]. apply IH.
Qed.

(** A match at the head of the text is replaced, and the search goes on
    behind it. *)
Lemma replace_match name to s n :
  Rewrite.match_at name s = Some n ->
  Rewrite.replace name to s = to +:+ Rewrite.replace name to (JS.slice n s).
Proof.
  intros H. destruct s as [|c s]; [done|].
  unfold Rewrite.replace at 1. cbn [Rewrite.replace_go]. rewrite H.
  rewrite replace_go_skip. f_equal.
  destruct n as [|n].
  - destruct s as [|b [|d rest]]; cbn [Rewrite.match_at] in H; try done.
    destruct (Rewrite.turn c b d); [|done].
    by destruct (Rewrite.more_turns name rest).
  - cbn [JS.slice]. by replace (S n - 1) with n by lia.
Qed.

(** Text in which no match starts is kept. *)
Lemma replace_keep name to pre rest :
  (forall i, i < String.length pre ->
     Rewrite.match_at name (JS.slice i (pre +:+ rest)) = None) ->
  Rewrite.replace name to (pre +:+ rest) = pre +:+ Rewrite.replace name to rest.
Proof.
  induction pre as [|c pre IH]; intros H; [done|].
  pose proof (H 0 ltac:(cbn [String.length]; lia)) as H0.
  cbn [JS.slice] in H0. rewrite sapp_cons in H0.
  rewrite !sapp_cons. unfold Rewrite.replace at 1. cbn [Rewrite.replace_go].
  rewrite H0. f_equal. apply IH. intros i Hi.
  apply (H (S i)). cbn [String.length]. lia.
Qed.

Lemma match_at_slash name s n :
  Rewrite.match_at name s = Some n -> JS.indexOf "/" s <> None.
Proof.
  destruct s as [|a [|b [|c rest]]]; cbn [Rewrite.match_at]; try done.
  unfold Rewrite.turn. destruct (Ascii.eqb c "/") eqn:Hc; [|by rewrite andb_false_r].
  intros _. cbn [JS.indexOf]. rewrite Hc.
  destruct (Ascii.eqb a "/"); [done|]. by destruct (Ascii.eqb b "/").
Qed.

Lemma indexOf_slice_none c i s :
  JS.indexOf c s = None -> JS.indexOf c (JS.slice i s) = None.
Proof.
  revert s. induction i as [|i IH]; intros s H; [done|].
  destruct s as [|a s]; [done|]. cbn [JS.slice]. apply IH.
  cbn [JS.indexOf] in H. destruct (Ascii.eqb a c); [done|].
  by destruct (JS.indexOf c s).
Qed.

Lemma replace_no_slash name to s :
  JS.indexOf "/" s = None -> Rewrite.replace name to s = s.
Proof.
  intros H. rewrite <- (sapp_nil_r s) at 1. rewrite replace_keep.
  - by rewrite sapp_nil_r.
  - intros i _. rewrite sapp_nil_r.
    destruct (Rewrite.match_at name (JS.slice i s)) eqn:Hm; [|done].
    apply match_at_slash in Hm. by apply (indexOf_slice_none _ i) in H.
Qed.

(** *** Every parent-directory reference falls inside a match *)

Lemma prefix_reaches_char name pre ch x :
  String.prefix name (pre +:+ String ch x) = true ->
  String.length pre < String.length name ->
  JS.indexOf ch name <> None.
Proof.
  revert name. induction pre as [|p pre IH]; intros [|a name]; cbn [String.length];
    try lia; rewrite ?sapp_nil_l, ?sapp_cons; cbn [String.prefix JS.indexOf].
  - destruct (ascii_dec a ch) as [->|]; [|done]. intros _ _. by rewrite Ascii.eqb_refl.
  - destruct (ascii_dec a p) as [->|]; [|done]. intros Hp Hl.
    destruct (Ascii.eqb p ch); [done|].
    destruct (JS.indexOf ch name) eqn:E; [done|]. exfalso.
    apply (IH name); [done|lia|done].
Qed.

Lemma plain_name_no_dot name :
  Rewrite.plain_name name = true -> JS.indexOf "." name = None.
Proof.
  induction name as [|a name IH]; [done|]. cbn [Rewrite.plain_name JS.indexOf].
  intros H. apply andb_true_iff in H as [Ha Hn]. rewrite (IH Hn).
  destruct (Ascii.eqb a ".") eqn:E; [|done].
  apply Ascii.eqb_eq in E as ->. discriminate Ha.
Qed.

Lemma then_name_short name pre post n :
  JS.indexOf "." name = None ->
  Rewrite.then_name name (pre +:+ "../" +:+ name +:+ post) = Some n ->
  String.length pre < n -> False.
Proof.
  intros Hdot. unfold Rewrite.then_name.
  destruct (String.prefix name _) eqn:Hp; [|done]. intros [= <-] Hl.
  by apply (prefix_reaches_char name pre "." _ Hp Hl).
Qed.

(** A match that reaches into a parent-directory reference runs to the
    end of the name behind it. *)
Lemma more_turns_cover name post :
  JS.indexOf "." name = None ->
  forall pre n,
    Rewrite.more_turns name (pre +:+ "../" +:+ name +:+ post) = Some n ->
    String.length pre < n ->
    String.length pre + 3 + String.length name <= n.
Proof.
  intros Hdot pre. remember (String.length pre) as len eqn:Hlen. revert pre Hlen.
  induction len as [len IH] using lt_wf_ind. intros pre -> n.
  destruct pre as [|p1 [|p2 [|p3 pre]]].
  - rewrite sapp_nil_l.
    change ("../" +:+ name +:+ post)
      with (String "." (String "." (String "/" (name +:+ post)))).
    cbn [Rewrite.more_turns]. change (Rewrite.turn "." "." "/") with true. cbv iota.
    destruct (Rewrite.more_turns name (name +:+ post)) as [n'|] eqn:Hm.
    + intros [= <-] _. apply more_turns_ge in Hm. cbn [String.length]. lia.
    + intros H Hl. exfalso.
      apply (then_name_short name EmptyString post n Hdot); [exact H|exact Hl].
  - change (String p1 "" +:+ "../" +:+ name +:+ post)
      with (String p1 (String "." (String "." (String "/" (name +:+ post))))).
    cbn [Rewrite.more_turns]. unfold Rewrite.turn at 1.
    change (Ascii.eqb "." "/") with false. rewrite andb_false_r.
    intros H Hl. exfalso.
    apply (then_name_short name (String p1 "") post n Hdot); [exact H|exact Hl].
  - change (String p1 (String p2 "") +:+ "../" +:+ name +:+ post)
      with (String p1 (String p2 (String "." (String "." (String "/" (name +:+ post)))))).
    cbn [Rewrite.more_turns]. unfold Rewrite.turn at 1.
    change (Ascii.eqb "." "/") with false. rewrite andb_false_r.
    intros H Hl. exfalso.
    apply (then_name_short name (String p1 (String p2 "")) post n Hdot); [exact H|exact Hl].
  - change (String p1 (String p2 (String p3 pre)) +:+ "../" +:+ name +:+ post)
      with (String p1 (String p2 (String p3 (pre +:+ "../" +:+ name +:+ post)))).
    cbn [Rewrite.more_turns].
    assert (Hshort : forall m,
               Rewrite.then_name name
                 (String p1 (String p2 (String p3 (pre +:+ "../" +:+ name +:+ post)))) = Some m ->
               String.length (String p1 (String p2 (String p3 pre))) < m -> False).
    { intros m H Hl.
      apply (then_name_short name (String p1 (String p2 (String p3 pre))) post m Hdot);
        [exact H|exact Hl]. }
    destruct (Rewrite.turn p1 p2 p3).
    + destruct (Rewrite.more_turns name (pre +:+ "../" +:+ name +:+ post)) as [n'|] eqn:Hm.
      * intros [= <-] Hl. cbn [String.length] in *.
        assert (String.length pre + 3 + String.length name <= n'); [|lia].
        apply (IH (String.length pre)) with (pre := pre); [lia|done|done|lia].
      * intros H Hl. exfalso. eapply Hshort; eauto.
    + intros H Hl. exfalso. eapply Hshort; eauto.
Qed.

Lemma match_at_cover name post pre n :
  JS.indexOf "." name = None ->
  Rewrite.match_at name (pre +:+ "../" +:+ name +:+ post) = Some n ->
  String.length pre < n ->
  String.length pre + 3 + String.length name <= n.
Proof.
  intros Hdot. destruct pre as [|p1 [|p2 [|p3 pre]]].
  - rewrite sapp_nil_l.
    change ("../" +:+ name +:+ post)
      with (String "." (String "." (String "/" (name +:+ post)))).
    cbn [Rewrite.match_at]. change (Rewrite.turn "." "." "/") with true. cbv iota.
    destruct (Rewrite.more_turns name (name +:+ post)) as [n'|] eqn:Hm; [|done].
    intros [= <-] _. apply more_turns_ge in Hm. cbn [String.length]. lia.
  - change (String p1 "" +:+ "../" +:+ name +:+ post)
      with (String p1 (String "." (String "." (String "/" (name +:+ post))))).
    cbn [Rewrite.match_at]. unfold Rewrite.turn.
    change (Ascii.eqb "." "/") with false. by rewrite andb_false_r.
  - change (String p1 (String p2 "") +:+ "../" +:+ name +:+ post)
      with (String p1 (String p2 (String "." (String "." (String "/" (name +:+ post)))))).
    cbn [Rewrite.match_at]. unfold Rewrite.turn.
    change (Ascii.eqb "." "/") with false. by rewrite andb_false_r.
  - change (String p1 (String p2 (String p3 pre)) +:+ "../" +:+ name +:+ post)
      with (String p1 (String p2 (String p3 (pre +:+ "../" +:+ name +:+ post)))).
    cbn [Rewrite.match_at].
    destruct (Rewrite.turn p1 p2 p3); [|done].
    destruct (Rewrite.more_turns name (pre +:+ "../" +:+ name +:+ post)) as [n'|] eqn:Hm;
      [|done].
    intros [= <-] Hl. cbn [String.length] in *.
    assert (String.length pre + 3 + String.length name <= n'); [|lia].
    apply (more_turns_cover name post Hdot pre n' Hm). lia.
Qed.

Lemma substring_slice n s :
  n <= String.length s -> String.substring 0 n s +:+ JS.slice n s = s.
Proof.
  revert s. induction n as [|n IH]; intros [|c s]; cbn [String.length]; try lia; intros H.
  - reflexivity.
  - reflexivity.
  - cbn [String.substring JS.slice]. rewrite sapp_cons, IH; [done|lia].
Qed.

Lemma length_substring n s :
  n <= String.length s -> String.length (String.substring 0 n s) = n.
Proof.
  revert s. induction n as [|n IH]; intros [|c s]; cbn [String.length]; try lia; intros H.
  - reflexivity.
  - reflexivity.
  - cbn [String.substring String.length]. rewrite IH; [done|lia].
Qed.

Lemma slice_sapp_le n a b :
  n <= String.length a -> JS.slice n (a +:+ b) = JS.slice n a +:+ b.
Proof.
  revert a. induction n as [|n IH]; intros [|c a]; cbn [String.length]; try lia; intros H.
  - reflexivity.
  - reflexivity.
  - rewrite sapp_cons. cbn [JS.slice]. apply IH. lia.
Qed.

Lemma length_slice n s : String.length (JS.slice n s) = String.length s - n.
Proof.
  revert s. induction n as [|n IH]; intros [|c s]; cbn [JS.slice String.length]; try lia.
  apply IH.
Qed.

Lemma prefix_length a s : String.prefix a s = true -> String.length a <= String.length s.
Proof.
  revert s. induction a as [|x a IH]; intros [|y s]; cbn [String.prefix String.length];
    try done; try lia.
  destruct (ascii_dec x y); [|done]. intros H. apply IH in H. lia.
Qed.

Lemma more_turns_le name s n :
  Rewrite.more_turns name s = Some n -> n <= String.length s.
Proof.
  remember (String.length s) as len eqn:Hlen. revert s n Hlen.
  induction len as [len IH] using lt_wf_ind. intros s n ->.
  assert (Hthen : forall m, Rewrite.then_name name s = Some m -> m <= String.length s).
  { intros m. unfold Rewrite.then_name. destruct (String.prefix name s) eqn:Hp; [|done].
    intros [= <-]. by apply prefix_length. }
  destruct s as [|a [|b [|c rest]]]; cbn [Rewrite.more_turns]; try apply Hthen.
  destruct (Rewrite.turn a b c); [|apply Hthen].
  destruct (Rewrite.more_turns name rest) as [n'|] eqn:Hr; [|apply Hthen].
  intros [= <-]. cbn [String.length].
  assert (n' <= String.length rest); [|lia].
  apply (IH (String.length rest)) with (s := rest); [cbn [String.length]; lia|done|done].
Qed.

Lemma match_at_bounds name s n :
  Rewrite.match_at name s = Some n -> 3 <= n <= String.length s.
Proof.
  destruct s as [|a [|b [|c rest]]]; cbn [Rewrite.match_at]; try done.
  destruct (Rewrite.turn a b c); [|done].
  destruct (Rewrite.more_turns name rest) as [n'|] eqn:Hr; [|done].
  intros [= <-]. apply more_turns_le in Hr. cbn [String.length]. lia.
Qed.

Lemma replace_no_match name to c s :
  Rewrite.match_at name (String c s) = None ->
  Rewrite.replace name to (String c s) = String c (Rewrite.replace name to s).
Proof. intros H. unfold Rewrite.replace. cbn [Rewrite.replace_go]. by rewrite H. Qed.

(** Wherever a parent-directory segment followed by the name stands, the
    search takes it: the text splits into a part [u] in front, a match [m]
    that holds the segment and the name, and the rest [w], and the match is
    replaced. *)
Lemma parent_reference_inside_a_match name to post :
  JS.indexOf "." name = None ->
  forall pre,
  exists u m w out,
    pre +:+ "../" +:+ name +:+ post = u +:+ m +:+ w
    /\ String.length u <= String.length pre
    /\ String.length pre + 3 + String.length name <= String.length u + String.length m
    /\ Rewrite.match_at name (m +:+ w) = Some (String.length m)
    /\ Rewrite.replace name to (pre +:+ "../" +:+ name +:+ post)
       = out +:+ to +:+ Rewrite.replace name to w.
Proof.
  intros Hdot pre. remember (String.length pre) as len eqn:Hlen. revert pre Hlen.
  induction len as [len IH] using lt_wf_ind. intros pre ->.
  set (s := pre +:+ "../" +:+ name +:+ post).
  destruct (Rewrite.match_at name s) as [n|] eqn:Hm.
  - destruct (match_at_bounds _ _ _ Hm) as [H3 Hle].
    destruct (decide (String.length pre < n)) as [Hlt|Hge].
    + pose proof (match_at_cover name post pre n Hdot Hm Hlt) as Hcov.
      exists EmptyString, (String.substring 0 n s), (JS.slice n s), EmptyString.
      rewrite !sapp_nil_l, substring_slice, length_substring by done.
      split; [done|]. split; [cbn [String.length]; lia|]. split; [cbn [String.length]; lia|].
      split; [done|]. by apply replace_match.
    + assert (Hs' : JS.slice n s = JS.slice n pre +:+ "../" +:+ name +:+ post).
      { unfold s. apply slice_sapp_le. lia. }
      destruct (IH (String.length (JS.slice n pre))) with (pre := JS.slice n pre)
        as (u & m & w & out & Heq & Hu & Hcov & Hmatch & Hrep);
        [rewrite length_slice; lia|done|].
      rewrite length_slice in Hu, Hcov.
      exists (String.substring 0 n s +:+ u), m, w, (to +:+ out).
      split; [|split; [|split; [|split]]].
      * rewrite sapp_assoc, <- Heq, <- Hs'. by rewrite substring_slice.
      * rewrite length_sapp, length_substring by done. lia.
      * rewrite length_sapp, length_substring by done. lia.
      * done.
      * rewrite (replace_match _ _ _ _ Hm), Hs', Hrep. by rewrite !sapp_assoc.
  - destruct pre as [|c pre].
    + exfalso. unfold s in Hm. rewrite sapp_nil_l in Hm.
      destruct (match_at_parents name 1 post) as (n & Hn & _); [lia|].
      change (Rewrite.parents 1 +:+ name +:+ post) with ("../" +:+ name +:+ post) in Hn.
      congruence.
    + destruct (IH (String.length pre)) with (pre := pre)
        as (u & m & w & out & Heq & Hu & Hcov & Hmatch & Hrep);
        [cbn [String.length]; lia|done|].
      exists (String c u), m, w, (String c out).
      unfold s in *. rewrite !sapp_cons in *. cbn [String.length].
      split; [by rewrite Heq|]. split; [lia|]. split; [lia|]. split; [done|].
      rewrite (replace_no_match _ _ _ _ Hm). by rewrite Hrep.
Qed.

Lemma rewritten_plain css asset e s :
  Rewrite.plain_name (JS.toString (output_es css)) = true ->
  Rewrite.no_dollar (rewrite_to css asset e) = true ->
  rewritten css asset e s
  = Rewrite.replace (JS.toString (output_es css)) (rewrite_to css asset e) s.
Proof. intros Hp Hd. unfold rewritten. cbv zeta. by rewrite Hp, Hd. Qed.

(** X26.  The search of [distCss], for a name of the ESM directory without
    pattern characters and a replacement without dollar sign.  Every
    parent-directory segment followed by the name falls inside a match, and
    the match is replaced by the path from the distributable directory to
    the asset directory.  Where the search reaches one or more such
    segments followed by the name, the match starts there, and it ends with
    that name unless the pattern can go on matching behind it: then exactly
    this prefix is replaced.  Text without a slash is kept as it is. *)
Theorem distCss_rewrites_parent_prefix :
  forall css asset e pre k post,
    Rewrite.plain_name (JS.toString (output_es css)) = true ->
    Rewrite.no_dollar (rewrite_to css asset e) = true ->
    1 <= k ->
    (forall i, i < String.length pre ->
       Rewrite.match_at (JS.toString (output_es css))
         (JS.slice i (pre +:+ Rewrite.parents k +:+ JS.toString (output_es css) +:+ post))
       = None) ->
    (exists n,
        3 * k + String.length (JS.toString (output_es css)) <= n
        /\ rewritten css asset e
             (pre +:+ Rewrite.parents k +:+ JS.toString (output_es css) +:+ post)
           = pre +:+ rewrite_to css asset e
                 +:+ rewritten css asset e
                       (JS.slice n (Rewrite.parents k +:+ JS.toString (output_es css) +:+ post)))
    /\ (Rewrite.match_at (JS.toString (output_es css))
          (JS.toString (output_es css) +:+ post) = None ->
        rewritten css asset e
          (pre +:+ Rewrite.parents k +:+ JS.toString (output_es css) +:+ post)
        = pre +:+ rewrite_to css asset e +:+ rewritten css asset e post)
    /\ (forall before behind,
          exists u m w out,
            before +:+ "../" +:+ JS.toString (output_es css) +:+ behind = u +:+ m +:+ w
            /\ String.length u <= String.length before
            /\ String.length before + 3 + String.length (JS.toString (output_es css))
               <= String.length u + String.length m
            /\ Rewrite.match_at (JS.toString (output_es css)) (m +:+ w)
               = Some (String.length m)
            /\ rewritten css asset e
                 (before +:+ "../" +:+ JS.toString (output_es css) +:+ behind)
               = out +:+ rewrite_to css asset e +:+ rewritten css asset e w)
    /\ (forall s, JS.indexOf "/" s = None -> rewritten css asset e s = s).
Proof.
  intros css asset e pre k post Hplain Hdollar Hk Hpre.
  pose proof (fun s => rewritten_plain css asset e s Hplain Hdollar) as Hrewritten.
  set (name := JS.toString (output_es css)) in *.
  destruct (match_at_parents name k post Hk) as (n & Hn & Hge & Hex).
  assert (Hrw : rewritten css asset e (pre +:+ Rewrite.parents k +:+ name +:+ post)
                = pre +:+ rewrite_to css asset e
                      +:+ rewritten css asset e
                            (JS.slice n (Rewrite.parents k +:+ name +:+ post))).
  { rewrite !Hrewritten. rewrite replace_keep by exact Hpre.
    by rewrite (replace_match _ _ _ n Hn). }
  split; [by exists n|]. split; [|split].
  - intros Hnone. rewrite Hrw, (Hex Hnone). do 2 f_equal.
    rewrite <- length_parents, <- length_sapp, <- sapp_assoc. by rewrite slice_sapp.
  - intros before behind.
    destruct (parent_reference_inside_a_match name (rewrite_to css asset e) behind
                (plain_name_no_dot _ Hplain) before)
      as (u & m & w & out & H1 & H2 & H3 & H4 & H5).
    exists u, m, w, out. rewrite !Hrewritten. done.
  - intros s Hs. rewrite Hrewritten. by apply replace_no_slash.
Qed.

Lemma distCss_rewrites_parent_prefix_sample :
  (exists n,
      3 * 1 + String.length "es" <= n
      /\ rewritten Sample.css Sample.asset Sample.world
           (".a{background:url(" +:+ Rewrite.parents 1 +:+ "es" +:+ "/button/x.png)}")
         = ".a{background:url(" +:+ "../asset"
             +:+ rewritten Sample.css Sample.asset Sample.world
                   (JS.slice n (Rewrite.parents 1 +:+ "es" +:+ "/button/x.png)}")))
  /\ (Rewrite.match_at "es" ("es" +:+ "/button/x.png)}") = None ->
      rewritten Sample.css Sample.asset Sample.world
        (".a{background:url(" +:+ Rewrite.parents 1 +:+ "es" +:+ "/button/x.png)}")
      = ".a{background:url(" +:+ "../asset"
          +:+ rewritten Sample.css Sample.asset Sample.world "/button/x.png)}")
  /\ (forall before behind,
        exists u m w out,
          before +:+ "../" +:+ "es" +:+ behind = u +:+ m +:+ w
          /\ String.length u <= String.length before
          /\ String.length before + 3 + String.length "es"
             <= String.length u + String.length m
          /\ Rewrite.match_at "es" (m +:+ w) = Some (String.length m)
          /\ rewritten Sample.css Sample.asset Sample.world
               (before +:+ "../" +:+ "es" +:+ behind)
             = out +:+ "../asset" +:+ rewritten Sample.css Sample.asset Sample.world w)
  /\ (forall s, JS.indexOf "/" s = None ->
        rewritten Sample.css Sample.asset Sample.world s = s).
Proof.
  apply (distCss_rewrites_parent_prefix Sample.css Sample.asset Sample.world
           ".a{background:url(" 1 "/button/x.png)}").
  - reflexivity.
  - reflexivity.
  - lia.
  - intros i Hi. do 18 (destruct i as [|i]; [reflexivity|]).
    vm_compute in Hi. lia.
Defined.

Example distCss_rewrites_sample :
  fs_after (distCss Sample.css Sample.asset Sample.world true Sample.disk_parent_reference)
    !! "dist/arco.css"
  = Some ".a{background:url(../asset/button/x.png)}".
Proof. vm_compute. reflexivity. Qed.

(** C4.  The pattern is built in a template literal, where [\.] is the
    plain [.], which in a pattern stands for any character: its group takes
    any two characters before a slash, not two dots.  A style sheet that
    names an image in a directory [es] of its own, [locale/es/flag.png],
    holds no parent-directory segment at all, and [distCss] rewrites it all
    the same, from two characters before the slash on; and where the ESM
    directory is reached from a directory of the style sheet's own,
    [img/../es/...], the match begins inside that directory's name and
    takes it along.  Replacing the prefixes of parent-directory segments
    and the name, as the claim has it, leaves the first sheet as it is and
    keeps [img/] in the second. *)
Theorem distCss_rewrites_what_is_no_parent_prefix :
  rewritten Sample.css Sample.asset Sample.world ".flag{background:url(locale/es/flag.png)}"
  = ".flag{background:url(loca../asset/flag.png)}"
  /\ spec_rewritten "es" "../asset" ".flag{background:url(locale/es/flag.png)}"
     = ".flag{background:url(locale/es/flag.png)}"
  /\ distCss Sample.css Sample.asset Sample.world true Sample.disk_locale_reference
     = Result (notify_end Sample.world
               ++ [Write "dist/arco.css" ".flag{background:url(loca../asset/flag.png)}"])
              (<["dist/arco.css" := ".flag{background:url(loca../asset/flag.png)}"]>
                 Sample.disk_locale_reference)
              Done
  /\ rewritten Sample.css Sample.asset Sample.world
       ".a{background:url(img/../es/button/x.png)}"
     = ".a{background:url(i../asset/button/x.png)}"
  /\ spec_rewritten "es" "../asset" ".a{background:url(img/../es/button/x.png)}"
     = ".a{background:url(img/../asset/button/x.png)}"
  /\ spec_rewritten "es" "../asset" ".a{background:url(../../es/button/x.png)}"
     = rewritten Sample.css Sample.asset Sample.world
         ".a{background:url(../../es/button/x.png)}".
Proof. repeat split; vm_compute; reflexivity. Qed.

(** ** The index and the artifact when nothing matches *)

Lemma distLess_entries_nil css e :
  Forall (fun pattern => glob_sync e pattern = []) (entry css) ->
  distLess_entries css e = [].
Proof.
  unfold distLess_entries. generalize (entry css). intros pats H.
  assert (G : forall acc, fold_left (fun entries pat => entries ++ glob_sync e pat) pats acc = acc).
  { induction H as [|p pats Hp _ IH]; intros acc; [done|].
    cbn [fold_left]. by rewrite Hp, app_nil_r. }
  apply G.
Qed.

(** C6.  When the entry globs match no file, [distLess] calls its callback
    without writing anything; and [distCss], run on a disk without the
    index file, ends normally, writes nothing and reports no error (in dev
    mode it prints its usual closing line). *)
Theorem empty_match_is_not_an_error :
  forall css asset e fs isDev,
    Forall (fun pattern => glob_sync e pattern = []) (entry css) ->
    fs !! index_path css = None ->
    distLess css e fs = Result [] fs Done
    /\ fs_after (distLess css e fs) !! index_path css = None
    /\ signal (distCss css asset e isDev (fs_after (distLess css e fs))) = Done
    /\ fs_after (distCss css asset e isDev (fs_after (distLess css e fs))) = fs
    /\ events (distCss css asset e isDev (fs_after (distLess css e fs)))
       = (if isDev then notify_end e else []).
Proof.
  intros css asset e fs isDev Hglob Hidx.
  assert (Hd : distLess css e fs = Result [] fs Done).
  { unfold distLess. by rewrite (distLess_entries_nil css e Hglob). }
  rewrite Hd. cbn [fs_after]. unfold distCss. rewrite Hidx. by destruct isDev.
Qed.

Lemma empty_match_is_not_an_error_sample :
  distLess Sample.css Sample.world_empty ∅ = Result [] ∅ Done
  /\ fs_after (distLess Sample.css Sample.world_empty ∅) !! index_path Sample.css = None
  /\ signal (distCss Sample.css Sample.asset Sample.world_empty false
               (fs_after (distLess Sample.css Sample.world_empty ∅))) = Done
  /\ fs_after (distCss Sample.css Sample.asset Sample.world_empty false
                 (fs_after (distLess Sample.css Sample.world_empty ∅))) = ∅
  /\ events (distCss Sample.css Sample.asset Sample.world_empty false
               (fs_after (distLess Sample.css Sample.world_empty ∅)))
     = (if false then notify_end Sample.world_empty else []).
Proof.
  apply (empty_match_is_not_an_error Sample.css Sample.asset Sample.world_empty ∅ false).
  - repeat constructor.
  - reflexivity.
Defined.

(** ** Minification *)

Lemma needCleanCss_iff e isDev :
  needCleanCss e isDev = true <->
    isDev = false /\
    (BUILD_ENV_MODE e = None \/ BUILD_ENV_MODE e = Some EmptyString
     \/ BUILD_ENV_MODE e = Some "production").
Proof.
  unfold needCleanCss. split.
  - intros H. destruct isDev; [done|]. split; [done|]. cbn [negb andb] in H.
    destruct (BUILD_ENV_MODE e) as [[|a m]|]; auto.
    cbn [JS.truthy negb orb] in H. apply String.eqb_eq in H. right. right. by rewrite H.
  - intros [-> [H | [H | H]]]; rewrite H; reflexivity.
Qed.

(** What [distCss] does once the index is there and compiles. *)
Lemma distCss_compiled css asset e isDev fs raw compiled :
  fs !! index_path css = Some raw ->
  compiler css fs (Vinyl (rawFileName (output_dist css)) raw) = inr compiled ->
  distCss css asset e isDev fs
  = match artifact css asset e isDev (v_contents compiled) with
    | inl er => Result (if isDev then notify_end e else []) fs (Failed er)
    | inr out =>
        match write_error e (artifact_path css) with
        | Some er =>
            Result ((if isDev then notify_end e else [])
                    ++ report "Failed to build css, error in dist all css" er)
                   fs (Failed er)
        | None =>
            Result ((if isDev then notify_end e else []) ++ [Write (artifact_path css) out])
                   (<[artifact_path css := out]> fs) Done
        end
    end.
Proof. intros Hraw Hc. unfold distCss. by rewrite Hraw, Hc. Qed.

(** C7.  [distCss] runs [cleanCSS] on the artifact exactly when it is not
    in dev mode and [BUILD_ENV_MODE] is unset (undefined, or the empty
    string, which JavaScript also takes for false) or is [production]:
    never in dev mode, and always outside dev mode when [BUILD_ENV_MODE] is
    not set.  With the index on disk, compiled without an error, and a disk
    that takes the artifact: when the test fails, the one file [distCss]
    writes is the artifact holding the rewritten text as it is, and the
    minifier is not asked; when the test holds, the artifact holds what the
    minifier made of the rewritten text, and when the minifier raises an
    error instead, the task fails with it and nothing is written. *)
Theorem distCss_minifies_outside_dev :
  forall css asset e isDev fs raw compiled,
    fs !! index_path css = Some raw ->
    compiler css fs (Vinyl (rawFileName (output_dist css)) raw) = inr compiled ->
    write_error e (artifact_path css) = None ->
    (needCleanCss e isDev = true <->
       isDev = false /\
       (BUILD_ENV_MODE e = None \/ BUILD_ENV_MODE e = Some EmptyString
        \/ BUILD_ENV_MODE e = Some "production"))
    /\ needCleanCss e true = false
    /\ (BUILD_ENV_MODE e = None -> needCleanCss e false = true)
    /\ (needCleanCss e isDev = false ->
        distCss css asset e isDev fs
        = Result ((if isDev then notify_end e else [])
                  ++ [Write (artifact_path css) (rewritten css asset e (v_contents compiled))])
                 (<[artifact_path css := rewritten css asset e (v_contents compiled)]> fs)
                 Done)
    /\ (needCleanCss e isDev = true ->
        forall min,
          cleanCSS e (rewritten css asset e (v_contents compiled)) = inr min ->
          distCss css asset e isDev fs
          = Result [Write (artifact_path css) min] (<[artifact_path css := min]> fs) Done)
    /\ (needCleanCss e isDev = true ->
        forall er,
          cleanCSS e (rewritten css asset e (v_contents compiled)) = inl er ->
          distCss css asset e isDev fs = Result [] fs (Failed er)).
Proof.
  intros css asset e isDev fs raw compiled Hraw Hc Hw.
  split; [apply needCleanCss_iff|]. split; [reflexivity|].
  split; [intros H; unfold needCleanCss; by rewrite H|].
  rewrite (distCss_compiled css asset e isDev fs raw compiled Hraw Hc), Hw.
  unfold artifact. split; [|split].
  - intros ->. reflexivity.
  - intros Hneed min Hmin. rewrite Hneed, Hmin.
    apply needCleanCss_iff in Hneed as [-> _]. reflexivity.
  - intros Hneed er Her. rewrite Hneed, Her.
    apply needCleanCss_iff in Hneed as [-> _]. reflexivity.
Qed.

Lemma distCss_minifies_outside_dev_sample :
  needCleanCss Sample.world false = true
  /\ distCss Sample.css Sample.asset Sample.world false Sample.disk_parent_reference
     = Result [Write "dist/arco.css" "min(.a{background:url(../asset/button/x.png)})"]
              (<["dist/arco.css" := "min(.a{background:url(../asset/button/x.png)})"]>
                 Sample.disk_parent_reference)
              Done
  /\ distCss Sample.css Sample.asset Sample.world true Sample.disk_parent_reference
     = Result (notify_end Sample.world
               ++ [Write "dist/arco.css" ".a{background:url(../asset/button/x.png)}"])
              (<["dist/arco.css" := ".a{background:url(../asset/button/x.png)}"]>
                 Sample.disk_parent_reference)
              Done.
Proof.
  destruct (distCss_minifies_outside_dev Sample.css Sample.asset Sample.world false
              Sample.disk_parent_reference ".a{background:url(../es/button/x.png)}"
              (Vinyl "index.less" ".a{background:url(../es/button/x.png)}")
              eq_refl eq_refl eq_refl) as (_ & _ & Hneed & _ & Hmin & _).
  destruct (distCss_minifies_outside_dev Sample.css Sample.asset Sample.world true
              Sample.disk_parent_reference ".a{background:url(../es/button/x.png)}"
              (Vinyl "index.less" ".a{background:url(../es/button/x.png)}")
              eq_refl eq_refl eq_refl) as (_ & _ & _ & Hdev & _).
  split; [exact (Hneed eq_refl)|]. split.
  - exact (Hmin (Hneed eq_refl) _ eq_refl).
  - exact (Hdev eq_refl).
Defined.

(** A minifier that raises an error: outside dev mode the artifact step
    fails with it and the disk stays as it was; in dev mode the minifier is
    not in the chain and the artifact is written. *)
Example distCss_sample_minifier_error :
  distCss Sample.css Sample.asset Sample.world_minifier_error false
          Sample.disk_parent_reference
  = Result [] Sample.disk_parent_reference (Failed "CssSyntaxError")
  /\ signal (distCss Sample.css Sample.asset Sample.world_minifier_error true
                      Sample.disk_parent_reference) = Done.
Proof. split; vm_compute; reflexivity. Qed.

(** A reference that goes down into a directory and up again: the search
    takes the two characters before the slash for a parent segment. *)
Example distCss_sample_nested_reference :
  (fs_after (distCss Sample.css Sample.asset Sample.world true
                     Sample.disk_nested_reference)) !! "dist/arco.css"
  = Some ".a{background:url(i../asset/button/x.png)}".
Proof. vm_compute. reflexivity. Qed.

(** ** Streams: what is written where *)

Lemma dest_eq e d fs v :
  dest e d fs v
  = match write_error e (dest_path d (v_relative v)) with
    | Some er => inl er
    | None => inr ([Write (dest_path d (v_relative v)) (v_contents v)],
                   <[dest_path d (v_relative v) := v_contents v]> fs, v)
    end.
Proof. reflexivity. Qed.

(** [gulp.dest(dir)] over the files it is handed: it writes the files up to
    the first the disk refuses, and hands these on. *)
Lemma feed_dest e d files fs :
  feed (dest e d) files fs
  = (writes_into d (accepted e d files), stored d (accepted e d files) fs,
     accepted e d files, refused e d files).
Proof.
  revert fs. induction files as [|v files IH]; intros fs; [reflexivity|].
  cbn [feed accepted refused]. rewrite dest_eq.
  destruct (write_error e (dest_path d (v_relative v))) as [er|]; [reflexivity|].
  rewrite IH. reflexivity.
Qed.

Lemma feed_through tr files fs :
  feed (through tr) files fs = ([], fs, passed (tr fs) files, stopped (tr fs) files).
Proof.
  induction files as [|v files IH]; [reflexivity|].
  cbn [feed passed stopped]. unfold through at 1.
  destruct (tr fs v) as [er|v']; [reflexivity|]. rewrite IH. reflexivity.
Qed.

Lemma refused_none e d files :
  refused e d files = None <->
  Forall (fun v => write_error e (dest_path d (v_relative v)) = None) files.
Proof.
  induction files as [|v files IH]; cbn [refused]; [split; [constructor|done]|].
  destruct (write_error e (dest_path d (v_relative v))) as [er|] eqn:Hw.
  - split; [done|]. intros H. inversion H; subst. congruence.
  - rewrite IH. split; [by constructor|]. intros H. by inversion H.
Qed.

Lemma accepted_all e d files : refused e d files = None -> accepted e d files = files.
Proof.
  induction files as [|v files IH]; cbn [refused accepted]; [done|].
  destruct (write_error e (dest_path d (v_relative v))); [done|].
  intros H. by rewrite IH.
Qed.

Lemma accepted_refused e d files : accepted e d files = files -> refused e d files = None.
Proof.
  induction files as [|v files IH]; cbn [refused accepted]; [done|].
  destruct (write_error e (dest_path d (v_relative v))); [done|].
  intros [= H]. by apply IH.
Qed.

(** What a directory takes is the leading part of what it is handed. *)
Lemma accepted_prefix e d files : exists rest, files = accepted e d files ++ rest.
Proof.
  induction files as [|v files [rest IH]]; [by exists []|]. cbn [accepted].
  destruct (write_error e (dest_path d (v_relative v))); [by exists (v :: files)|].
  exists rest. cbn [app]. by rewrite <- IH.
Qed.

Lemma accepted_in e d files v : In v (accepted e d files) -> In v files.
Proof.
  destruct (accepted_prefix e d files) as [rest H]. intros Hin.
  rewrite H. apply in_or_app. by left.
Qed.

Lemma accepted_written e d files v :
  In v (accepted e d files) -> write_error e (dest_path d (v_relative v)) = None.
Proof.
  induction files as [|x files IH]; cbn [accepted]; [intros []|].
  destruct (write_error e (dest_path d (v_relative x))) eqn:Hw; [intros []|].
  intros [<-|H]; [done|by apply IH].
Qed.

Lemma refused_error e d files er :
  refused e d files = Some er ->
  exists v rest,
    files = accepted e d files ++ v :: rest
    /\ write_error e (dest_path d (v_relative v)) = Some er.
Proof.
  induction files as [|x files IH]; cbn [refused accepted]; [done|].
  destruct (write_error e (dest_path d (v_relative x))) as [er'|] eqn:Hw.
  - intros [= ->]. by exists x, files.
  - intros H. destruct (IH H) as (v & rest & Heq & Hv).
    exists v, rest. cbn [app]. by rewrite <- Heq.
Qed.

Lemma passed_all tr files :
  stopped tr files = None ->
  Forall2 (fun src out => tr src = inr out) files (passed tr files).
Proof.
  induction files as [|v files IH]; cbn [stopped passed]; [constructor|].
  destruct (tr v) as [er|v'] eqn:Hv; [done|]. intros H. constructor; [done|by apply IH].
Qed.

Lemma passed_in tr files out :
  In out (passed tr files) -> exists src, In src files /\ tr src = inr out.
Proof.
  induction files as [|v files IH]; cbn [passed]; [intros []|].
  destruct (tr v) as [er|v'] eqn:Hv; [intros []|].
  intros [<-|H]; [exists v; split; [by left|done]|].
  destruct (IH H) as (src & Hin & Hsrc). exists src. split; [by right|done].
Qed.

Lemma stopped_none tr files :
  stopped tr files = None <-> Forall (fun src => exists out, tr src = inr out) files.
Proof.
  induction files as [|v files IH]; cbn [stopped]; [split; [constructor|done]|].
  destruct (tr v) as [er|v'] eqn:Hv.
  - split; [done|]. intros H. inversion H as [|? ? [out Hout] ?]; subst. congruence.
  - rewrite IH. split; [intros H; constructor; [by exists v'|done]|].
    intros H. by inversion H.
Qed.

Lemma in_writes_into d files p c :
  In (Write p c) (writes_into d files) <->
  exists v, In v files /\ p = dest_path d (v_relative v) /\ c = v_contents v.
Proof.
  unfold writes_into. rewrite in_map_iff. split.
  - intros (v & [= <- <-] & Hin). by exists v.
  - intros (v & Hin & -> & ->). by exists v.
Qed.

Lemma lookup_stored_other d files fs p :
  (forall v, In v files -> p <> dest_path d (v_relative v)) ->
  stored d files fs !! p = fs !! p.
Proof.
  revert fs. induction files as [|v files IH]; intros fs H; [done|].
  unfold stored in *. cbn [fold_left]. rewrite IH.
  - apply lookup_insert_ne. intros Heq. apply (H v); [by left|done].
  - intros x Hx. apply H. by right.
Qed.

(** The module-format directories: none, one or two. *)
Lemma destDirs_cases css :
  destDirs css = []
  \/ (exists d, destDirs css = [d])
  \/ (exists es cjs, destDirs css = [es; cjs]).
Proof.
  unfold destDirs. cbn [List.filter].
  destruct (JS.truthy (output_es css)), (JS.truthy (output_cjs css)); cbn [map]; eauto.
Qed.

Lemma destDirs_both css es cjs :
  output_es css = Some es -> output_cjs css = Some cjs ->
  es <> EmptyString -> cjs <> EmptyString ->
  destDirs css = [es; cjs].
Proof.
  intros He Hc Hes Hcjs. unfold destDirs. rewrite He, Hc.
  destruct es; [done|]. by destruct cjs.
Qed.

(** [compileLess] with both directories, one directory, none. *)
Lemma compileLess_two css e fs es cjs :
  destDirs css = [es; cjs] ->
  compileLess css e fs
  = let outs := passed (compile_and_clean css e fs) (gulp_src e fs (entry css) None) in
    let in_es := accepted e es outs in
    let in_cjs := accepted e cjs in_es in
    Result (writes_into es in_es ++ writes_into cjs in_cjs
            ++ match refused e cjs in_es with
               | Some er => report "Failed to build css, error in compiling less" er
               | None => []
               end)
           (stored cjs in_cjs (stored es in_es fs))
           (match stopped (compile_and_clean css e fs) (gulp_src e fs (entry css) None) with
            | Some er => Failed er
            | None =>
                match refused e es outs with
                | Some er => Failed er
                | None =>
                    match refused e cjs in_es with
                    | Some er => Failed er
                    | None => Done
                    end
                end
            end).
Proof.
  intros Hdirs. unfold compileLess. rewrite Hdirs. cbv zeta.
  cbn [map pipe_files]. rewrite feed_through, !feed_dest. cbn [app]. unfold stream_signal.
  cbn [upstream final].
  destruct (stopped (compile_and_clean css e fs) (gulp_src e fs (entry css) None));
    destruct (refused e es
                (passed (compile_and_clean css e fs) (gulp_src e fs (entry css) None)));
    destruct (refused e cjs
                (accepted e es
                   (passed (compile_and_clean css e fs) (gulp_src e fs (entry css) None))));
    rewrite ?app_assoc; reflexivity.
Qed.

Lemma compileLess_one css e fs d :
  destDirs css = [d] ->
  compileLess css e fs
  = let outs := passed (compile_and_clean css e fs) (gulp_src e fs (entry css) None) in
    Result (writes_into d (accepted e d outs)
            ++ match refused e d outs with
               | Some er => report "Failed to build css, error in compiling less" er
               | None => []
               end)
           (stored d (accepted e d outs) fs)
           (match stopped (compile_and_clean css e fs) (gulp_src e fs (entry css) None) with
            | Some er => Failed er
            | None =>
                match refused e d outs with
                | Some er => Failed er
                | None => Done
                end
            end).
Proof.
  intros Hdirs. unfold compileLess. rewrite Hdirs. cbv zeta.
  cbn [map pipe_files]. rewrite feed_through, !feed_dest. cbn [app]. unfold stream_signal.
  cbn [upstream final].
  destruct (stopped (compile_and_clean css e fs) (gulp_src e fs (entry css) None));
    destruct (refused e d
                (passed (compile_and_clean css e fs) (gulp_src e fs (entry css) None)));
    reflexivity.
Qed.

(** C8.  [compileLess] sends every source through the compiler and
    [cleanCSS] once and hands the file that comes out, as it is, to
    [gulp.dest] of each configured module-format directory.  When no source
    fails to compile and the disk refuses no file, every matched source is
    written, with the same bytes, under every directory, and the task is
    done.  In any case what is written under a directory is a compiled
    source as it came out, and what is written under the CommonJS directory
    is the leading part of what is written under the ESM directory, file by
    file with identical contents; the task is done only when nothing
    failed. *)
Theorem compileLess_same_bytes :
  forall css e fs,
    let files := gulp_src e fs (entry css) None in
    let outs := passed (compile_and_clean css e fs) files in
    (stopped (compile_and_clean css e fs) files = None ->
     (forall d, In d (destDirs css) -> refused e d outs = None) ->
     Forall2 (fun src out => compile_and_clean css e fs src = inr out) files outs
     /\ events (compileLess css e fs) = flat_map (fun d => writes_into d outs) (destDirs css)
     /\ signal (compileLess css e fs) = Done)
    /\ (forall es cjs,
          destDirs css = [es; cjs] ->
          events (compileLess css e fs)
          = writes_into es (accepted e es outs)
            ++ writes_into cjs (accepted e cjs (accepted e es outs))
            ++ match refused e cjs (accepted e es outs) with
               | Some er => report "Failed to build css, error in compiling less" er
               | None => []
               end
          /\ (exists rest,
                 accepted e es outs = accepted e cjs (accepted e es outs) ++ rest)
          /\ (signal (compileLess css e fs) = Done <->
                stopped (compile_and_clean css e fs) files = None
                /\ refused e es outs = None
                /\ refused e cjs (accepted e es outs) = None))
    /\ (forall d,
          destDirs css = [d] ->
          events (compileLess css e fs)
          = writes_into d (accepted e d outs)
            ++ match refused e d outs with
               | Some er => report "Failed to build css, error in compiling less" er
               | None => []
               end
          /\ (signal (compileLess css e fs) = Done <->
                stopped (compile_and_clean css e fs) files = None
                /\ refused e d outs = None))
    /\ (destDirs css = [] -> compileLess css e fs = Result [] fs Done)
    /\ (forall out, In out outs ->
          exists src, In src files /\ compile_and_clean css e fs src = inr out).
Proof.
  intros css e fs files outs. split; [|split; [|split; [|split]]].
  - intros Hstop Hdirs. split; [by apply passed_all|].
    destruct (destDirs_cases css) as [H0|[[d H1]|(es & cjs & H2)]].
    + unfold compileLess. rewrite H0. done.
    + rewrite (compileLess_one css e fs d H1). cbv zeta. fold files. fold outs.
      assert (Hd : refused e d outs = None) by (apply Hdirs; rewrite H1; by left).
      rewrite H1, Hstop, Hd, (accepted_all _ _ _ Hd). cbn [events signal flat_map].
      by rewrite !app_nil_r.
    + rewrite (compileLess_two css e fs es cjs H2). cbv zeta. fold files. fold outs.
      assert (Hes : refused e es outs = None) by (apply Hdirs; rewrite H2; by left).
      assert (Hcjs : refused e cjs outs = None)
        by (apply Hdirs; rewrite H2; right; by left).
      rewrite H2, Hstop, Hes, (accepted_all _ _ _ Hes), Hcjs, (accepted_all _ _ _ Hcjs).
      cbn [events signal flat_map]. by rewrite !app_nil_r.
  - intros es cjs H2. rewrite (compileLess_two css e fs es cjs H2). cbv zeta.
    fold files. fold outs. cbn [events signal]. split; [done|].
    split; [apply accepted_prefix|].
    destruct (stopped _ files), (refused e es outs), (refused e cjs _);
      split; (intros [? [? ?]] || intros ?); done.
  - intros d H1. rewrite (compileLess_one css e fs d H1). cbv zeta.
    fold files. fold outs. cbn [events signal]. split; [done|].
    destruct (stopped _ files), (refused e d outs);
      split; (intros [? ?] || intros ?); done.
  - intros H0. unfold compileLess. by rewrite H0.
  - intros out Hin. by apply passed_in.
Qed.

Example compileLess_sample :
  events (compileLess Sample.css Sample.world ∅)
  = [Write "es/button/style/index.less" "min(.btn{color:red})";
     Write "es/style/index.less" "min(@import 'theme';)";
     Write "lib/button/style/index.less" "min(.btn{color:red})";
     Write "lib/style/index.less" "min(@import 'theme';)"].
Proof. vm_compute. reflexivity. Qed.

(** With the CommonJS copy of a file refused, the ESM directory has every
    file, the CommonJS directory the files before the refused one, and the
    listener at the end of the chain reports. *)
Example compileLess_sample_write_error :
  events (compileLess Sample.css Sample.world_copy_error ∅)
  = [Write "es/button/style/index.less" "min(.btn{color:red})";
     Write "es/style/index.less" "min(@import 'theme';)";
     Write "lib/button/style/index.less" "min(.btn{color:red})";
     Print Err ["[arco-scripts]"; "Failed to build css, error in compiling less"];
     ConsoleError "EACCES"].
Proof. vm_compute. reflexivity. Qed.

(** ** Runs of the task graphs *)

Lemma in_start_effects name (l : list effect) : ~ In (Start name) (map Effect l).
Proof. intros H. apply in_map_iff in H as (x & Hx & _). discriminate Hx. Qed.

Lemma in_start_settle name task c : ~ In (Start name) (settle task c).
Proof. destruct c; cbn [settle In]; intros H; [destruct H as [H|[]]; discriminate H| destruct H as [H|[]]; discriminate H|done]. Qed.

Lemma in_settle_effects name ok (l : list effect) : ~ In (Settle name ok) (map Effect l).
Proof. intros H. apply in_map_iff in H as (x & Hx & _). discriminate Hx. Qed.

Lemma in_resolved_effects (l : list effect) : ~ In Resolved (map Effect l).
Proof. intros H. apply in_map_iff in H as (x & Hx & _). discriminate Hx. Qed.

Lemma in_resolved_settle task c : ~ In Resolved (settle task c).
Proof. destruct c; cbn [settle In]; intros H; [destruct H as [H|[]]; discriminate H| destruct H as [H|[]]; discriminate H|done]. Qed.

(** An element that occurs once splits a list in one way only. *)
Lemma split_at_unique {A} (a : A) (X Y pre post : list A) :
  ~ In a X -> ~ In a Y -> X ++ a :: Y = pre ++ a :: post -> pre = X /\ post = Y.
Proof.
  revert pre. induction X as [|x X IH]; intros pre HX HY Heq.
  - destruct pre as [|p pre]; cbn [app] in Heq.
    + by injection Heq as <-.
    + injection Heq as <- ->. exfalso. apply HY, in_or_app. right. by left.
  - destruct pre as [|p pre]; cbn [app] in Heq.
    + injection Heq as -> _. exfalso. apply HX. by left.
    + injection Heq as <- Heq. destruct (IH pre) as [-> ->]; try done.
      intros H. apply HX. by right.
Qed.

Ltac absent H :=
  repeat (first [ apply in_app_iff in H as [H|H]
                | apply in_start_effects in H
                | apply in_start_settle in H
                | apply in_settle_effects in H
                | apply in_resolved_effects in H
                | apply in_resolved_settle in H
                | destruct H as [H|H]; [try discriminate H|]
                | destruct H ]).

Lemma run_fastBuild_events css asset e fs :
  events (run (fastBuild css asset e) fs) =
  let a := copyAsset asset e fs in
  let c := copyFileWatched css e (fs_after a) in
  [Start "copyAsset"; Start "copyFileWatched"]
  ++ (map Effect (events a) ++ settle "copyAsset" (signal a))
  ++ (map Effect (events c) ++ settle "copyFileWatched" (signal c))
  ++ match signal c with
     | Done =>
         let d := distLess css e (fs_after c) in
         (Start "distLess" :: map Effect (events d) ++ settle "distLess" (signal d))
         ++ match signal d with
            | Done =>
                Start "<anonymous>"
                  :: map Effect (events (distCss css asset e true (fs_after d)))
            | _ => []
            end
     | _ => []
     end.
Proof.
  cbn [run work starts fastBuild lift events fs_after signal app]. cbv zeta.
  destruct (signal (copyFileWatched css e (fs_after (copyAsset asset e fs))));
    cbn [events app]; rewrite ?app_nil_r; try reflexivity.
  destruct (signal (distLess css e
              (fs_after (copyFileWatched css e (fs_after (copyAsset asset e fs))))));
    cbn [events settle app]; rewrite ?app_nil_r; reflexivity.
Qed.

Lemma run_fastBuild_signal css asset e fs :
  signal (run (fastBuild css asset e) fs) =
  let a := copyAsset asset e fs in
  let c := copyFileWatched css e (fs_after a) in
  both (signal a)
       (both match signal c with
             | Done =>
                 match signal (distLess css e (fs_after c)) with
                 | Done => Never
                 | other => other
                 end
             | other => other
             end Done).
Proof.
  cbn [run work fastBuild lift events fs_after signal]. cbv zeta.
  destruct (signal (copyFileWatched css e (fs_after (copyAsset asset e fs))));
    cbn [signal]; try reflexivity.
  destruct (signal (distLess css e
              (fs_after (copyFileWatched css e (fs_after (copyAsset asset e fs))))));
    reflexivity.
Qed.

Lemma run_buildStage1_events css asset e fs :
  events (run (buildStage1 css asset e) fs) =
  let a := copyAsset asset e fs in
  let c := copyFileWatched css e (fs_after a) in
  let l := compileLess css e (fs_after c) in
  let h := handleStyleJSEntry e (fs_after l) in
  [Start "copyAsset"; Start "copyFileWatched"; Start "compileLess";
   Start "handleStyleJSEntry"]
  ++ (map Effect (events a) ++ settle "copyAsset" (signal a))
  ++ (map Effect (events c) ++ settle "copyFileWatched" (signal c))
  ++ (map Effect (events l) ++ settle "compileLess" (signal l))
  ++ (map Effect (events h) ++ settle "handleStyleJSEntry" (signal h)).
Proof.
  cbn [run work starts buildStage1 lift events fs_after signal app]. cbv zeta.
  rewrite ?app_nil_r. reflexivity.
Qed.

Lemma run_buildStage1_signal css asset e fs :
  signal (run (buildStage1 css asset e) fs) =
  let a := copyAsset asset e fs in
  let c := copyFileWatched css e (fs_after a) in
  let l := compileLess css e (fs_after c) in
  let h := handleStyleJSEntry e (fs_after l) in
  both (signal a) (both (signal c) (both (signal l) (both (signal h) Done))).
Proof. reflexivity. Qed.

Lemma run_buildStage2_events css asset e fs :
  events (run (buildStage2 css asset e) fs) =
  let d := distLess css e fs in
  let x := distCss css asset e false (fs_after d) in
  [Start "distLess"; Start "distCss"]
  ++ (map Effect (events d) ++ settle "distLess" (signal d))
  ++ (map Effect (events x) ++ settle "distCss" (signal x)).
Proof.
  cbn [run work starts buildStage2 lift events fs_after signal app]. cbv zeta.
  rewrite ?app_nil_r. reflexivity.
Qed.

Lemma run_buildStage2_signal css asset e fs :
  signal (run (buildStage2 css asset e) fs) =
  let d := distLess css e fs in
  both (signal d) (both (signal (distCss css asset e false (fs_after d))) Done).
Proof. reflexivity. Qed.

Lemma run_series_nil fs : run (Series []) fs = Result [] fs Done.
Proof. reflexivity. Qed.

(** A series runs its first task and, when that is done, the rest. *)
Lemma run_series_cons t rest fs :
  run (Series (t :: rest)) fs =
  match signal (run t fs) with
  | Done =>
      Result (events (run t fs) ++ events (run (Series rest) (fs_after (run t fs))))
             (fs_after (run (Series rest) (fs_after (run t fs))))
             (signal (run (Series rest) (fs_after (run t fs))))
  | _ => run t fs
  end.
Proof.
  unfold run. cbn [work starts signal events fs_after].
  destruct (signal (work t fs)) eqn:Hs; cbn [events fs_after signal]; rewrite ?Hs;
    try reflexivity.
  f_equal. rewrite <- !app_assoc. reflexivity.
Qed.

Lemma run_buildStage3 fs :
  run buildStage3 fs = Result [Start "<anonymous>"; Resolved] fs Never.
Proof. reflexivity. Qed.

Lemma run_buildGraph css asset e fs :
  run (buildGraph css asset e) fs =
  match signal (run (buildStage1 css asset e) fs) with
  | Done =>
      match signal (run (buildStage2 css asset e)
                        (fs_after (run (buildStage1 css asset e) fs))) with
      | Done =>
          Result (events (run (buildStage1 css asset e) fs)
                  ++ events (run (buildStage2 css asset e)
                                 (fs_after (run (buildStage1 css asset e) fs)))
                  ++ [Start "<anonymous>"; Resolved])
                 (fs_after (run (buildStage2 css asset e)
                                (fs_after (run (buildStage1 css asset e) fs))))
                 Never
      | other =>
          Result (events (run (buildStage1 css asset e) fs)
                  ++ events (run (buildStage2 css asset e)
                                 (fs_after (run (buildStage1 css asset e) fs))))
                 (fs_after (run (buildStage2 css asset e)
                                (fs_after (run (buildStage1 css asset e) fs))))
                 other
      end
  | _ => run (buildStage1 css asset e) fs
  end.
Proof.
  unfold buildGraph. rewrite !run_series_cons, run_series_nil, run_buildStage3.
  destruct (signal (run (buildStage1 css asset e) fs)); try reflexivity.
  destruct (signal (run (buildStage2 css asset e)
                        (fs_after (run (buildStage1 css asset e) fs)))) eqn:H2;
    cbn [events fs_after signal]; rewrite ?H2; reflexivity.
Qed.

Lemma run_buildGraph_events css asset e fs :
  events (run (buildGraph css asset e) fs) =
  events (run (buildStage1 css asset e) fs)
  ++ match signal (run (buildStage1 css asset e) fs) with
     | Done =>
         events (run (buildStage2 css asset e)
                     (fs_after (run (buildStage1 css asset e) fs)))
         ++ match signal (run (buildStage2 css asset e)
                              (fs_after (run (buildStage1 css asset e) fs))) with
            | Done => [Start "<anonymous>"; Resolved]
            | _ => []
            end
     | _ => []
     end.
Proof.
  rewrite run_buildGraph.
  destruct (signal (run (buildStage1 css asset e) fs)); rewrite ?app_nil_r; try reflexivity.
  destruct (signal (run (buildStage2 css asset e)
                        (fs_after (run (buildStage1 css asset e) fs))));
    cbn [events]; rewrite ?app_nil_r; reflexivity.
Qed.

(** C9.  [watch()] holds the index and the artifact apart by a series;
    [build()] puts the two side by side in one [gulp.parallel].  There
    gulp starts [distCss] together with [distLess], before the index is
    written; and when the disk refuses the index, so that [distLess] fails
    without having written it, [distCss] runs all the same, on a disk
    without the index of this run, and is done.  In the fast build of
    [watch()], on the same disk, the failure of [distLess] stops the series
    and the artifact step is not started. *)
Theorem build_starts_artifact_after_failed_index :
  (exists before behind,
      built_events (build Sample.css Sample.asset Sample.world_index_error ∅)
      = before ++ [Start "distLess"; Start "distCss"; Settle "distLess" false;
                   Settle "distCss" true] ++ behind)
  /\ (forall c, ~ In (Effect (Write "dist/index.less" c))
                     (built_events (build Sample.css Sample.asset Sample.world_index_error ∅)))
  /\ signal (run (fastBuild Sample.css Sample.asset Sample.world_index_error) ∅)
     = Failed "EACCES"
  /\ In (Settle "distLess" false)
        (events (run (fastBuild Sample.css Sample.asset Sample.world_index_error) ∅))
  /\ ~ In (Start "<anonymous>")
          (events (run (fastBuild Sample.css Sample.asset Sample.world_index_error) ∅))
  /\ (exists before index behind,
         built_events (build Sample.css Sample.asset Sample.world ∅)
         = before ++ [Start "distLess"; Start "distCss";
                      Effect (Write "dist/index.less" index)] ++ behind).
Proof.
  split; [|split; [|split; [|split; [|split]]]].
  - vm_compute.
    eexists [_; _; _; _; _; _; _; _; _; _; _; _; _; _; _; _], []. reflexivity.
  - vm_compute. intros c H. repeat (destruct H as [H|H]; [discriminate H|]). destruct H.
  - vm_compute. reflexivity.
  - vm_compute. repeat (first [left; reflexivity | right]).
  - vm_compute. intros H. repeat (destruct H as [H|H]; [discriminate H|]). destruct H.
  - vm_compute.
    eexists [_; _; _; _; _; _; _; _; _; _; _; _; _; _; _; _], _, _. reflexivity.
Qed.

(** ** The fast build never reports that it is done *)

Lemma both_done c1 c2 : both c1 c2 = Done <-> c1 = Done /\ c2 = Done.
Proof. destruct c1, c2; cbn [both]; split; (intros [? ?] || intros ?); done. Qed.

Lemma fastBuild_signal_not_done css asset e fs :
  signal (run (fastBuild css asset e) fs) <> Done.
Proof.
  rewrite run_fastBuild_signal. cbv zeta. intros H.
  apply both_done in H as [_ H]. apply both_done in H as [H _].
  destruct (signal (copyFileWatched css e (fs_after (copyAsset asset e fs)))); try done.
  by destruct (signal (distLess css e
                 (fs_after (copyFileWatched css e (fs_after (copyAsset asset e fs)))))).
Qed.

Lemma settle_name name ok task c : In (Settle name ok) (settle task c) -> name = task.
Proof.
  destruct c; cbn [settle In]; intros H; [|
    |done]; destruct H as [H|[]]; by injection H.
Qed.

Lemma fastBuild_anonymous_never_settles css asset e fs ok :
  ~ In (Settle "<anonymous>" ok) (events (run (fastBuild css asset e) fs)).
Proof.
  rewrite run_fastBuild_events. cbv zeta. intros H.
  apply in_app_iff in H as [H|H]; [absent H|].
  apply in_app_iff in H as [H|H].
  { apply in_app_iff in H as [H|H]; [by apply in_settle_effects in H|].
    by apply settle_name in H. }
  apply in_app_iff in H as [H|H].
  { apply in_app_iff in H as [H|H]; [by apply in_settle_effects in H|].
    by apply settle_name in H. }
  destruct (signal (copyFileWatched css e (fs_after (copyAsset asset e fs)))); try done.
  apply in_app_iff in H as [H|H].
  { destruct H as [H|H]; [discriminate H|]. apply in_app_iff in H as [H|H];
      [by apply in_settle_effects in H|]. by apply settle_name in H. }
  destruct (signal (distLess css e _)); try done.
  destruct H as [H|H]; [discriminate H|]. by apply in_settle_effects in H.
Qed.

(** C10, as the code has it.  The last function of the fast-build series
    calls [distCss(true)] and lets go of the stream: it returns nothing and
    does not call its callback, so gulp never sees it complete.  The fast
    build therefore never reports that it is done, whether the artifact has
    been written or not: its signal is a failure of an earlier task or
    none at all, and it is none at all when every earlier task is done. *)
Theorem fastBuild_never_signals_completion :
  forall css asset e fs,
    signal (run (fastBuild css asset e) fs) <> Done
    /\ (forall ok, ~ In (Settle "<anonymous>" ok) (events (run (fastBuild css asset e) fs)))
    /\ (signal (copyAsset asset e fs) = Done ->
        signal (copyFileWatched css e (fs_after (copyAsset asset e fs))) = Done ->
        signal (distLess css e
                  (fs_after (copyFileWatched css e (fs_after (copyAsset asset e fs))))) = Done ->
        signal (run (fastBuild css asset e) fs) = Never
        /\ exists before,
             events (run (fastBuild css asset e) fs)
             = before ++ Start "<anonymous>"
                 :: map Effect
                      (events (distCss css asset e true
                                 (fs_after
                                    (distLess css e
                                       (fs_after
                                          (copyFileWatched css e
                                             (fs_after (copyAsset asset e fs)))))))))
    /\ (signal (run (fastBuild css asset e) fs) = Never
        \/ exists er, signal (run (fastBuild css asset e) fs) = Failed er).
Proof.
  intros css asset e fs. split; [apply fastBuild_signal_not_done|].
  split; [intros ok; apply fastBuild_anonymous_never_settles|]. split.
  - intros Ha Hc Hd. split.
    + rewrite run_fastBuild_signal. cbv zeta. by rewrite Ha, Hc, Hd.
    + rewrite run_fastBuild_events. cbv zeta. rewrite Hc, Hd.
      eexists. rewrite !app_assoc. reflexivity.
  - pose proof (fastBuild_signal_not_done css asset e fs) as H.
    destruct (signal (run (fastBuild css asset e) fs)) as [|er|]; [done|right; by exists er|by left].
Qed.

(** No world makes the fast build report that it is done; in the sample
    world the artifact is written and still no completion is signalled. *)
Lemma fastBuild_signals_no_completion :
  (~ exists e fs, signal (run (fastBuild Sample.css Sample.asset e) fs) = Done)
  /\ signal (run (fastBuild Sample.css Sample.asset Sample.world) ∅) = Never
  /\ exists c, fs_after (run (fastBuild Sample.css Sample.asset Sample.world) ∅)
               !! "dist/arco.css" = Some c.
Proof.
  split; [|split].
  - intros (e & fs & H). by apply fastBuild_signal_not_done in H.
  - vm_compute. reflexivity.
  - eexists. vm_compute. reflexivity.
Qed.

(** ** The promise of build() *)

Lemma resolved_app evs1 evs2 : resolved (evs1 ++ evs2) = resolved evs1 || resolved evs2.
Proof. unfold resolved. apply existsb_app. Qed.

Lemma resolved_false evs : ~ In Resolved evs -> resolved evs = false.
Proof.
  intros H. unfold resolved. destruct (existsb _ evs) eqn:E; [|done].
  apply existsb_exists in E as (x & Hx & Hr). by destruct x.
Qed.

Lemma buildStage1_not_resolved css asset e fs :
  resolved (events (run (buildStage1 css asset e) fs)) = false.
Proof.
  apply resolved_false. rewrite run_buildStage1_events. cbv zeta. intros H. absent H.
Qed.

Lemma buildStage2_not_resolved css asset e fs :
  resolved (events (run (buildStage2 css asset e) fs)) = false.
Proof.
  apply resolved_false. rewrite run_buildStage2_events. cbv zeta. intros H. absent H.
Qed.

(** What [build()] leaves behind when the call of the graph does not
    throw. *)
Lemma build_unfold css asset e fs :
  call_fault e = None ->
  build css asset e fs =
  match signal (run (buildStage1 css asset e) fs) with
  | Done =>
      match signal (run (buildStage2 css asset e)
                        (fs_after (run (buildStage1 css asset e) fs))) with
      | Done =>
          Built (events (run (buildStage1 css asset e) fs)
                 ++ events (run (buildStage2 css asset e)
                                (fs_after (run (buildStage1 css asset e) fs)))
                 ++ [Start "<anonymous>"; Resolved])
                (fs_after (run (buildStage2 css asset e)
                               (fs_after (run (buildStage1 css asset e) fs))))
                Fulfilled
      | _ =>
          Built (events (run (buildStage1 css asset e) fs)
                 ++ events (run (buildStage2 css asset e)
                                (fs_after (run (buildStage1 css asset e) fs))))
                (fs_after (run (buildStage2 css asset e)
                               (fs_after (run (buildStage1 css asset e) fs))))
                Pending
      end
  | _ =>
      Built (events (run (buildStage1 css asset e) fs))
            (fs_after (run (buildStage1 css asset e) fs))
            Pending
  end.
Proof.
  intros Hcall. unfold build, call. rewrite Hcall, run_buildGraph.
  destruct (signal (run (buildStage1 css asset e) fs)) eqn:H1.
  - destruct (signal (run (buildStage2 css asset e)
                          (fs_after (run (buildStage1 css asset e) fs)))) eqn:H2;
      cbn [events fs_after signal];
      rewrite ?resolved_app, buildStage1_not_resolved, buildStage2_not_resolved;
      reflexivity.
  - by rewrite buildStage1_not_resolved.
  - by rewrite buildStage1_not_resolved.
Qed.

(** C5, as the code has it.  When the call of the task graph does not
    throw, the promise of [build()] is never rejected: what the tasks
    report goes to the log only.  It is resolved exactly when every task of
    the first two stages has signalled completion, and then as the last
    thing, after both stages have run.  A task that fails stops the series:
    the stages after it are not started and the promise stays pending. *)
Theorem build_resolves_when_no_task_fails :
  forall css asset e fs,
    call_fault e = None ->
    (forall er, built_promise (build css asset e fs) <> Rejected er)
    /\ (built_promise (build css asset e fs) = Fulfilled <->
          signal (run (buildStage1 css asset e) fs) = Done
          /\ signal (run (buildStage2 css asset e)
                         (fs_after (run (buildStage1 css asset e) fs))) = Done)
    /\ (built_promise (build css asset e fs) = Fulfilled ->
          built_events (build css asset e fs)
          = events (run (buildStage1 css asset e) fs)
            ++ events (run (buildStage2 css asset e)
                           (fs_after (run (buildStage1 css asset e) fs)))
            ++ [Start "<anonymous>"; Resolved])
    /\ (signal (run (buildStage1 css asset e) fs) <> Done ->
          built_promise (build css asset e fs) = Pending
          /\ built_events (build css asset e fs)
             = events (run (buildStage1 css asset e) fs))
    /\ (signal (run (buildStage1 css asset e) fs) = Done ->
        signal (run (buildStage2 css asset e)
                    (fs_after (run (buildStage1 css asset e) fs))) <> Done ->
          built_promise (build css asset e fs) = Pending
          /\ built_events (build css asset e fs)
             = events (run (buildStage1 css asset e) fs)
               ++ events (run (buildStage2 css asset e)
                              (fs_after (run (buildStage1 css asset e) fs)))).
Proof.
  intros css asset e fs Hcall. rewrite (build_unfold css asset e fs Hcall).
  destruct (signal (run (buildStage1 css asset e) fs)) eqn:H1;
    [destruct (signal (run (buildStage2 css asset e)
                           (fs_after (run (buildStage1 css asset e) fs)))) eqn:H2|..];
    cbn [built_promise built_events];
    (split; [done|]); (split; [split; [done|by intros [? ?]]|]);
    (split; [done|]); split; try done; by intros ? ?.
Qed.

Lemma build_resolves_when_no_task_fails_sample :
  (forall er, built_promise (build Sample.css Sample.asset Sample.world ∅) <> Rejected er)
  /\ (built_promise (build Sample.css Sample.asset Sample.world ∅) = Fulfilled <->
        signal (run (buildStage1 Sample.css Sample.asset Sample.world) ∅) = Done
        /\ signal (run (buildStage2 Sample.css Sample.asset Sample.world)
                       (fs_after (run (buildStage1 Sample.css Sample.asset Sample.world) ∅)))
           = Done)
  /\ (built_promise (build Sample.css Sample.asset Sample.world ∅) = Fulfilled ->
        built_events (build Sample.css Sample.asset Sample.world ∅)
        = events (run (buildStage1 Sample.css Sample.asset Sample.world) ∅)
          ++ events (run (buildStage2 Sample.css Sample.asset Sample.world)
                         (fs_after (run (buildStage1 Sample.css Sample.asset Sample.world) ∅)))
          ++ [Start "<anonymous>"; Resolved])
  /\ (signal (run (buildStage1 Sample.css Sample.asset Sample.world) ∅) <> Done ->
        built_promise (build Sample.css Sample.asset Sample.world ∅) = Pending
        /\ built_events (build Sample.css Sample.asset Sample.world ∅)
           = events (run (buildStage1 Sample.css Sample.asset Sample.world) ∅))
  /\ (signal (run (buildStage1 Sample.css Sample.asset Sample.world) ∅) = Done ->
      signal (run (buildStage2 Sample.css Sample.asset Sample.world)
                  (fs_after (run (buildStage1 Sample.css Sample.asset Sample.world) ∅)))
      <> Done ->
        built_promise (build Sample.css Sample.asset Sample.world ∅) = Pending
        /\ built_events (build Sample.css Sample.asset Sample.world ∅)
           = events (run (buildStage1 Sample.css Sample.asset Sample.world) ∅)
             ++ events (run (buildStage2 Sample.css Sample.asset Sample.world)
                            (fs_after (run (buildStage1 Sample.css Sample.asset Sample.world) ∅)))).
Proof.
  apply (build_resolves_when_no_task_fails Sample.css Sample.asset Sample.world ∅).
  reflexivity.
Defined.

(** A copy that fails leaves the promise of [build()] pending: the error is
    printed, the first stage fails, and the later stages, [resolve]
    included, are never started. *)
Lemma build_pending_after_copy_error :
  built_promise (build Sample.css Sample.asset Sample.world_copy_error ∅) = Pending
  /\ In (Effect (Print Err ["[arco-scripts]"; "Failed to build css, error in copying files"]))
        (built_events (build Sample.css Sample.asset Sample.world_copy_error ∅))
  /\ In (Settle "copyFileWatched" false)
        (built_events (build Sample.css Sample.asset Sample.world_copy_error ∅))
  /\ ~ In (Start "distLess")
          (built_events (build Sample.css Sample.asset Sample.world_copy_error ∅))
  /\ ~ In Resolved
          (built_events (build Sample.css Sample.asset Sample.world_copy_error ∅)).
Proof.
  vm_compute. split; [reflexivity|]. split; [|split; [|split]].
  - repeat (first [left; reflexivity | right]).
  - repeat (first [left; reflexivity | right]).
  - intros H. repeat (destruct H as [H|H]; [discriminate H|]). destruct H.
  - intros H. repeat (destruct H as [H|H]; [discriminate H|]). destruct H.
Qed.

Example build_resolves_in_sample :
  built_promise (build Sample.css Sample.asset Sample.world ∅) = Fulfilled.
Proof. vm_compute. reflexivity. Qed.

(** ** The watch session *)

Lemma quiet_write p c : quiet (Write p c).
Proof. intros l H. discriminate H. Qed.

(** What holds of everything a stream does holds of everything a chain of
    such streams does. *)
Lemma feed_events (P : effect -> Prop) (st : stage) files :
  (forall fs v evs fs' v', st fs v = inr (evs, fs', v') -> Forall P evs) ->
  forall fs evs fs' out r, feed st files fs = (evs, fs', out, r) -> Forall P evs.
Proof.
  intros Hst. induction files as [|v files IH]; intros fs evs fs' out r; cbn [feed].
  - intros [= <- <- <- <-]. constructor.
  - destruct (st fs v) as [er|[[evs0 fs0] v0]] eqn:Hv; [intros [= <- <- <- <-]; constructor|].
    destruct (feed st files fs0) as [[[evs1 fs1] out1] r1] eqn:Hrec.
    intros [= <- <- <- <-]. apply Forall_app. split; [eapply Hst, Hv|eapply IH, Hrec].
Qed.

Lemma pipe_files_events (P : effect -> Prop) (stages : list stage) :
  Forall (fun st : stage =>
            forall fs v evs fs' v', st fs v = inr (evs, fs', v') -> Forall P evs) stages ->
  forall files fs evs fs' o, pipe_files stages files fs = (evs, fs', o) -> Forall P evs.
Proof.
  induction 1 as [|st rest Hst Hrest IH]; intros files fs evs fs' o; cbn [pipe_files].
  - intros [= <- <- <-]. constructor.
  - destruct (feed st files fs) as [[[evs0 fs0] out0] r0] eqn:Hf.
    destruct rest as [|st' rest'].
    + intros [= <- <- <-]. eapply feed_events; [exact Hst|exact Hf].
    + destruct (pipe_files (st' :: rest') out0 fs0) as [[evs1 fs1] o1] eqn:Hp.
      intros [= <- <- <-]. apply Forall_app. split.
      * eapply feed_events; [exact Hst|exact Hf].
      * eapply IH, Hp.
Qed.

Lemma dest_events (P : effect -> Prop) e d :
  (forall v, P (Write (dest_path d (v_relative v)) (v_contents v))) ->
  forall fs v evs fs' v', dest e d fs v = inr (evs, fs', v') -> Forall P evs.
Proof.
  intros HP fs v evs fs' v'. rewrite dest_eq.
  destruct (write_error e (dest_path d (v_relative v))); [done|].
  intros [= <- <- <-]. constructor; [apply HP|constructor].
Qed.

Lemma through_events (P : effect -> Prop) tr :
  forall fs v evs fs' v', through tr fs v = inr (evs, fs', v') -> Forall P evs.
Proof.
  intros fs v evs fs' v'. unfold through. destruct (tr fs v); [done|].
  intros [= <- <- <-]. constructor.
Qed.

Lemma dests_events (P : effect -> Prop) e dirs :
  (forall d v, In d dirs -> P (Write (dest_path d (v_relative v)) (v_contents v))) ->
  Forall (fun st : stage =>
            forall fs v evs fs' v', st fs v = inr (evs, fs', v') -> Forall P evs)
         (map (dest e) dirs).
Proof.
  induction dirs as [|d dirs IH]; intros HP; cbn [map]; constructor.
  - apply dest_events. intros v. apply HP. by left.
  - apply IH. intros d' v Hd. apply HP. by right.
Qed.

Lemma report_quiet what er : Forall quiet (report what er).
Proof. repeat constructor; intros l H; discriminate H. Qed.

(** What holds of every write under a configured directory and of the
    report of the listener holds of everything a stream task does. *)
Lemma copyAsset_events (P : effect -> Prop) asset e fs :
  (forall v, P (Write (dest_path (asset_output asset) (v_relative v)) (v_contents v))) ->
  Forall P (events (copyAsset asset e fs)).
Proof.
  intros HP. unfold copyAsset.
  destruct (pipe_files _ _ _) as [[evs fs'] o] eqn:Hp. cbn [events].
  eapply pipe_files_events; [|exact Hp].
  constructor; [by apply dest_events|constructor].
Qed.

Lemma copyFileWatched_events (P : effect -> Prop) css e fs :
  (forall d v, In d (destDirs css) ->
               P (Write (dest_path d (v_relative v)) (v_contents v))) ->
  (forall er, Forall P (report "Failed to build css, error in copying files" er)) ->
  Forall P (events (copyFileWatched css e fs)).
Proof.
  intros HP Hrep. unfold copyFileWatched.
  destruct (destDirs css) as [|d ds] eqn:Hdirs; [constructor|].
  destruct (pipe_files _ _ _) as [[evs fs'] o] eqn:Hp.
  assert (Hevs : Forall P evs).
  { eapply pipe_files_events; [|exact Hp]. by apply dests_events. }
  destruct (final o) as [er|]; [|by destruct (upstream o)].
  cbn [events]. apply Forall_app. by split.
Qed.

Lemma compileLess_events (P : effect -> Prop) css e fs :
  (forall d v, In d (destDirs css) ->
               P (Write (dest_path d (v_relative v)) (v_contents v))) ->
  (forall er, Forall P (report "Failed to build css, error in compiling less" er)) ->
  Forall P (events (compileLess css e fs)).
Proof.
  intros HP Hrep. unfold compileLess.
  destruct (destDirs css) as [|d ds] eqn:Hdirs; [constructor|].
  destruct (pipe_files _ _ _) as [[evs fs'] o] eqn:Hp.
  assert (Hevs : Forall P evs).
  { eapply pipe_files_events; [|exact Hp].
    constructor; [apply through_events|by apply dests_events]. }
  cbn [events]. apply Forall_app. split; [done|].
  destruct (final o); [apply Hrep|constructor].
Qed.

Lemma copyAsset_quiet asset e fs : Forall quiet (events (copyAsset asset e fs)).
Proof. apply copyAsset_events. intros v. apply quiet_write. Qed.

Lemma copyFileWatched_quiet css e fs : Forall quiet (events (copyFileWatched css e fs)).
Proof.
  apply copyFileWatched_events; [intros d v _; apply quiet_write|apply report_quiet].
Qed.

Lemma distLess_quiet css e fs : Forall quiet (events (distLess css e fs)).
Proof.
  unfold distLess. destruct (distLess_entries css e); [constructor|].
  destruct (write_error e (index_path css)); repeat constructor. apply quiet_write.
Qed.

Lemma distCss_quiet css asset e isDev fs :
  Forall quiet (events (distCss css asset e isDev fs)).
Proof.
  unfold distCss, notify_end, notify_error, report.
  destruct (fs !! index_path css) as [raw|].
  2: { destruct isDev; repeat constructor. intros l H. discriminate H. }
  destruct (compiler css fs _) as [er|c].
  { destruct isDev; repeat constructor; intros l H; discriminate H. }
  destruct (artifact css asset e isDev (v_contents c)) as [er|out].
  { destruct isDev; repeat constructor; intros l H; discriminate H. }
  destruct (write_error e (artifact_path css)); destruct isDev; cbn [events app];
    repeat constructor; intros l H; discriminate H.
Qed.

Lemma event_lines_app l1 l2 : event_lines (l1 ++ l2) = event_lines l1 ++ event_lines l2.
Proof. unfold event_lines. apply flat_map_app. Qed.

Lemma event_lines_effects l : Forall quiet l -> event_lines (map Effect l) = [].
Proof.
  induction 1 as [|ef l Hq _ IH]; [done|]. cbn [map]. 
  change (event_lines (Effect ef :: map Effect l))
    with (match ef with Print Info [x] => [x] | _ => [] end ++ event_lines (map Effect l)).
  rewrite IH, app_nil_r. destruct ef as [[|] [|x [|y args]]| |]; try reflexivity.
  by destruct (Hq x).
Qed.

Lemma event_lines_settle name c : event_lines (settle name c) = [].
Proof. by destruct c. Qed.

(** A rebuild prints none of the watcher's lines. *)
Lemma event_lines_fastBuild css asset e fs :
  event_lines (events (run (fastBuild css asset e) fs)) = [].
Proof.
  rewrite run_fastBuild_events. cbv zeta.
  rewrite !event_lines_app, !event_lines_settle,
    (event_lines_effects _ (copyAsset_quiet asset e fs)),
    (event_lines_effects _ (copyFileWatched_quiet css e _)).
  change (event_lines [Start "copyAsset"; Start "copyFileWatched"]) with (@nil string).
  cbn [app].
  destruct (signal (copyFileWatched css e _)); try reflexivity.
  cbv zeta.
  change (event_lines (Start "distLess" :: ?l)) with (event_lines l).
  rewrite !event_lines_app, event_lines_settle,
    (event_lines_effects _ (distLess_quiet css e _)).
  cbn [app].
  destruct (signal (distLess css e _)); try reflexivity.
  change (event_lines (Start "<anonymous>" :: ?l)) with (event_lines l).
  apply event_lines_effects, distCss_quiet.
Qed.

Lemma remove_first_prefix pat rest : JS.remove_first pat (pat +:+ rest) = rest.
Proof.
  destruct pat as [|a pat].
  - by destruct rest.
  - rewrite sapp_cons. cbn [JS.remove_first]. rewrite <- sapp_cons, prefix_sapp.
    apply slice_sapp.
Qed.

Lemma on_all_returns css asset s c :
  on_all css asset s c
  = Ret (Session (ses_cwd s)
           (match call_fault (ev_env c) with
            | None => fs_after (run (fastBuild css asset (ev_env c)) (ev_edit c (ses_fs s)))
            | Some _ => ev_edit c (ses_fs s)
            end)
           (ses_log s
            ++ Effect (Print Info [log_line (ses_cwd s) c])
               :: match call_fault (ev_env c) with
                  | None => events (run (fastBuild css asset (ev_env c)) (ev_edit c (ses_fs s)))
                  | Some _ => []
                  end)).
Proof. unfold on_all, call. by destruct (call_fault (ev_env c)). Qed.

Lemma deliver_returns css asset cs :
  forall s, exists s',
    deliver css asset s cs = Ret s'
    /\ ses_cwd s' = ses_cwd s
    /\ event_lines (ses_log s') = event_lines (ses_log s) ++ map (log_line (ses_cwd s)) cs.
Proof.
  induction cs as [|c cs IH]; intros s.
  - exists s. cbn [deliver map]. by rewrite app_nil_r.
  - cbn [deliver]. rewrite on_all_returns.
    match goal with |- context [deliver css asset ?s1 cs] =>
      destruct (IH s1) as (s' & -> & Hcwd & Hlines) end.
    cbn [ses_cwd ses_log] in Hcwd, Hlines.
    exists s'. split; [done|]. split; [done|]. rewrite Hlines, event_lines_app.
    cbn [map]. rewrite <- app_assoc. f_equal.
    change (event_lines (Effect (Print Info [log_line (ses_cwd s) c]) :: ?l))
      with (log_line (ses_cwd s) c :: event_lines l).
    destruct (call_fault (ev_env c)); [|by rewrite event_lines_fastBuild].
    reflexivity.
Qed.

(** C1.  For an event the watcher delivers, the listener prints the line
    [[<event>] <path>], the path being the full path without the first
    occurrence of the working directory (so the path below it when the
    full path starts there), then calls the fast build; an exception of
    that call is caught and dropped, and a failure of its tasks goes to no
    one.  The listener always returns: whatever the events and however the
    rebuilds end, the session goes on, having printed one line per event,
    in order. *)
Theorem watch_logs_rebuilds_and_goes_on :
  forall css asset s c,
    (exists s',
        on_all css asset s c = Ret s'
        /\ ses_log s'
           = ses_log s
             ++ Effect (Print Info ["[" +:+ eventName_string (ev_name c) +:+ "] "
                                        +:+ JS.remove_first (ses_cwd s) (ev_fullPath c)])
                :: match call_fault (ev_env c) with
                   | None => events (run (fastBuild css asset (ev_env c))
                                         (ev_edit c (ses_fs s)))
                   | Some _ => []
                   end)
    /\ (forall rel,
          ev_fullPath c = ses_cwd s +:+ rel ->
          log_line (ses_cwd s) c = "[" +:+ eventName_string (ev_name c) +:+ "] " +:+ rel)
    /\ (forall cs,
          exists s',
            deliver css asset s cs = Ret s'
            /\ event_lines (ses_log s')
               = event_lines (ses_log s) ++ map (log_line (ses_cwd s)) cs).
Proof.
  intros css asset s c. split; [|split].
  - eexists. split; [apply on_all_returns|]. reflexivity.
  - intros rel H. unfold log_line. by rewrite H, remove_first_prefix.
  - intros cs. destruct (deliver_returns css asset cs s) as (s' & H & _ & Hl). by exists s'.
Qed.

Example on_all_drops_exception :
  forall s,
    on_all Sample.css Sample.asset s
      (FsEvent change "/proj/components/button/style/index.less" (fun fs => fs)
               Sample.world_throwing)
    = Ret (Session (ses_cwd s) (ses_fs s)
             (ses_log s ++ [Effect (Print Info
                                      [log_line (ses_cwd s)
                                         (FsEvent change "/proj/components/button/style/index.less"
                                                  (fun fs => fs) Sample.world_throwing)])])).
Proof. intros s. reflexivity. Qed.

Example log_line_sample :
  log_line "/proj"
    (FsEvent unlink "/proj/components/button/style/index.less" (fun fs => fs) Sample.world)
  = "[unlink] /components/button/style/index.less".
Proof. vm_compute. reflexivity. Qed.

(** The first build of [watch()] is not guarded. *)
Example watch_first_build_unguarded :
  watch Sample.css Sample.asset Sample.world_throwing ∅ = Throw "boom".
Proof. reflexivity. Qed.

(** * Further properties of the style build *)

(** ** The index: one directive per entry *)

Lemma filter_split_perm {A} (p : A -> bool) (l : list A) :
  List.filter p l ++ List.filter (fun x => negb (p x)) l ≡ₚ l.
Proof.
  induction l as [|x l IH]; [done|]. cbn [List.filter].
  destruct (p x); cbn [negb app].
  - by constructor.
  - rewrite <- Permutation_middle. by constructor.
Qed.

Lemma index_order_perm css entries : index_order css entries ≡ₚ entries.
Proof.
  unfold index_order. rewrite <- (Permutation_rev (List.filter (is_style css) entries)).
  apply filter_split_perm.
Qed.

(** What [distLess] does to the disk. *)
Lemma distLess_disk :
  forall css e fs,
    (forall p, p <> index_path css -> fs_after (distLess css e fs) !! p = fs !! p)
    /\ (distLess_entries css e <> [] -> signal (distLess css e fs) = Done ->
        fs_after (distLess css e fs) !! index_path css
        = Some (JS.join newline (distLess_texts css e (distLess_entries css e))))
    /\ (signal (distLess css e fs) <> Done -> fs_after (distLess css e fs) = fs)
    /\ fs_after (distLess css e (fs_after (distLess css e fs)))
       = fs_after (distLess css e fs).
Proof.
  intros css e fs. unfold distLess.
  destruct (distLess_entries css e) as [|x l] eqn:Hen; cbn [fs_after signal].
  { repeat split; try done. }
  destruct (write_error e (index_path css)) as [er|] eqn:Hw; cbn [fs_after signal].
  { repeat split; try done. }
  split; [|split; [|split]].
  - intros p Hp. by rewrite lookup_insert_ne.
  - intros _ _. by rewrite lookup_insert_eq.
  - done.
  - by rewrite insert_insert_eq.
Qed.

(** What [distCss] does to the disk. *)
Lemma distCss_disk :
  forall css asset e isDev fs,
    (forall p, p <> artifact_path css ->
               fs_after (distCss css asset e isDev fs) !! p = fs !! p)
    /\ (forall p c, In (Write p c) (events (distCss css asset e isDev fs)) ->
                    p = artifact_path css)
    /\ length (List.filter is_write (events (distCss css asset e isDev fs))) <= 1
    /\ (signal (distCss css asset e isDev fs) <> Done ->
        fs_after (distCss css asset e isDev fs) = fs).
Proof.
  intros css asset e isDev fs. unfold distCss, notify_end, notify_error, report.
  destruct (fs !! index_path css) as [raw|]; cbn [events signal fs_after].
  2: { destruct isDev; repeat split; try done; cbn; try lia;
         intros p c H; repeat (destruct H as [H|H]; [discriminate H|]); destruct H. }
  destruct (compiler css fs _) as [er|c].
  { destruct isDev; cbn [events signal fs_after]; repeat split; try done; cbn; try lia;
      intros p c H; repeat (destruct H as [H|H]; [discriminate H|]); destruct H. }
  destruct (artifact css asset e isDev (v_contents c)) as [er|out].
  { destruct isDev; cbn [events signal fs_after]; repeat split; try done; cbn; try lia;
      intros p c0 H; repeat (destruct H as [H|H]; [discriminate H|]); destruct H. }
  destruct (write_error e (artifact_path css)) as [er|]; destruct isDev;
    cbn [events signal fs_after app List.filter is_write length];
    (split; [intros p Hp; by rewrite ?lookup_insert_ne|]);
    (split; [intros p c0 H;
             repeat (destruct H as [H|H]; [try discriminate H; by injection H as <- _|]);
             destruct H|]);
    (split; [lia|]); done.
Qed.

(** X1.  The index holds exactly one directive for every matched entry:
    the directives are those of the entries, in another order, none left
    out and none twice. *)
Theorem distLess_one_directive_per_entry :
  forall css e entries,
    distLess_texts css e entries ≡ₚ map (import_text css e) entries
    /\ length (distLess_texts css e entries) = length entries.
Proof.
  intros css e entries. rewrite distLess_texts_order. split.
  - apply Permutation_map, index_order_perm.
  - rewrite length_map. apply Permutation_length, index_order_perm.
Qed.

(** ** The path of an entry under the ESM directory *)

Lemma indexOf_sapp_first c top rest :
  JS.indexOf c top = None ->
  JS.indexOf c (top +:+ String c rest) = Some (String.length top).
Proof.
  induction top as [|a top IH]; intros H.
  - rewrite sapp_nil_l. cbn [JS.indexOf]. by rewrite Ascii.eqb_refl.
  - rewrite sapp_cons. cbn [JS.indexOf String.length] in *.
    destruct (Ascii.eqb a c); [done|].
    destruct (JS.indexOf c top); [done|]. by rewrite IH.
Qed.

Lemma slice_last_snoc s c : JS.slice_last (s +:+ String c EmptyString) = String c EmptyString.
Proof.
  induction s as [|a s IH]; [done|]. rewrite sapp_cons. cbn [JS.slice_last].
  rewrite IH. by destruct s.
Qed.

Lemma slice_from_indexOf_first c top rest :
  JS.indexOf c top = None ->
  JS.slice_from_indexOf c (top +:+ String c rest) = String c rest.
Proof.
  intros H. unfold JS.slice_from_indexOf. rewrite indexOf_sapp_first by done.
  apply slice_sapp.
Qed.

(** X2.  [distLess] moves an entry under the ESM directory by cutting off
    its first directory: [top/rest] becomes [<es>/rest].  An entry without
    any slash has no first directory to cut; [indexOf] answers [-1] and
    only the last character of the entry is kept. *)
Theorem esEntry_drops_first_directory :
  forall css top rest c,
    JS.indexOf "/" top = None ->
    c <> "/"%char ->
    esEntry css (top +:+ "/" +:+ rest) = JS.toString (output_es css) +:+ "/" +:+ rest
    /\ esEntry css (top +:+ String c EmptyString)
       = JS.toString (output_es css) +:+ String c EmptyString.
Proof.
  intros css top rest c Htop Hc. unfold esEntry. split.
  - change (top +:+ "/" +:+ rest) with (top +:+ String "/" rest).
    by rewrite slice_from_indexOf_first.
  - unfold JS.slice_from_indexOf.
    rewrite indexOf_app_none; [by rewrite slice_last_snoc|done|].
    cbn [JS.indexOf]. by apply Ascii.eqb_neq in Hc as ->.
Qed.

Lemma esEntry_drops_first_directory_sample :
  esEntry Sample.css ("components" +:+ "/" +:+ "button/style/index.less")
  = JS.toString (output_es Sample.css) +:+ "/" +:+ "button/style/index.less"
  /\ esEntry Sample.css ("components" +:+ String "x" EmptyString)
     = JS.toString (output_es Sample.css) +:+ String "x" EmptyString.
Proof.
  apply (esEntry_drops_first_directory Sample.css "components" "button/style/index.less" "x");
    [reflexivity|discriminate].
Defined.

Lemma prefix_sapp_cancel a b c : String.prefix (a +:+ b) (a +:+ c) = String.prefix b c.
Proof.
  induction a as [|x a IH]; [done|]. rewrite !sapp_cons. cbn [String.prefix].
  by destruct (ascii_dec x x).
Qed.

(** X3.  Whether an entry counts as a style entry does not depend on the
    ESM directory configured: it is decided by what follows the first
    directory of the entry, which has to begin with [style].  The test is
    on characters, so [top/styles.less] counts as well, and an entry
    without a slash never does. *)
Theorem is_style_decided_by_entry :
  forall css css' top rest s,
    JS.indexOf "/" top = None ->
    JS.indexOf "/" s = None ->
    is_style css (top +:+ "/" +:+ rest) = String.prefix "style" rest
    /\ is_style css (top +:+ "/" +:+ rest) = is_style css' (top +:+ "/" +:+ rest)
    /\ is_style css s = false.
Proof.
  intros css css' top rest s Htop Hs.
  assert (H : forall c entry,
             is_style c entry = String.prefix "/style" (JS.slice_from_indexOf "/" entry)).
  { intros c entry. unfold is_style, esEntry, JS.startsWith. apply prefix_sapp_cancel. }
  rewrite !H. change (top +:+ "/" +:+ rest) with (top +:+ String "/" rest).
  rewrite slice_from_indexOf_first by done. split; [|split; [done|]].
  - cbn [String.prefix]. by destruct (ascii_dec "/" "/").
  - unfold JS.slice_from_indexOf. rewrite Hs.
    assert (L : forall t, JS.indexOf "/" t = None ->
                          String.prefix "/style" (JS.slice_last t) = false).
    { induction t as [|a t IH]; [done|]. cbn [JS.indexOf JS.slice_last].
      destruct (Ascii.eqb a "/") eqn:Ha; [done|].
      destruct (JS.indexOf "/" t) eqn:Ht; [done|]. intros _.
      destruct t as [|b t]; [|by apply IH].
      cbn [String.prefix]. destruct (ascii_dec "/" a) as [<-|]; [|done].
      discriminate Ha. }
    by apply L.
Qed.

Lemma is_style_decided_by_entry_sample :
  is_style Sample.css ("components" +:+ "/" +:+ "styles.less") = String.prefix "style" "styles.less"
  /\ is_style Sample.css ("components" +:+ "/" +:+ "styles.less")
     = is_style Sample2.css ("components" +:+ "/" +:+ "styles.less")
  /\ is_style Sample.css "index.less" = false.
Proof.
  apply (is_style_decided_by_entry Sample.css Sample2.css "components" "styles.less" "index.less");
    reflexivity.
Defined.

(** ** What distLess and distCss do to the disk *)

(** X4.  [distLess] touches the index file only: every other file is as
    before.  When it reports completion after matching something, the
    index holds the directives joined by newlines; and running it again
    leaves the disk as the first run did. *)
Theorem distLess_touches_only_the_index :
  forall css e fs,
    (forall p, p <> index_path css -> fs_after (distLess css e fs) !! p = fs !! p)
    /\ (distLess_entries css e <> [] -> signal (distLess css e fs) = Done ->
        fs_after (distLess css e fs) !! index_path css
        = Some (JS.join newline (distLess_texts css e (distLess_entries css e))))
    /\ (signal (distLess css e fs) <> Done -> fs_after (distLess css e fs) = fs)
    /\ fs_after (distLess css e (fs_after (distLess css e fs)))
       = fs_after (distLess css e fs).
Proof. exact distLess_disk. Qed.

(** X5.  Index and artifact in one run: after [distLess] has written the
    index for the entries it matched, the stream of [distCss] hands the
    compiler exactly that index.  When the compiler takes it and the disk
    takes the artifact, the artifact on disk is what the rewrite (and the
    minifier, outside dev mode) makes of the compiler's answer; when the
    minifier raises an error instead, [distCss] fails with it and the disk
    stays as [distLess] left it. *)
Theorem distCss_compiles_the_index_just_written :
  forall css asset e fs isDev compiled,
    distLess_entries css e <> [] ->
    write_error e (index_path css) = None ->
    compiler css (fs_after (distLess css e fs))
      (Vinyl (rawFileName (output_dist css))
             (JS.join newline
                (map (import_text css e) (index_order css (distLess_entries css e)))))
    = inr compiled ->
    write_error e (artifact_path css) = None ->
    match artifact css asset e isDev (v_contents compiled) with
    | inr out =>
        signal (distCss css asset e isDev (fs_after (distLess css e fs))) = Done
        /\ fs_after (distCss css asset e isDev (fs_after (distLess css e fs)))
             !! artifact_path css = Some out
        /\ In (Write (artifact_path css) out)
              (events (distCss css asset e isDev (fs_after (distLess css e fs))))
    | inl er =>
        signal (distCss css asset e isDev (fs_after (distLess css e fs))) = Failed er
        /\ fs_after (distCss css asset e isDev (fs_after (distLess css e fs)))
           = fs_after (distLess css e fs)
        /\ forall p c, ~ In (Write p c)
                            (events (distCss css asset e isDev (fs_after (distLess css e fs))))
    end.
Proof.
  intros css asset e fs isDev compiled Hen Hw Hc Hwa.
  destruct (distLess_disk css e fs) as (_ & Hidx & _ & _).
  assert (Hdone : signal (distLess css e fs) = Done).
  { unfold distLess. destruct (distLess_entries css e); [done|]. by rewrite Hw. }
  specialize (Hidx Hen Hdone). rewrite distLess_texts_order in Hidx.
  rewrite (distCss_compiled css asset e isDev _ _ compiled Hidx Hc), Hwa.
  destruct (artifact css asset e isDev (v_contents compiled)) as [er|out];
    cbn [signal fs_after events].
  - split; [done|]. split; [done|]. intros p c H.
    destruct isDev; [|done]. destruct H as [H|[]]. discriminate H.
  - split; [done|]. split; [by rewrite lookup_insert_eq|].
    apply in_or_app. right. by left.
Qed.

Lemma distCss_compiles_the_index_just_written_sample :
  signal (distCss Sample.css Sample.asset Sample.world false
            (fs_after (distLess Sample.css Sample.world ∅))) = Done
  /\ fs_after (distCss Sample.css Sample.asset Sample.world false
                 (fs_after (distLess Sample.css Sample.world ∅)))
       !! "dist/arco.css"
     = Some ("min(" +:+ directive "../asset/style/index.less" +:+ newline
               +:+ directive "../asset/button/style/index.less" +:+ ")")
  /\ In (Write "dist/arco.css"
           ("min(" +:+ directive "../asset/style/index.less" +:+ newline
              +:+ directive "../asset/button/style/index.less" +:+ ")"))
        (events (distCss Sample.css Sample.asset Sample.world false
                   (fs_after (distLess Sample.css Sample.world ∅)))).
Proof.
  exact (distCss_compiles_the_index_just_written
           Sample.css Sample.asset Sample.world ∅ false
           (Vinyl "index.less"
              (JS.join newline
                 (map (import_text Sample.css Sample.world)
                    (index_order Sample.css (distLess_entries Sample.css Sample.world)))))
           ltac:(discriminate) eq_refl eq_refl eq_refl).
Defined.

(** X6.  [notifyLessCompileResult], which [distCss] puts on the compiler
    stream in dev mode only: a compiler error is printed as "Failed to
    update style" and ends the stream, so that [distCss] finishes normally
    with nothing written; "Style updated" is printed exactly when the
    compiler raised no error, never together with the failure line.
    Outside dev mode neither line is ever printed. *)
Theorem notifyLessCompileResult_reports_one_outcome :
  forall css asset e fs,
    (In (Print Err ["[arco-scripts]"; "Failed to update style"])
        (events (distCss css asset e true fs))
     <-> exists raw er,
           fs !! index_path css = Some raw
           /\ compiler css fs (Vinyl (rawFileName (output_dist css)) raw) = inl er)
    /\ (In (Print Info ["[arco-scripts]"; "Style updated at " +:+ now e])
           (events (distCss css asset e true fs))
        <-> ~ In (Print Err ["[arco-scripts]"; "Failed to update style"])
                 (events (distCss css asset e true fs)))
    /\ (In (Print Err ["[arco-scripts]"; "Failed to update style"])
           (events (distCss css asset e true fs)) ->
        signal (distCss css asset e true fs) = Done
        /\ fs_after (distCss css asset e true fs) = fs)
    /\ ~ In (Print Err ["[arco-scripts]"; "Failed to update style"])
            (events (distCss css asset e false fs))
    /\ (forall msg, ~ In (Print Info msg) (events (distCss css asset e false fs))).
Proof.
  intros css asset e fs.
  assert (Hdev : events (distCss css asset e true fs)
                 = match fs !! index_path css with
                   | None => notify_end e
                   | Some raw =>
                       match compiler css fs (Vinyl (rawFileName (output_dist css)) raw) with
                       | inl er => notify_error er
                       | inr c =>
                           notify_end e
                           ++ match write_error e (artifact_path css) with
                              | Some er =>
                                  report "Failed to build css, error in dist all css" er
                              | None => [Write (artifact_path css)
                                           (rewritten css asset e (v_contents c))]
                              end
                       end
                   end).
  { unfold distCss. destruct (fs !! index_path css); [|done].
    destruct (compiler css fs _); [done|].
    change (artifact css asset e true (v_contents v))
      with (inr (rewritten css asset e (v_contents v)) : error + string).
    cbv iota beta. by destruct (write_error e (artifact_path css)). }
  assert (Hquiet : forall l (P : Prop),
             In (Print Err ["[arco-scripts]"; "Failed to update style"])
                (notify_end e
                 ++ match write_error e (artifact_path css) with
                    | Some er => report "Failed to build css, error in dist all css" er
                    | None => [Write (artifact_path css) l]
                    end) -> P).
  { intros l P H. unfold notify_end, report in H.
    destruct (write_error e (artifact_path css)); cbn [app In] in H;
      repeat (destruct H as [H|H]; [discriminate H|]); destruct H. }
  split; [|split; [|split; [|split]]].
  - rewrite Hdev. split.
    + destruct (fs !! index_path css) as [raw|]; [|intros [H|[]]; discriminate H].
      destruct (compiler css fs _) as [er|c] eqn:Hc; [intros _; by exists raw, er|].
      intros H. exact (Hquiet _ _ H).
    + intros (raw & er & -> & ->). by left.
  - rewrite Hdev.
    destruct (fs !! index_path css) as [raw|].
    2:{ split; [intros _ [H|[]]; discriminate H|]. intros _. by left. }
    destruct (compiler css fs _) as [er|c].
    + split; [intros [H|[H|[]]]; discriminate H|]. intros H. destruct H. by left.
    + split; [intros _ H; exact (Hquiet _ _ H)|]. intros _. by left.
  - intros H. rewrite Hdev in H. unfold distCss.
    destruct (fs !! index_path css) as [raw|]; [|destruct H as [H|[]]; discriminate H].
    destruct (compiler css fs _) as [er|c]; [done|]. exact (Hquiet _ _ H).
  - unfold distCss, report.
    destruct (fs !! index_path css) as [raw|]; [|intros []].
    destruct (compiler css fs _) as [er|c]; [intros []|].
    destruct (artifact css asset e false (v_contents c)); [intros []|].
    destruct (write_error e (artifact_path css)); cbn [events app];
      intros H; repeat (destruct H as [H|H]; [discriminate H|]); destruct H.
  - intros msg. unfold distCss, report.
    destruct (fs !! index_path css) as [raw|]; [|intros []].
    destruct (compiler css fs _) as [er|c]; [intros []|].
    destruct (artifact css asset e false (v_contents c)); [intros []|].
    destruct (write_error e (artifact_path css)); cbn [events app];
      intros H; repeat (destruct H as [H|H]; [discriminate H|]); destruct H.
Qed.

(** X7.  [distCss] writes at most one file, the artifact, and leaves every
    other file as it was; when it fails nothing on disk has changed. *)
Theorem distCss_touches_only_the_artifact :
  forall css asset e isDev fs,
    (forall p, p <> artifact_path css ->
               fs_after (distCss css asset e isDev fs) !! p = fs !! p)
    /\ (forall p c, In (Write p c) (events (distCss css asset e isDev fs)) ->
                    p = artifact_path css)
    /\ length (List.filter is_write (events (distCss css asset e isDev fs))) <= 1
    /\ (signal (distCss css asset e isDev fs) <> Done ->
        fs_after (distCss css asset e isDev fs) = fs).
Proof. exact distCss_disk. Qed.

(** ** The copy tasks *)

Lemma copyFileWatched_two css e fs d1 d2 :
  destDirs css = [d1; d2] ->
  copyFileWatched css e fs
  = let files := flat_map (fun pattern => gulp_src e fs [pattern] (watchBase css pattern))
                          (watch_globs css) in
    let first := accepted e d1 files in
    let second := accepted e d2 first in
    Result (writes_into d1 first ++ writes_into d2 second
            ++ match refused e d2 first with
               | Some er => report "Failed to build css, error in copying files" er
               | None => []
               end)
           (stored d2 second (stored d1 first fs))
           (match refused e d2 first with
            | Some er => Failed er
            | None => match refused e d1 files with
                      | Some _ => Never
                      | None => Done
                      end
            end).
Proof.
  intros Hdirs. unfold copyFileWatched. rewrite Hdirs. cbv zeta.
  cbn [map pipe_files]. rewrite !feed_dest. cbn [upstream final].
  set (files := flat_map _ (watch_globs css)).
  destruct (refused e d2 (accepted e d1 files)); [by rewrite <- app_assoc|].
  destruct (refused e d1 files); by rewrite app_nil_r.
Qed.

Lemma copyFileWatched_one css e fs d :
  destDirs css = [d] ->
  copyFileWatched css e fs
  = let files := flat_map (fun pattern => gulp_src e fs [pattern] (watchBase css pattern))
                          (watch_globs css) in
    Result (writes_into d (accepted e d files)
            ++ match refused e d files with
               | Some er => report "Failed to build css, error in copying files" er
               | None => []
               end)
           (stored d (accepted e d files) fs)
           (match refused e d files with
            | Some er => Failed er
            | None => Done
            end).
Proof.
  intros Hdirs. unfold copyFileWatched. rewrite Hdirs. cbv zeta.
  cbn [map pipe_files]. rewrite !feed_dest. cbn [upstream final].
  set (files := flat_map _ (watch_globs css)).
  destruct (refused e d files); by rewrite ?app_nil_r.
Qed.

(** X8.  [copyFileWatched] copies the watched sources as they are,
    directory by directory: the sources, in the order of the watch
    patterns, go into the first configured module-format directory up to
    the first the disk refuses, and what the first directory took goes on
    into the second.  When the disk refuses nothing, every source is
    written with its own contents under every directory and the promise is
    resolved.  When the last directory refuses a file, the listener prints
    the failure and the promise is rejected with the error.  When the first
    of two directories refuses a file and the second takes what it is
    handed, nothing is printed and the promise is never settled.  With no
    directory configured nothing is read or written and the task is done
    at once. *)
Theorem copyFileWatched_copies_verbatim :
  forall css e fs,
    let files := flat_map (fun pattern => gulp_src e fs [pattern] (watchBase css pattern))
                          (watch_globs css) in
    ((forall d, In d (destDirs css) -> refused e d files = None) ->
     events (copyFileWatched css e fs)
     = flat_map (fun d => writes_into d files) (destDirs css)
     /\ signal (copyFileWatched css e fs) = Done)
    /\ (forall d1 d2,
          destDirs css = [d1; d2] ->
          events (copyFileWatched css e fs)
          = writes_into d1 (accepted e d1 files)
            ++ writes_into d2 (accepted e d2 (accepted e d1 files))
            ++ match refused e d2 (accepted e d1 files) with
               | Some er => report "Failed to build css, error in copying files" er
               | None => []
               end
          /\ fs_after (copyFileWatched css e fs)
             = stored d2 (accepted e d2 (accepted e d1 files))
                 (stored d1 (accepted e d1 files) fs)
          /\ signal (copyFileWatched css e fs)
             = match refused e d2 (accepted e d1 files) with
               | Some er => Failed er
               | None => match refused e d1 files with
                         | Some _ => Never
                         | None => Done
                         end
               end)
    /\ (forall d,
          destDirs css = [d] ->
          events (copyFileWatched css e fs)
          = writes_into d (accepted e d files)
            ++ match refused e d files with
               | Some er => report "Failed to build css, error in copying files" er
               | None => []
               end
          /\ fs_after (copyFileWatched css e fs) = stored d (accepted e d files) fs
          /\ signal (copyFileWatched css e fs)
             = match refused e d files with
               | Some er => Failed er
               | None => Done
               end)
    /\ (destDirs css = [] -> copyFileWatched css e fs = Result [] fs Done).
Proof.
  intros css e fs files. split; [|split; [|split]].
  - intros Hok. destruct (destDirs_cases css) as [H0|[[d H1]|(d1 & d2 & H2)]].
    + unfold copyFileWatched. by rewrite H0.
    + rewrite (copyFileWatched_one css e fs d H1). cbv zeta. fold files.
      assert (Hd : refused e d files = None) by (apply Hok; rewrite H1; by left).
      rewrite H1, Hd, (accepted_all _ _ _ Hd). cbn [events signal flat_map].
      by rewrite !app_nil_r.
    + rewrite (copyFileWatched_two css e fs d1 d2 H2). cbv zeta. fold files.
      assert (Hd1 : refused e d1 files = None) by (apply Hok; rewrite H2; by left).
      assert (Hd2 : refused e d2 files = None)
        by (apply Hok; rewrite H2; right; by left).
      rewrite H2, Hd1, (accepted_all _ _ _ Hd1), Hd2, (accepted_all _ _ _ Hd2).
      cbn [events signal flat_map]. by rewrite !app_nil_r.
  - intros d1 d2 H2. by rewrite (copyFileWatched_two css e fs d1 d2 H2).
  - intros d H1. by rewrite (copyFileWatched_one css e fs d H1).
  - intros H0. unfold copyFileWatched. by rewrite H0.
Qed.

(** The CommonJS copy of the second source refused: the promise is
    rejected, with the ESM directory complete.  The ESM copy refused: the
    CommonJS directory still gets the file in front, and the promise
    stays pending. *)
Example copyFileWatched_sample_last_directory :
  copyFileWatched Sample.css Sample.world_copy_error ∅
  = Result [Write "es/button/style/index.less" ".btn{color:red}";
            Write "es/style/index.less" "@import 'theme';";
            Write "lib/button/style/index.less" ".btn{color:red}";
            Print Err ["[arco-scripts]"; "Failed to build css, error in copying files"];
            ConsoleError "EACCES"]
           (fs_after (copyFileWatched Sample.css Sample.world_copy_error ∅))
           (Failed "EACCES").
Proof. vm_compute. reflexivity. Qed.

Example copyFileWatched_sample_first_directory :
  copyFileWatched Sample.css Sample.world_esm_error ∅
  = Result [Write "es/button/style/index.less" ".btn{color:red}";
            Write "lib/button/style/index.less" ".btn{color:red}"]
           (fs_after (copyFileWatched Sample.css Sample.world_esm_error ∅))
           Never.
Proof. vm_compute. reflexivity. Qed.

Lemma copyAsset_eq asset e fs :
  copyAsset asset e fs
  = let files := gulp_src e fs (asset_entry asset) None in
    Result (writes_into (asset_output asset) (accepted e (asset_output asset) files))
           (stored (asset_output asset) (accepted e (asset_output asset) files) fs)
           (match refused e (asset_output asset) files with
            | Some er => Failed er
            | None => Done
            end).
Proof.
  unfold copyAsset. cbv zeta. cbn [pipe_files]. rewrite feed_dest.
  unfold stream_signal. cbn [upstream final]. reflexivity.
Qed.

(** X9.  [copyAsset] copies the assets as they are into the asset
    directory, in the order the source yields them, up to the first the
    disk refuses, and prints nothing: it has no listener of its own.  It is
    done exactly when the disk refuses none of the assets, and then every
    asset is copied; it fails exactly when a write fails, with that write's
    error and with the assets before the refused one copied.  Without
    assets it is done with no effect. *)
Theorem copyAsset_copies_verbatim :
  forall asset e fs,
    let files := gulp_src e fs (asset_entry asset) None in
    let taken := accepted e (asset_output asset) files in
    events (copyAsset asset e fs) = writes_into (asset_output asset) taken
    /\ fs_after (copyAsset asset e fs) = stored (asset_output asset) taken fs
    /\ (signal (copyAsset asset e fs) = Done <->
          Forall (fun v => write_error e (dest_path (asset_output asset) (v_relative v))
                           = None) files)
    /\ (signal (copyAsset asset e fs) = Done -> taken = files)
    /\ (forall er,
          signal (copyAsset asset e fs) = Failed er <->
          exists v rest,
            files = taken ++ v :: rest
            /\ write_error e (dest_path (asset_output asset) (v_relative v)) = Some er)
    /\ signal (copyAsset asset e fs) <> Never
    /\ (files = [] -> copyAsset asset e fs = Result [] fs Done).
Proof.
  intros asset e fs files taken. rewrite copyAsset_eq. cbv zeta. fold files. fold taken.
  cbn [events fs_after signal].
  split; [done|]. split; [done|]. split; [|split; [|split; [|split]]].
  - rewrite <- refused_none. by destruct (refused e (asset_output asset) files).
  - destruct (refused e (asset_output asset) files) eqn:Hr; [done|].
    intros _. by apply accepted_all.
  - intros er. split.
    + destruct (refused e (asset_output asset) files) as [er'|] eqn:Hr; [|done].
      intros [= ->]. by apply refused_error.
    + intros (v & rest & Hfiles & Hv).
      destruct (refused e (asset_output asset) files) as [er'|] eqn:Hr.
      * destruct (refused_error _ _ _ _ Hr) as (v' & rest' & Hfiles' & Hv').
        fold taken in Hfiles'. rewrite Hfiles in Hfiles' at 1.
        apply app_inv_head in Hfiles'. injection Hfiles' as <- _. congruence.
      * apply refused_none in Hr. rewrite List.Forall_forall in Hr.
        rewrite (Hr v) in Hv; [done|]. rewrite Hfiles. apply in_or_app. right. by left.
  - by destruct (refused e (asset_output asset) files).
  - intros Hnil. unfold taken. by rewrite Hnil.
Qed.

(** ** More on the rewrite of asset paths *)

Lemma occurs_prefix sub s : String.prefix sub s = true -> Rewrite.occurs sub s = true.
Proof. intros H. destruct s; cbn [Rewrite.occurs]; by rewrite H. Qed.

Lemma occurs_tail sub c s : Rewrite.occurs sub s = true -> Rewrite.occurs sub (String c s) = true.
Proof. intros H. cbn [Rewrite.occurs]. rewrite H. apply orb_true_r. Qed.

Lemma occurs_slice sub i s :
  Rewrite.occurs sub (JS.slice i s) = true -> Rewrite.occurs sub s = true.
Proof.
  revert s. induction i as [|i IH]; intros s; [done|].
  destruct s as [|c s]; [done|]. cbn [JS.slice]. intros H. by apply occurs_tail, IH.
Qed.

Lemma more_turns_occurs name s n :
  Rewrite.more_turns name s = Some n -> Rewrite.occurs name s = true.
Proof.
  remember (String.length s) as len eqn:Hlen. revert s n Hlen.
  induction len as [len IH] using lt_wf_ind. intros s n ->.
  assert (Hthen : forall m, Rewrite.then_name name s = Some m -> Rewrite.occurs name s = true).
  { intros m. unfold Rewrite.then_name. destruct (String.prefix name s) eqn:Hp; [|done].
    intros _. by apply occurs_prefix. }
  destruct s as [|a [|b [|c rest]]]; cbn [Rewrite.more_turns]; try apply Hthen.
  destruct (Rewrite.turn a b c); [|apply Hthen].
  destruct (Rewrite.more_turns name rest) as [n'|] eqn:Hr; [|apply Hthen].
  intros _. do 3 apply occurs_tail.
  apply (IH (String.length rest)) with (s := rest) (n := n');
    [cbn [String.length]; lia|done|done].
Qed.

Lemma match_at_occurs name s n :
  Rewrite.match_at name s = Some n -> Rewrite.occurs name s = true.
Proof.
  destruct s as [|a [|b [|c rest]]]; cbn [Rewrite.match_at]; try done.
  destruct (Rewrite.turn a b c); [|done].
  destruct (Rewrite.more_turns name rest) as [n'|] eqn:Hr; [|done].
  intros _. do 3 apply occurs_tail. by apply more_turns_occurs in Hr.
Qed.

(** X10.  For a name of the ESM directory without pattern characters and
    a replacement without dollar sign: a compiled style sheet in which the
    name of the ESM directory does not occur comes out of the rewrite
    unchanged. *)
Theorem rewritten_unchanged_without_the_name :
  forall css asset e s,
    Rewrite.plain_name (JS.toString (output_es css)) = true ->
    Rewrite.no_dollar (rewrite_to css asset e) = true ->
    Rewrite.occurs (JS.toString (output_es css)) s = false ->
    rewritten css asset e s = s.
Proof.
  intros css asset e s Hplain Hdollar H. rewrite rewritten_plain by done.
  rewrite <- (sapp_nil_r s) at 1. rewrite replace_keep; [by rewrite sapp_nil_r|].
  intros i _. rewrite sapp_nil_r.
  destruct (Rewrite.match_at _ (JS.slice i s)) eqn:Hm; [|done].
  apply match_at_occurs, occurs_slice in Hm. congruence.
Qed.

Lemma rewritten_unchanged_without_the_name_sample :
  rewritten Sample.css Sample.asset Sample.world ".a{background:url(../img/x.png)}"
  = ".a{background:url(../img/x.png)}".
Proof.
  apply (rewritten_unchanged_without_the_name Sample.css Sample.asset Sample.world);
    reflexivity.
Defined.

Lemma prefix_line name s b :
  JS.indexOf (ascii_of_nat 10) name = None ->
  String.prefix name (s +:+ String (ascii_of_nat 10) b) = String.prefix name s.
Proof.
  revert name. induction s as [|x s IH]; intros [|a name] H; try reflexivity.
  - rewrite sapp_nil_l. cbn [String.prefix JS.indexOf] in *.
    destruct (ascii_dec a (ascii_of_nat 10)) as [->|]; [|done].
    by rewrite Ascii.eqb_refl in H.
  - rewrite sapp_cons. cbn [String.prefix]. destruct (ascii_dec a x); [|done].
    apply IH. cbn [JS.indexOf] in H. destruct (Ascii.eqb a (ascii_of_nat 10)); [done|].
    by destruct (JS.indexOf (ascii_of_nat 10) name).
Qed.

Lemma then_name_line name s b :
  JS.indexOf (ascii_of_nat 10) name = None ->
  Rewrite.then_name name (s +:+ String (ascii_of_nat 10) b) = Rewrite.then_name name s.
Proof. intros H. unfold Rewrite.then_name. by rewrite prefix_line. Qed.

Lemma turn_line_1 b c : Rewrite.turn (ascii_of_nat 10) b c = false.
Proof. reflexivity. Qed.

Lemma turn_line_2 a c : Rewrite.turn a (ascii_of_nat 10) c = false.
Proof. unfold Rewrite.turn. change (Rewrite.dot (ascii_of_nat 10)) with false. by rewrite andb_false_r. Qed.

Lemma turn_line_3 a b : Rewrite.turn a b (ascii_of_nat 10) = false.
Proof. unfold Rewrite.turn. change (Ascii.eqb (ascii_of_nat 10) "/") with false. by rewrite andb_false_r. Qed.

Lemma more_turns_line name b :
  JS.indexOf (ascii_of_nat 10) name = None ->
  forall s,
    Rewrite.more_turns name (s +:+ String (ascii_of_nat 10) b) = Rewrite.more_turns name s.
Proof.
  intros Hname s. remember (String.length s) as len eqn:Hlen. revert s Hlen.
  induction len as [len IH] using lt_wf_ind. intros s ->.
  pose proof (then_name_line name s b Hname) as Hthen.
  destruct s as [|x [|y [|z rest]]].
  - rewrite sapp_nil_l in *. cbn [Rewrite.more_turns].
    destruct b as [|b1 [|b2 b]];
      first [exact Hthen | rewrite turn_line_1; exact Hthen].
  - change (String x "" +:+ String (ascii_of_nat 10) b)
      with (String x (String (ascii_of_nat 10) b)) in *.
    cbn [Rewrite.more_turns].
    destruct b as [|b1 b]; first [exact Hthen | rewrite turn_line_2; exact Hthen].
  - change (String x (String y "") +:+ String (ascii_of_nat 10) b)
      with (String x (String y (String (ascii_of_nat 10) b))) in *.
    cbn [Rewrite.more_turns]. first [exact Hthen | rewrite turn_line_3; exact Hthen].
  - change (String x (String y (String z rest)) +:+ String (ascii_of_nat 10) b)
      with (String x (String y (String z (rest +:+ String (ascii_of_nat 10) b)))) in *.
    cbn [Rewrite.more_turns].
    rewrite (IH (String.length rest)) by (cbn [String.length]; lia || done).
    by rewrite Hthen.
Qed.

Lemma match_at_line name b s :
  JS.indexOf (ascii_of_nat 10) name = None ->
  Rewrite.match_at name (s +:+ String (ascii_of_nat 10) b) = Rewrite.match_at name s.
Proof.
  intros Hname. destruct s as [|x [|y [|z rest]]].
  - rewrite sapp_nil_l. cbn [Rewrite.match_at].
    destruct b as [|b1 [|b2 b]]; first [reflexivity | by rewrite turn_line_1].
  - change (String x "" +:+ String (ascii_of_nat 10) b)
      with (String x (String (ascii_of_nat 10) b)).
    cbn [Rewrite.match_at].
    destruct b as [|b1 b]; first [reflexivity | by rewrite turn_line_2].
  - change (String x (String y "") +:+ String (ascii_of_nat 10) b)
      with (String x (String y (String (ascii_of_nat 10) b))).
    cbn [Rewrite.match_at]. first [reflexivity | by rewrite turn_line_3].
  - change (String x (String y (String z rest)) +:+ String (ascii_of_nat 10) b)
      with (String x (String y (String z (rest +:+ String (ascii_of_nat 10) b)))).
    cbn [Rewrite.match_at]. by rewrite more_turns_line.
Qed.

Lemma replace_go_line name to b :
  JS.indexOf (ascii_of_nat 10) name = None ->
  forall s k,
    k <= String.length s ->
    Rewrite.replace_go name to k (s +:+ String (ascii_of_nat 10) b)
    = Rewrite.replace_go name to k s
        +:+ String (ascii_of_nat 10) (Rewrite.replace name to b).
Proof.
  intros Hname. induction s as [|c s IH]; intros k Hk.
  - cbn [String.length] in Hk. assert (k = 0) as -> by lia.
    rewrite sapp_nil_l. cbn [Rewrite.replace_go].
    assert (Rewrite.match_at name (String (ascii_of_nat 10) b) = None) as ->.
    { destruct b as [|b1 [|b2 b]]; reflexivity. }
    reflexivity.
  - rewrite sapp_cons. cbn [Rewrite.replace_go String.length] in *.
    destruct k as [|k]; [|apply IH; lia].
    rewrite <- sapp_cons, match_at_line by done.
    destruct (Rewrite.match_at name (String c s)) as [n|] eqn:Hm.
    + apply match_at_bounds in Hm. cbn [String.length] in Hm.
      rewrite IH by lia. by rewrite sapp_assoc.
    + rewrite IH by lia. reflexivity.
Qed.

(** X11.  For a name of the ESM directory without pattern characters and
    without a line feed, and a replacement without dollar sign: the rewrite
    works line by line.  No match reaches across a line feed, so rewriting
    a style sheet is rewriting each of its lines. *)
Theorem rewritten_line_by_line :
  forall css asset e a b,
    Rewrite.plain_name (JS.toString (output_es css)) = true ->
    Rewrite.no_dollar (rewrite_to css asset e) = true ->
    JS.indexOf (ascii_of_nat 10) (JS.toString (output_es css)) = None ->
    rewritten css asset e (a +:+ newline +:+ b)
    = rewritten css asset e a +:+ newline +:+ rewritten css asset e b.
Proof.
  intros css asset e a b Hplain Hdollar H. rewrite !rewritten_plain by done.
  unfold Rewrite.replace. apply (replace_go_line _ _ b H a 0). lia.
Qed.

Lemma rewritten_line_by_line_sample :
  rewritten Sample.css Sample.asset Sample.world
    (".a{b:url(../es/x.png)}" +:+ newline +:+ ".c{d:url(../../es/y.png)}")
  = rewritten Sample.css Sample.asset Sample.world ".a{b:url(../es/x.png)}"
    +:+ newline +:+ rewritten Sample.css Sample.asset Sample.world ".c{d:url(../../es/y.png)}".
Proof.
  apply (rewritten_line_by_line Sample.css Sample.asset Sample.world); reflexivity.
Defined.

(** ** Which tasks a run starts *)

Lemma no_start_in_work name task (body : list effect) c :
  ~ In (Start name) (map Effect body ++ settle task c).
Proof.
  intros H. apply in_app_iff in H as [H|H];
    [by apply in_start_effects in H|by apply in_start_settle in H].
Qed.

Lemma in_start_leaf name task (body : list effect) c :
  In (Start name) (Start task :: map Effect body ++ settle task c) <-> name = task.
Proof.
  split.
  - intros [[= ->]|H]; [done|]. by apply no_start_in_work in H.
  - intros ->. by left.
Qed.

(** X12.  The first stage of [build()] starts all four of its tasks
    whatever any of them does: a task is not held back or cancelled by the
    failure of another.  The second stage, [distLess] and [distCss], is
    started exactly when all four have signalled completion. *)
Theorem build_first_stage_starts_every_task :
  forall css asset e fs,
    call_fault e = None ->
    Forall (fun name => In (Start name) (built_events (build css asset e fs)))
           ["copyAsset"; "copyFileWatched"; "compileLess"; "handleStyleJSEntry"]
    /\ (In (Start "distLess") (built_events (build css asset e fs))
        <-> Forall (eq Done) (stage1_signals css asset e fs))
    /\ (In (Start "distCss") (built_events (build css asset e fs))
        <-> Forall (eq Done) (stage1_signals css asset e fs)).
Proof.
  intros css asset e fs Hcall.
  assert (Hev : built_events (build css asset e fs)
                = events (run (buildGraph css asset e) fs)).
  { unfold build, call. by rewrite Hcall. }
  rewrite Hev, run_buildGraph_events.
  assert (Hsig : signal (run (buildStage1 css asset e) fs) = Done
                 <-> Forall (eq Done) (stage1_signals css asset e fs)).
  { rewrite run_buildStage1_signal. unfold stage1_signals. cbv zeta.
    rewrite !both_done. split.
    - intros (-> & -> & -> & -> & _). repeat constructor.
    - intros H. inversion H as [|? ? <- Ha]. inversion Ha as [|? ? <- Hb].
      inversion Hb as [|? ? <- Hc]. inversion Hc as [|? ? <- Hd]. done. }
  assert (H1 : forall name,
             In (Start name) (events (run (buildStage1 css asset e) fs))
             <-> In name ["copyAsset"; "copyFileWatched"; "compileLess"; "handleStyleJSEntry"]).
  { intros name. rewrite run_buildStage1_events. cbv zeta.
    rewrite !in_app_iff. cbn [In]. split.
    - intros [H|[H|[H|[H|H]]]];
        [intuition congruence|apply in_or_app in H; by apply no_start_in_work in H..].
    - intros H. left. intuition congruence. }
  assert (H2 : forall name fs1,
             In (Start name) (events (run (buildStage2 css asset e) fs1))
             <-> name = "distLess" \/ name = "distCss").
  { intros name fs1. rewrite run_buildStage2_events. cbv zeta.
    rewrite !in_app_iff. cbn [In]. split.
    - intros [H|[H|H]];
        [intuition congruence|apply in_or_app in H; by apply no_start_in_work in H..].
    - intros H. left. intuition congruence. }
  split; [|split].
  - repeat (apply List.Forall_cons;
            [apply in_or_app; left; apply H1; cbn [In]; auto 6|]).
    apply List.Forall_nil.
  - rewrite <- Hsig, in_app_iff, H1. cbn [In].
    destruct (signal (run (buildStage1 css asset e) fs)) eqn:Hs.
    + rewrite in_app_iff, H2. intuition congruence.
    + cbn [In]. intuition congruence.
    + cbn [In]. intuition congruence.
  - rewrite <- Hsig, in_app_iff, H1. cbn [In].
    destruct (signal (run (buildStage1 css asset e) fs)) eqn:Hs.
    + rewrite in_app_iff, H2. intuition congruence.
    + cbn [In]. intuition congruence.
    + cbn [In]. intuition congruence.
Qed.

Lemma build_first_stage_starts_every_task_sample :
  Forall (fun name =>
            In (Start name)
               (built_events (build Sample.css Sample.asset Sample.world_copy_error ∅)))
         ["copyAsset"; "copyFileWatched"; "compileLess"; "handleStyleJSEntry"]
  /\ (In (Start "distLess")
         (built_events (build Sample.css Sample.asset Sample.world_copy_error ∅))
      <-> Forall (eq Done) (stage1_signals Sample.css Sample.asset Sample.world_copy_error ∅))
  /\ (In (Start "distCss")
         (built_events (build Sample.css Sample.asset Sample.world_copy_error ∅))
      <-> Forall (eq Done) (stage1_signals Sample.css Sample.asset Sample.world_copy_error ∅)).
Proof.
  apply (build_first_stage_starts_every_task
           Sample.css Sample.asset Sample.world_copy_error ∅).
  reflexivity.
Defined.

(** X13.  In the fast build of [watch()] the asset copy runs beside the
    series and does not gate it: [copyAsset] and [copyFileWatched] are
    always started, [distLess] is started exactly when [copyFileWatched]
    has completed, and the artifact step exactly when [distLess] has
    completed as well, whatever has become of [copyAsset]. *)
Theorem fastBuild_series_gates_on_copy_only :
  forall css asset e fs,
    In (Start "copyAsset") (events (run (fastBuild css asset e) fs))
    /\ In (Start "copyFileWatched") (events (run (fastBuild css asset e) fs))
    /\ (In (Start "distLess") (events (run (fastBuild css asset e) fs))
        <-> signal (copyFileWatched css e (fs_after (copyAsset asset e fs))) = Done)
    /\ (In (Start "<anonymous>") (events (run (fastBuild css asset e) fs))
        <-> signal (copyFileWatched css e (fs_after (copyAsset asset e fs))) = Done
            /\ signal (distLess css e
                         (fs_after (copyFileWatched css e
                                      (fs_after (copyAsset asset e fs))))) = Done).
Proof.
  intros css asset e fs. rewrite run_fastBuild_events. cbv zeta.
  split; [by left|]. split; [right; by left|].
  assert (Hhead : forall name tail,
             name <> "copyAsset" -> name <> "copyFileWatched" ->
             (In (Start name)
                 ([Start "copyAsset"; Start "copyFileWatched"]
                  ++ (map Effect (events (copyAsset asset e fs))
                      ++ settle "copyAsset" (signal (copyAsset asset e fs)))
                  ++ (map Effect (events (copyFileWatched css e
                                            (fs_after (copyAsset asset e fs))))
                      ++ settle "copyFileWatched"
                           (signal (copyFileWatched css e
                                      (fs_after (copyAsset asset e fs)))))
                  ++ tail)
              <-> In (Start name) tail)).
  { intros name tail H1 H2. rewrite !in_app_iff. cbn [In]. split.
    - intros [[H|[H|[]]]|[H|[H|H]]]; [congruence|congruence| | |done];
        apply in_or_app in H; by apply no_start_in_work in H.
    - intros H. right. right. by right. }
  split.
  - rewrite Hhead by discriminate.
    destruct (signal (copyFileWatched css e _)) eqn:Hc.
    + rewrite in_app_iff, in_start_leaf. intuition.
    + cbn [In]. intuition congruence.
    + cbn [In]. intuition congruence.
  - rewrite Hhead by discriminate.
    destruct (signal (copyFileWatched css e _)) eqn:Hc.
    + rewrite in_app_iff, in_start_leaf.
      destruct (signal (distLess css e _)) eqn:Hd.
      * cbn [In]. intuition.
      * cbn [In]. intuition congruence.
      * cbn [In]. intuition congruence.
    + cbn [In]. intuition congruence.
    + cbn [In]. intuition congruence.
Qed.

(** ** Where the fast build writes *)

(** What the fast build does is what its four task functions do. *)
Lemma fastBuild_effects css asset e fs ef :
  In (Effect ef) (events (run (fastBuild css asset e) fs)) ->
  (exists fs0, In ef (events (copyAsset asset e fs0)))
  \/ (exists fs0, In ef (events (copyFileWatched css e fs0)))
  \/ (exists fs0, In ef (events (distLess css e fs0)))
  \/ (exists fs0, In ef (events (distCss css asset e true fs0))).
Proof.
  rewrite run_fastBuild_events. cbv zeta.
  assert (Hwork : forall name (body : result effect),
             In (Effect ef) (map Effect (events body) ++ settle name (signal body)) ->
             In ef (events body)).
  { intros name body H. apply in_app_iff in H as [H|H].
    - apply in_map_iff in H as (x & [= ->] & H). exact H.
    - destruct (signal body); cbn [settle In] in H; try done;
        destruct H as [H|[]]; discriminate H. }
  intros H. apply in_app_iff in H as [H|H].
  { repeat (destruct H as [H|H]; [discriminate H|]). destruct H. }
  apply in_app_iff in H as [H|H]; [left; eexists; eapply Hwork, H|].
  apply in_app_iff in H as [H|H]; [right; left; eexists; eapply Hwork, H|].
  destruct (signal (copyFileWatched css e _)); [|done..].
  apply in_app_iff in H as [H|H].
  { destruct H as [H|H]; [discriminate H|]. right; right; left. eexists. eapply Hwork, H. }
  destruct (signal (distLess css e _)); [|done..].
  destruct H as [H|H]; [discriminate H|].
  apply in_map_iff in H as (x & [= ->] & H). right; right; right. by eexists.
Qed.

(** X14.  The fast build writes at the configured output locations only:
    under the asset directory, under the module-format directories, the
    index file and the artifact. *)
Theorem fastBuild_writes_only_outputs :
  forall css asset e fs p c,
    In (Effect (Write p c)) (events (run (fastBuild css asset e) fs)) ->
    output_location css asset p.
Proof.
  intros css asset e fs p c H.
  set (P := fun ef : effect => forall p c, ef = Write p c -> output_location css asset p).
  assert (Hrep : forall what er, Forall P (report what er)).
  { intros what er. unfold report.
    constructor; [intros p0 c0 H0; discriminate H0|].
    constructor; [intros p0 c0 H0; discriminate H0|]. constructor. }
  apply fastBuild_effects in H as [[fs0 H]|[[fs0 H]|[[fs0 H]|[fs0 H]]]].
  - assert (Hall : Forall P (events (copyAsset asset e fs0))).
    { apply copyAsset_events. intros v p0 c0 [= <- _].
      right. right. exists (asset_output asset), (v_relative v). auto. }
    rewrite List.Forall_forall in Hall. exact (Hall _ H p c eq_refl).
  - assert (Hall : Forall P (events (copyFileWatched css e fs0))).
    { apply copyFileWatched_events; [|apply Hrep]. intros d v Hd p0 c0 [= <- _].
      right. right. exists d, (v_relative v). auto. }
    rewrite List.Forall_forall in Hall. exact (Hall _ H p c eq_refl).
  - revert H. unfold distLess. destruct (distLess_entries css e); [done|].
    destruct (write_error e (index_path css)); [done|].
    intros [[= <- _]|[]]. by left.
  - destruct (distCss_disk css asset e true fs0) as (_ & Hw & _).
    right. left. by apply (Hw p c).
Qed.

Lemma fastBuild_writes_only_outputs_sample :
  output_location Sample.css Sample.asset "dist/arco.css".
Proof.
  apply (fastBuild_writes_only_outputs Sample.css Sample.asset Sample.world ∅
           "dist/arco.css"
           (rewritten Sample.css Sample.asset Sample.world
              (JS.join newline
                 (distLess_texts Sample.css Sample.world
                    (distLess_entries Sample.css Sample.world))))).
  vm_compute. repeat (first [left; reflexivity | right]).
Defined.

(** ** Project creation: the name and the version of a template *)

Lemma split_not_nil sep s : Init.split sep s <> [].
Proof.
  destruct s as [|a s]; cbn; [discriminate|].
  destruct (Ascii.eqb a sep); [discriminate|].
  destruct (Init.split sep s); discriminate.
Qed.

Lemma split_whole sep s : JS.indexOf sep s = None -> Init.split sep s = [s].
Proof.
  induction s as [|a s IH]; cbn; [reflexivity|].
  destruct (Ascii.eqb a sep); [discriminate|].
  destruct (JS.indexOf sep s); [discriminate|].
  intros _. rewrite IH by reflexivity. reflexivity.
Qed.

Lemma split_first sep a b :
  JS.indexOf sep a = None ->
  Init.split sep (a +:+ String sep b) = a :: Init.split sep b.
Proof.
  induction a as [|x a IH]; intros H.
  - rewrite sapp_nil_l. cbn. rewrite Ascii.eqb_refl. reflexivity.
  - cbn in H. rewrite sapp_cons. cbn.
    destruct (Ascii.eqb x sep); [discriminate|].
    destruct (JS.indexOf sep a); [discriminate|].
    rewrite IH by reflexivity. reflexivity.
Qed.

Lemma match_some_then_at_found s y :
  s <> EmptyString -> Init.one_line s = true ->
  Init.match_some_then_at (s +:+ String "@" y) = true.
Proof.
  induction s as [|c s IH]; intros Hne Hline; [congruence|].
  cbn in Hline. apply andb_prop in Hline as [Hc Hs].
  destruct s as [|d s].
  - rewrite sapp_cons, sapp_nil_l. cbn. rewrite Hc. reflexivity.
  - rewrite sapp_cons.
    assert (IH' := IH ltac:(discriminate) Hs).
    rewrite sapp_cons in IH' |- *.
    change (Init.match_some_then_at (String c (String d (s +:+ String "@" y))))
      with ((Rewrite.dot c && Ascii.eqb d "@")
            || Init.match_some_then_at (String d (s +:+ String "@" y))).
    rewrite IH'. apply orb_true_r.
Qed.

Lemma match_some_then_at_none s :
  JS.indexOf "@" (JS.slice 1 s) = None -> Init.match_some_then_at s = false.
Proof.
  destruct s as [|a s]; [reflexivity|].
  change (JS.slice 1 (String a s)) with s.
  revert a. induction s as [|b s IH]; intros a H; [reflexivity|].
  cbn in H.
  destruct (Ascii.eqb b "@") eqn:Eb; [discriminate|].
  destruct (JS.indexOf "@" s) eqn:Ei; [discriminate|].
  change (Init.match_some_then_at (String a (String b s)))
    with ((Rewrite.dot a && Ascii.eqb b "@") || Init.match_some_then_at (String b s)).
  rewrite Eb, andb_false_r. cbn [orb]. apply IH. reflexivity.
Qed.

(** X15.  A template given as [name@version], where the name has no [@]
    behind its first character and no line break: the name comes back
    whole.  The version is the text behind the [@] when the name is not
    scoped; for a scoped name ([@scope/pkg@1.0.0]) it is the name without
    its leading [@], since the version is the second piece of the string
    cut at every [@]. *)
Theorem getPackageInfo_name_at_version
    (require_package : string -> thrown Init.packageInfo)
    (c : ascii) (name version : string) :
  JS.indexOf "@" name = None ->
  JS.indexOf "@" version = None ->
  Init.one_line (String c name) = true ->
  Init.getPackageInfo require_package (String c name +:+ "@" +:+ version)
  = Ret (Init.PackageInfo (Some (String c name))
           (Some (if Ascii.eqb c "@" then name else version))).
Proof.
  intros Hname Hversion Hline.
  assert (Hs : String c name +:+ "@" +:+ version
               = String c (name +:+ String "@" version)).
  { rewrite sapp_cons. f_equal. }
  unfold Init.getPackageInfo.
  replace (Init.match_some_then_at (String c name +:+ "@" +:+ version)) with true.
  2:{ symmetry.
      change ("@" +:+ version) with (String "@" version).
      apply match_some_then_at_found; [discriminate|exact Hline]. }
  rewrite Hs.
  change (JS.slice 1 (String c (name +:+ String "@" version)))
    with (name +:+ String "@" version).
  rewrite (split_first "@" name version Hname).
  cbn [hd Init.charAt0].
  rewrite sapp_cons, sapp_nil_l.
  do 2 f_equal.
  cbn [Init.split].
  rewrite (split_first "@" name version Hname), (split_whole "@" version Hversion).
  destruct (Ascii.eqb c "@"); reflexivity.
Qed.

Lemma getPackageInfo_name_at_version_sample :
  Init.getPackageInfo (fun _ => Throw "MODULE_NOT_FOUND") "@arco-design/web-react@2.0.0"
  = Ret (Init.PackageInfo (Some "@arco-design/web-react") (Some "arco-design/web-react")).
Proof.
  apply (getPackageInfo_name_at_version (fun _ => Throw "MODULE_NOT_FOUND")
           "@" "arco-design/web-react" "2.0.0"); reflexivity.
Defined.

(** X16.  A template with no [@] behind its first character that does not
    start with [file:] is a bare package name, scoped or not: it is the
    name, and there is no version. *)
Theorem getPackageInfo_bare_name
    (require_package : string -> thrown Init.packageInfo) (installPackage : string) :
  JS.indexOf "@" (JS.slice 1 installPackage) = None ->
  String.prefix "file:" installPackage = false ->
  Init.getPackageInfo require_package installPackage
  = Ret (Init.PackageInfo (Some installPackage) None).
Proof.
  intros Hat Hfile. unfold Init.getPackageInfo.
  rewrite (match_some_then_at_none _ Hat), Hfile. reflexivity.
Qed.

Lemma getPackageInfo_bare_name_sample :
  Init.getPackageInfo (fun _ => Throw "MODULE_NOT_FOUND") "@arco-design/web-react"
  = Ret (Init.PackageInfo (Some "@arco-design/web-react") None).
Proof.
  apply getPackageInfo_bare_name; reflexivity.
Defined.

(** X17.  A [file:] template with no [@] in its path: the name and the
    version are those of the [package.json] in that directory, and the call
    throws what reading it throws.  With an empty path, or a line break in
    the path, the call throws before reading anything. *)
Theorem getPackageInfo_local_directory
    (require_package : string -> thrown Init.packageInfo) (dir : string) :
  JS.indexOf "@" dir = None ->
  Init.getPackageInfo require_package ("file:" +:+ dir)
  = if Init.one_line dir && negb (String.eqb dir EmptyString)
    then require_package dir
    else Throw "TypeError".
Proof.
  intros Hat. unfold Init.getPackageInfo.
  rewrite match_some_then_at_none.
  2:{ change (JS.slice 1 ("file:" +:+ dir)) with ("ile:" +:+ dir).
      apply indexOf_app_none; [reflexivity|exact Hat]. }
  rewrite prefix_sapp. unfold Init.file_path.
  change (JS.slice 5 ("file:" +:+ dir)) with dir.
  destruct (Init.one_line dir); [|reflexivity].
  destruct dir; reflexivity.
Qed.

Lemma getPackageInfo_local_directory_sample :
  Init.getPackageInfo
    (fun dir => Ret (Init.PackageInfo (Some dir) (Some "0.1.0"))) "file:../template"
  = Ret (Init.PackageInfo (Some "../template") (Some "0.1.0")).
Proof.
  apply (getPackageInfo_local_directory
           (fun dir => Ret (Init.PackageInfo (Some dir) (Some "0.1.0"))) "../template").
  reflexivity.
Defined.

(** ** Project creation: the ignore file *)

(** X18.  When [addGitIgnore] returns, the template's [gitignore] is gone;
    what it held now ends [.gitignore], behind what [.gitignore] held
    before, if anything; every other file is as it was.  Without a
    [gitignore] nothing changes. *)
Theorem addGitIgnore_merges_the_template_file (fs fs' : gmap string string) :
  Init.addGitIgnore fs = Ret fs' ->
  fs' !! "gitignore" = None
  /\ (forall data, fs !! "gitignore" = Some data ->
        fs' !! ".gitignore" = Some (default EmptyString (fs !! ".gitignore") +:+ data))
  /\ (fs !! "gitignore" = None -> fs' = fs)
  /\ (forall p, p <> ".gitignore" -> p <> "gitignore" -> fs' !! p = fs !! p).
Proof.
  unfold Init.addGitIgnore. intros H.
  destruct (fs !! ".gitignore") as [old|] eqn:Eold;
    destruct (fs !! "gitignore") as [data|] eqn:Edata;
    try discriminate; injection H as <-.
  - split; [apply lookup_delete_eq|].
    split; [|split; [discriminate|]].
    + intros d [= <-]. rewrite lookup_delete_ne by discriminate.
      rewrite lookup_insert_eq. reflexivity.
    + intros p Hp Hq. rewrite lookup_delete_ne by congruence.
      rewrite lookup_insert_ne by congruence. reflexivity.
  - split; [apply lookup_delete_eq|].
    split; [|split; [discriminate|]].
    + intros d [= <-]. rewrite lookup_delete_ne by discriminate.
      rewrite lookup_insert_eq. reflexivity.
    + intros p Hp Hq. rewrite lookup_delete_ne by congruence.
      rewrite lookup_insert_ne by congruence. reflexivity.
  - split; [exact Edata|].
    split; [discriminate|]. split; reflexivity.
Qed.

Lemma addGitIgnore_merges_the_template_file_sample :
  Init.addGitIgnore {[".gitignore" := "dist"; "gitignore" := "node_modules"]}
  = Ret (delete "gitignore"
           (<[".gitignore" := "distnode_modules"]>
              {[".gitignore" := "dist"; "gitignore" := "node_modules"]}))
  /\ delete "gitignore"
       (<[".gitignore" := "distnode_modules"]>
          ({[".gitignore" := "dist"; "gitignore" := "node_modules"]} : gmap string string))
     !! "gitignore" = None.
Proof.
  split; [reflexivity|].
  apply (addGitIgnore_merges_the_template_file
           {[".gitignore" := "dist"; "gitignore" := "node_modules"]}).
  reflexivity.
Defined.

(** X19.  [addGitIgnore] throws exactly when there is a [.gitignore] and no
    [gitignore] to read.  So a second call, after one that left a
    [.gitignore], throws. *)
Theorem addGitIgnore_throws_without_the_template_file (fs : gmap string string) :
  ((exists er, Init.addGitIgnore fs = Throw er)
   <-> is_Some (fs !! ".gitignore") /\ fs !! "gitignore" = None)
  /\ (forall fs', Init.addGitIgnore fs = Ret fs' -> is_Some (fs' !! ".gitignore") ->
        exists er, Init.addGitIgnore fs' = Throw er).
Proof.
  assert (Hthrow : forall m : gmap string string,
             (exists er, Init.addGitIgnore m = Throw er)
             <-> is_Some (m !! ".gitignore") /\ m !! "gitignore" = None).
  { intros m. unfold Init.addGitIgnore.
    destruct (m !! ".gitignore") as [old|]; destruct (m !! "gitignore") as [data|].
    - split; [intros [er H]; discriminate|intros [_ H]; discriminate].
    - split; [intros _; split; [eexists; reflexivity|reflexivity]|].
      intros _. eexists; reflexivity.
    - split; [intros [er H]; discriminate|intros [_ H]; discriminate].
    - split; [intros [er H]; discriminate|intros [[x H] _]; discriminate]. }
  split; [apply Hthrow|].
  intros fs' Hret Hsome. apply Hthrow. split; [exact Hsome|].
  unfold Init.addGitIgnore in Hret.
  destruct (fs !! ".gitignore") as [old|] eqn:Eold;
    destruct (fs !! "gitignore") as [data|] eqn:Edata;
    try discriminate; injection Hret as <-;
    first [apply lookup_delete_eq | exact Edata].
Qed.

(** ** Project creation: the install command *)

Lemma join_spaced x xs : JS.join " " (x :: xs) = x +:+ spaced xs.
Proof.
  revert x. induction xs as [|y ys IH]; intros x.
  - cbn. rewrite sapp_nil_r. reflexivity.
  - change (JS.join " " (x :: y :: ys)) with (x +:+ " " +:+ JS.join " " (y :: ys)).
    rewrite IH. reflexivity.
Qed.

Lemma spaced_app xs ys : spaced (xs ++ ys) = spaced xs +:+ spaced ys.
Proof.
  induction xs as [|x xs IH]; [rewrite sapp_nil_l; reflexivity|].
  cbn [app]. unfold spaced in *. cbn [fold_right]. rewrite IH.
  rewrite !sapp_assoc. reflexivity.
Qed.

(** X20.  [handleDependencies] reads the registry inside the executor of
    its promise.  When reading it throws, the promise is rejected with
    what was thrown, whatever [npm] would do: it is not spawned.  When the
    registry is there, the promise resolves exactly when [npm] closes with
    code 0 and is otherwise rejected with the command line it ran: the
    install from the registry, then [--save --save-exact] and the packages
    when the argument is truthy.  A non-empty string is installed like the
    array holding it, the empty string like [null]; the empty array still
    passes [--save --save-exact]. *)
Theorem handleDependencies_command_line
    (hostNPM : thrown string) (crossSpawn : string -> list string -> option nat)
    (d : Init.dependencies) :
  (forall er, hostNPM = Throw er ->
     Init.handleDependencies hostNPM crossSpawn d = Init.Rejects er)
  /\ (forall host, hostNPM = Ret host ->
        (Init.handleDependencies hostNPM crossSpawn d = Init.Resolves
         <-> crossSpawn "npm" (Init.npm_args host d) = Some 0)
        /\ (forall reason,
              Init.handleDependencies hostNPM crossSpawn d = Init.Rejects reason ->
              reason = "Command Error: npm install --registry " +:+ host
                       +:+ " --loglevel error"
                       +:+ match Init.as_array d with
                           | Some l => " --save --save-exact" +:+ spaced l
                           | None => EmptyString
                           end))
  /\ (forall x s,
        Init.handleDependencies hostNPM crossSpawn (Init.DepsString (String x s))
        = Init.handleDependencies hostNPM crossSpawn (Init.DepsArray [String x s]))
  /\ Init.handleDependencies hostNPM crossSpawn (Init.DepsString EmptyString)
     = Init.handleDependencies hostNPM crossSpawn Init.DepsNull
  /\ (forall host,
        Init.npm_args host (Init.DepsArray [])
        = Init.npm_args host Init.DepsNull ++ ["--save"; "--save-exact"]).
Proof.
  split; [|split; [|split; [|split]]]; try reflexivity.
  - intros er ->. reflexivity.
  - intros host ->. split.
    + unfold Init.handleDependencies, Init.on_close. cbv zeta.
      destruct (crossSpawn "npm" (Init.npm_args host d)) as [[|n]|];
        split; intros H; try reflexivity; discriminate.
    + intros reason H.
      assert (Hreason : reason
                        = "Command Error: npm " +:+ JS.join " " (Init.npm_args host d)).
      { unfold Init.handleDependencies, Init.on_close in H. cbv zeta in H.
        destruct (crossSpawn "npm" (Init.npm_args host d)) as [[|n]|];
          [discriminate|injection H as <-; reflexivity..]. }
      rewrite Hreason. unfold Init.npm_args.
      change (["install"; "--registry"; host; "--loglevel"; "error"] ++ ?l)
        with ("install" :: (["--registry"; host; "--loglevel"; "error"] ++ l)).
      rewrite join_spaced, spaced_app.
      destruct (Init.as_array d) as [l|].
      * change (spaced (["--save"; "--save-exact"] ++ l))
          with (" " +:+ "--save" +:+ " " +:+ "--save-exact" +:+ spaced l).
        unfold spaced at 1. cbn [fold_right].
        repeat (rewrite sapp_assoc || rewrite sapp_cons || rewrite sapp_nil_l
                || rewrite sapp_nil_r).
        reflexivity.
      * unfold spaced. cbn [fold_right].
        repeat (rewrite sapp_assoc || rewrite sapp_cons || rewrite sapp_nil_l
                || rewrite sapp_nil_r).
        reflexivity.
Qed.

(** The registry of the sample, and a machine on which reading it
    throws. *)
Example handleDependencies_sample :
  Init.handleDependencies (Ret "https://r.example") (fun _ _ => Some 1)
    (Init.DepsString "lodash@4.17.21")
  = Init.Rejects
      "Command Error: npm install --registry https://r.example --loglevel error --save --save-exact lodash@4.17.21"
  /\ Init.handleDependencies (Throw "TypeError") (fun _ _ => Some 0)
       (Init.DepsString "lodash@4.17.21")
     = Init.Rejects "TypeError".
Proof. split; vm_compute; reflexivity. Qed.

(** ** Project creation: the run *)

Lemma commands_app a b : commands (a ++ b) = commands a ++ commands b.
Proof. apply omap_app. Qed.

Lemma commands_early steps :
  Forall (fun s => past_template s = false) steps -> commands steps = [].
Proof.
  induction 1 as [|s l Hs _ IH]; [reflexivity|].
  unfold commands in *. cbn [omap list_omap]. rewrite IH.
  destruct s; try reflexivity; discriminate.
Qed.

Lemma commands_install w : commands (Init.install w) = [].
Proof.
  unfold Init.install, Init.handleDependencies, Init.on_close, Init.npm_spawned.
  destruct (Init.getLernaConfig w) as [cfg|er]; [|reflexivity].
  destruct (Init.uses_yarn cfg).
  - destruct (Init.crossSpawn w "yarn" ["install"]) as [[|n]|]; reflexivity.
  - destruct (Init.hostNPM w) as [host|er]; [|reflexivity]. cbv zeta.
    destruct (Init.crossSpawn w "npm" (Init.npm_args host Init.DepsNull)) as [[|n]|];
      reflexivity.
Qed.

Lemma commands_build_and_help w o : commands (Init.build_and_help w o) = [].
Proof.
  unfold Init.build_and_help, Init.on_close.
  destruct (Init.crossSpawn w "npm" ["run"; "build"]) as [[|n]|];
    destruct (Init.isForMonorepo o); reflexivity.
Qed.

Lemma commands_finish w o h : commands (Init.finish w o h) = [].
Proof.
  destruct h as [[er|]|]; [reflexivity..|apply commands_build_and_help].
Qed.

Lemma commands_tryGitInit w : commands (snd (Init.tryGitInit w)) = ["git init"].
Proof. unfold Init.tryGitInit. destruct (Init.execSync w "git init"); reflexivity. Qed.

Lemma commands_tryGitCommit w m :
  commands (snd (Init.tryGitCommit w m))
  = "git add -A" :: match Init.execSync w "git add -A" with
                    | None => [Init.commit_command m]
                    | Some _ => []
                    end.
Proof.
  unfold Init.tryGitCommit.
  destruct (Init.execSync w "git add -A"); [reflexivity|].
  destruct (Init.execSync w (Init.commit_command m)); reflexivity.
Qed.

Lemma settle_project_ending w o ti :
  snd (Init.settle_project w o ti)
  = match Init.addGitIgnore (Init.project_files w) with
    | Throw er => Init.Threw er
    | Ret _ => match Init.beforeGitCommit o with
               | Some (Some er) => Init.Threw er
               | _ => Init.Returned
               end
    end.
Proof.
  unfold Init.settle_project.
  destruct (Init.addGitIgnore (Init.project_files w)); [|reflexivity].
  destruct (Init.beforeGitCommit o) as [[er|]|]; reflexivity.
Qed.

Lemma settle_project_commands w o ti :
  commands (fst (Init.settle_project w o ti))
  = match Init.addGitIgnore (Init.project_files w) with
    | Throw _ => []
    | Ret _ =>
        (if Init.isInGitRepository w then [] else ["git init"])
        ++ match Init.beforeGitCommit o with
           | Some (Some _) => []
           | _ => "git add -A" :: match Init.execSync w "git add -A" with
                                  | None => [Init.commit_command (Init.commitMessage o)]
                                  | Some _ => []
                                  end
           end
    end.
Proof.
  unfold Init.settle_project.
  destruct (Init.addGitIgnore (Init.project_files w)); [|reflexivity].
  assert (Hinit : commands (if Init.isInGitRepository w then []
                            else snd (Init.tryGitInit w))
                  = if Init.isInGitRepository w then [] else ["git init"]).
  { destruct (Init.isInGitRepository w); [reflexivity|apply commands_tryGitInit]. }
  destruct (Init.beforeGitCommit o) as [[er|]|]; unfold Init.after; cbn [fst snd];
    rewrite !commands_app, ?commands_install, ?commands_tryGitCommit,
      ?commands_finish, Hinit, ?app_nil_r; reflexivity.
Qed.

Lemma after_outcome w o steps rest :
  Forall (fun s => past_template s = false) steps ->
  template_outcome w o rest -> template_outcome w o (Init.after steps rest).
Proof.
  intros Hsteps [(er & Hend & Hall)|[(Hend & pre & k & er & Hfst & Hk & Hall)
                                    |(pre & ti & Hfst & Hend & Hall)]];
    unfold Init.after; cbn [fst snd].
  - left. exists er. split; [done|]. apply Forall_app. by split.
  - right; left. split; [done|]. exists (steps ++ pre), k, er.
    rewrite Hfst, app_assoc. split; [done|]. split; [done|]. apply Forall_app. by split.
  - right; right. exists (steps ++ pre), ti.
    rewrite Hfst, app_assoc. split; [done|]. split; [done|]. apply Forall_app. by split.
Qed.

Lemma npm_spawned_early w d : Forall (fun s => past_template s = false) (Init.npm_spawned w d).
Proof. unfold Init.npm_spawned. destruct (Init.hostNPM w); repeat constructor. Qed.

(** How far a run gets: it throws before the download, stops in one of the
    three template stages, or reaches what follows them. *)
Lemma createProject_cases w o : template_outcome w o (Init.createProject w o).
Proof.
  unfold Init.createProject.
  destruct (Init.resolved_template w (Init.template o)) as [template|er].
  2:{ left. exists er. split; [reflexivity|constructor]. }
  apply after_outcome; [repeat constructor|].
  destruct (Init.getPackageInfo (Init.require_package w) template) as [ti|er].
  2:{ left. exists er. split; [reflexivity|constructor]. }
  unfold Init.download.
  destruct (Init.handleDependencies _ _ _) as [|err].
  2:{ right; left. split; [reflexivity|].
      exists (Init.SpinStart Init.TIP_TEMPLATE_DOWNLOAD_ING
                :: Init.npm_spawned w (Init.DepsString template)),
        Init.TIP_TEMPLATE_DOWNLOAD_FAILED, err.
      split; [reflexivity|]. split; [by left|].
      constructor; [reflexivity|apply npm_spawned_early]. }
  apply after_outcome.
  { constructor; [reflexivity|]. apply Forall_app. split; [apply npm_spawned_early|].
    repeat constructor. }
  unfold Init.copy.
  destruct (Init.copySync w _ (Init.root o)) as [err|].
  { right; left. split; [reflexivity|].
    eexists [_; _], _, _. split; [reflexivity|]. split; [right; by left|].
    repeat constructor. }
  apply after_outcome; [repeat constructor|].
  unfold Init.adapt.
  destruct (Init.transformToProject w) as [err|].
  { right; left. split; [reflexivity|].
    eexists [_; _], _, _. split; [reflexivity|]. split; [right; by right|].
    repeat constructor. }
  apply after_outcome; [repeat constructor|].
  right; right. exists [], ti. split; [reflexivity|]. split; [reflexivity|constructor].
Qed.

Lemma early_not_closing s : past_template s = false -> closing_step s = false.
Proof. destruct s as [| | | | | |k|k|k| | | | | | | | | | |]; try discriminate; try reflexivity.
  destruct k; try discriminate; reflexivity. Qed.

Lemma Forall_early_not_closing l :
  Forall (fun s => past_template s = false) l ->
  Forall (fun s => closing_step s = false) l.
Proof. induction 1; constructor; [apply early_not_closing|]; assumption. Qed.

Lemma not_closing_install w : Forall (fun s => closing_step s = false) (Init.install w).
Proof.
  unfold Init.install, Init.handleDependencies, Init.on_close, Init.npm_spawned.
  destruct (Init.getLernaConfig w) as [cfg|er]; [|repeat constructor].
  destruct (Init.uses_yarn cfg).
  - destruct (Init.crossSpawn w "yarn" ["install"]) as [[|n]|]; repeat constructor.
  - destruct (Init.hostNPM w) as [host|er]; [|repeat constructor]. cbv zeta.
    destruct (Init.crossSpawn w "npm" (Init.npm_args host Init.DepsNull)) as [[|n]|];
      repeat constructor.
Qed.

Lemma not_closing_tryGitInit w :
  Forall (fun s => closing_step s = false) (snd (Init.tryGitInit w)).
Proof.
  unfold Init.tryGitInit. destruct (Init.execSync w "git init"); repeat constructor.
Qed.

Lemma not_closing_tryGitCommit w m :
  Forall (fun s => closing_step s = false) (snd (Init.tryGitCommit w m)).
Proof.
  unfold Init.tryGitCommit.
  destruct (Init.execSync w "git add -A"); [repeat constructor|].
  destruct (Init.execSync w (Init.commit_command m)); repeat constructor.
Qed.

(** A run is steps that are not of its end, followed, when it returns, by
    the end: the hook or the build and the help text. *)
Lemma settle_project_shape w o ti :
  exists mid,
    Forall (fun s => closing_step s = false) mid
    /\ ((snd (Init.settle_project w o ti) = Init.Returned
         /\ exists h, fst (Init.settle_project w o ti) = mid ++ Init.finish w o h)
        \/ (snd (Init.settle_project w o ti) <> Init.Returned
            /\ fst (Init.settle_project w o ti) = mid)).
Proof.
  unfold Init.settle_project.
  destruct (Init.addGitIgnore (Init.project_files w)) as [fs'|er].
  2:{ exists [Init.AddGitIgnore]. split; [repeat constructor|].
      right. split; [discriminate|reflexivity]. }
  assert (Hinit : Forall (fun s => closing_step s = false)
                    (if Init.isInGitRepository w then [] else snd (Init.tryGitInit w))).
  { destruct (Init.isInGitRepository w); [constructor|apply not_closing_tryGitInit]. }
  destruct (Init.beforeGitCommit o) as [[er|]|]; unfold Init.after; cbn [fst snd].
  - eexists. split; [|right; split; [discriminate|reflexivity]].
    apply Forall_app. split; [|repeat constructor].
    apply Forall_app. split; [repeat constructor|].
    apply Forall_app. split; [exact Hinit|apply not_closing_install].
  - eexists. split; [|left; split; [reflexivity|]].
    2:{ eexists. rewrite !app_assoc. reflexivity. }
    repeat (apply Forall_app; split);
      first [exact Hinit | apply not_closing_install | apply not_closing_tryGitCommit
            | repeat constructor].
  - eexists. split; [|left; split; [reflexivity|]].
    2:{ eexists. rewrite !app_assoc. reflexivity. }
    repeat (apply Forall_app; split);
      first [exact Hinit | apply not_closing_install | apply not_closing_tryGitCommit
            | repeat constructor].
Qed.

Lemma createProject_shape w o :
  exists mid,
    Forall (fun s => closing_step s = false) mid
    /\ ((snd (Init.createProject w o) = Init.Returned
         /\ exists h, fst (Init.createProject w o) = mid ++ Init.finish w o h)
        \/ (snd (Init.createProject w o) <> Init.Returned
            /\ fst (Init.createProject w o) = mid)).
Proof.
  destruct (createProject_cases w o)
    as [(er & Hend & Hall)|[(Hend & pre & k & er & Hsteps & Hk & Hall)
                           |(pre & ti & Hsteps & Hend & Hall)]].
  - exists (fst (Init.createProject w o)).
    split; [apply Forall_early_not_closing, Hall|].
    right. split; [rewrite Hend; discriminate|reflexivity].
  - exists (fst (Init.createProject w o)). split.
    + rewrite Hsteps. apply Forall_app. split; [apply Forall_early_not_closing, Hall|].
      repeat constructor.
    + right. split; [rewrite Hend; discriminate|reflexivity].
  - destruct (settle_project_shape w o ti) as (mid & Hmid & [(Hret & h & Hfst)|(Hnot & Hfst)]).
    + exists (pre ++ mid). split.
      * apply Forall_app. split; [apply Forall_early_not_closing, Hall|exact Hmid].
      * left. split; [rewrite Hend; exact Hret|].
        exists h. rewrite Hsteps, Hfst. apply app_assoc.
    + exists (pre ++ mid). split.
      * apply Forall_app. split; [apply Forall_early_not_closing, Hall|exact Hmid].
      * right. split; [rewrite Hend; exact Hnot|]. rewrite Hsteps, Hfst. reflexivity.
Qed.

Lemma not_closing_absent s l :
  closing_step s = true -> Forall (fun s => closing_step s = false) l -> ~ In s l.
Proof.
  intros Hs Hall Hin.
  rewrite List.Forall_forall in Hall. apply Hall in Hin. congruence.
Qed.

(** X21.  The process is ended with an exit code only by a failure of one
    of the three template stages (download, copy, adapt), and the code is
    1.  The spinner's failure and the error are the last two steps, and
    nothing behind the template stages has been done: no git command, no
    ignore file, no install of the dependencies, no hook, no build. *)
Theorem createProject_exits_only_in_a_template_stage
    (w : Init.world) (o : Init.options) (code : nat) :
  snd (Init.createProject w o) = Init.Exited code ->
  code = 1
  /\ (exists pre k er,
        fst (Init.createProject w o) = pre ++ [Init.SpinFail k; Init.LogError [er]]
        /\ (k = Init.TIP_TEMPLATE_DOWNLOAD_FAILED \/ k = Init.TIP_TEMPLATE_COPY_FAILED
            \/ k = Init.TIP_TEMPLATE_ADAPT_FAILED))
  /\ Forall (fun s => past_template s = false) (fst (Init.createProject w o)).
Proof.
  intros Hexit.
  destruct (createProject_cases w o)
    as [(er & Hend & Hall)|[(Hend & pre & k & er & Hsteps & Hk & Hall)
                           |(pre & ti & Hsteps & Hend & Hall)]].
  - rewrite Hend in Hexit. discriminate.
  - rewrite Hend in Hexit. injection Hexit as <-.
    split; [reflexivity|]. split; [exists pre, k, er; split; assumption|].
    rewrite Hsteps. apply Forall_app. split; [exact Hall|].
    destruct Hk as [->|[->| ->]]; repeat constructor.
  - rewrite Hend, settle_project_ending in Hexit.
    destruct (Init.addGitIgnore (Init.project_files w)); [|discriminate].
    destruct (Init.beforeGitCommit o) as [[e|]|]; discriminate.
Qed.

Lemma createProject_exits_only_in_a_template_stage_sample :
  snd (Init.createProject (Init.sample_world Init.all_fail) Init.sample_options)
  = Init.Exited 1
  /\ Forall (fun s => past_template s = false)
       (fst (Init.createProject (Init.sample_world Init.all_fail) Init.sample_options)).
Proof.
  split; [reflexivity|].
  apply (createProject_exits_only_in_a_template_stage
           (Init.sample_world Init.all_fail) Init.sample_options 1).
  reflexivity.
Defined.

(** X22.  The git commands of a run.  A run that returns has run
    [git init] first when it was started outside a git repository, then
    [git add -A], then, when that worked, the commit of everything with
    the message between double quotes and [--no-verify].  A run that ends
    otherwise has run no git command but, at most, [git init]. *)
Theorem createProject_git_commands (w : Init.world) (o : Init.options) :
  (snd (Init.createProject w o) = Init.Returned ->
   commands (fst (Init.createProject w o))
   = (if Init.isInGitRepository w then [] else ["git init"])
     ++ "git add -A"
        :: match Init.execSync w "git add -A" with
           | None => ["git commit -m " +:+ dquote +:+ Init.commitMessage o +:+ dquote
                      +:+ " --no-verify"]
           | Some _ => []
           end)
  /\ (snd (Init.createProject w o) <> Init.Returned ->
      forall c, In c (commands (fst (Init.createProject w o))) -> c = "git init").
Proof.
  destruct (createProject_cases w o)
    as [(er & Hend & Hall)|[(Hend & pre & k & er & Hsteps & Hk & Hall)
                           |(pre & ti & Hsteps & Hend & Hall)]].
  - split; [rewrite Hend; discriminate|].
    intros _ c. rewrite (commands_early _ Hall). intros [].
  - split; [rewrite Hend; discriminate|].
    intros _ c. rewrite Hsteps, commands_app, (commands_early _ Hall).
    intros [].
  - rewrite Hend, Hsteps, commands_app, (commands_early _ Hall), app_nil_l,
      settle_project_ending, settle_project_commands.
    destruct (Init.addGitIgnore (Init.project_files w)) as [fs'|e].
    2:{ split; [discriminate|intros _ c []]. }
    destruct (Init.beforeGitCommit o) as [[e|]|].
    + split; [discriminate|]. intros _ c. rewrite app_nil_r.
      destruct (Init.isInGitRepository w); [intros []|].
      intros [<-|[]]. reflexivity.
    + split; [intros _; reflexivity|congruence].
    + split; [intros _; reflexivity|congruence].
Qed.

Lemma finish_hook w o r :
  Init.finish w o (Some r) = [Init.AfterInit]
  \/ exists er, Init.finish w o (Some r)
                = [Init.AfterInit;
                   Init.LogErrorIn ["arco-init"]
                     (Init.locale w Init.ERROR_PROJECT_INIT_FAILED);
                   Init.LogError [er]].
Proof. destruct r as [er|]; [right; exists er|left]; reflexivity. Qed.

Lemma build_and_help_steps w o :
  exists built,
    Init.build_and_help w o
    = [Init.SpinStart Init.TIP_PROJECT_BUILD_ING; Init.Spawn "npm" ["run"; "build"]]
      ++ built
      ++ [Init.Divider;
          Init.LogSuccess (" " +:+ Init.locale w Init.TIP_PROJECT_INIT_DONE)]
      ++ (if Init.isForMonorepo o
          then [Init.LogSuccess (" " +:+ Init.locale w Init.TIP_HELP_INFO_LERNA);
                Init.LogSuccess "   $ yarn dev"]
          else [Init.LogSuccess (" " +:+ Init.locale w Init.TIP_HELP_INFO);
                Init.LogSuccess ("   $ cd " +:+ Init.projectName o);
                Init.LogSuccess "   $ npm run dev"])
      ++ [Init.Divider]
    /\ ~ In Init.AfterInit built.
Proof.
  unfold Init.build_and_help.
  destruct (Init.on_close _ _) as [|err]; eexists; (split; [reflexivity|]);
    cbn; intuition discriminate.
Qed.

(** X23.  The template's after-init hook replaces the build and the help
    text.  When the hook is called the run returns, whatever the hook
    does, and there is no build, no divider and no success line.  A run
    that returns without calling a hook runs [npm run build], prints that
    the project is created and how to start it, whether the build worked
    or not, and ends with a divider. *)
Theorem createProject_hook_replaces_build (w : Init.world) (o : Init.options) :
  (In Init.AfterInit (fst (Init.createProject w o)) ->
   snd (Init.createProject w o) = Init.Returned
   /\ ~ In (Init.SpinStart Init.TIP_PROJECT_BUILD_ING) (fst (Init.createProject w o))
   /\ ~ In Init.Divider (fst (Init.createProject w o))
   /\ forall s, ~ In (Init.LogSuccess s) (fst (Init.createProject w o)))
  /\ (snd (Init.createProject w o) = Init.Returned ->
      ~ In Init.AfterInit (fst (Init.createProject w o)) ->
      In (Init.Spawn "npm" ["run"; "build"]) (fst (Init.createProject w o))
      /\ In (Init.LogSuccess (" " +:+ Init.locale w Init.TIP_PROJECT_INIT_DONE))
           (fst (Init.createProject w o))
      /\ In (Init.LogSuccess (if Init.isForMonorepo o then "   $ yarn dev"
                              else "   $ npm run dev"))
           (fst (Init.createProject w o))
      /\ last (fst (Init.createProject w o)) = Some Init.Divider).
Proof.
  destruct (createProject_shape w o) as (mid & Hmid & [(Hret & h & Hfst)|(Hnot & Hfst)]).
  2:{ split; [|congruence].
      intros Hin. exfalso. rewrite Hfst in Hin.
      exact (not_closing_absent Init.AfterInit mid eq_refl Hmid Hin). }
  rewrite Hfst. split.
  - intros Hin. split; [exact Hret|].
    apply in_app_or in Hin as [Hin|Hin];
      [exfalso; exact (not_closing_absent Init.AfterInit mid eq_refl Hmid Hin)|].
    destruct h as [r|].
    2:{ exfalso. cbn [Init.finish] in Hin.
        destruct (build_and_help_steps w o) as (built & Hb & Hno).
        rewrite Hb in Hin.
        destruct (Init.isForMonorepo o); cbn in Hin;
          rewrite in_app_iff in Hin; cbn in Hin; intuition discriminate. }
    assert (Hfin : forall s, closing_step s = true -> s <> Init.AfterInit ->
                     (forall a b, s <> Init.LogErrorIn a b) ->
                     ~ In s (mid ++ Init.finish w o (Some r))).
    { intros s Hs Hne Hne' Hs'. apply in_app_or in Hs' as [Hs'|Hs'];
        [exact (not_closing_absent _ _ Hs Hmid Hs')|].
      destruct (finish_hook w o r) as [Hf|[er Hf]]; rewrite Hf in Hs'; cbn in Hs'.
      - destruct Hs' as [Hs'|[]]. congruence.
      - destruct Hs' as [Hs'|[Hs'|[Hs'|[]]]]; [congruence| |subst s; discriminate].
        exact (Hne' _ _ (eq_sym Hs')). }
    split; [apply Hfin; [reflexivity|discriminate|discriminate]|].
    split; [apply Hfin; [reflexivity|discriminate|discriminate]|].
    intros s. apply Hfin; [reflexivity|discriminate|discriminate].
  - intros _ Hno.
    destruct h as [r|].
    { exfalso. apply Hno. apply in_or_app. right.
      destruct (finish_hook w o r) as [Hf|[er Hf]]; rewrite Hf; left; reflexivity. }
    cbn [Init.finish].
    destruct (build_and_help_steps w o) as (built & Hb & _). rewrite Hb.
    split; [rewrite !in_app_iff; cbn [In]; auto 8|].
    split; [rewrite !in_app_iff; cbn [In]; auto 8|].
    split; [destruct (Init.isForMonorepo o); rewrite !in_app_iff; cbn [In]; auto 10|].
    rewrite !app_assoc. apply last_snoc.
Qed.

Lemma settle_project_thrown w o ti er :
  Init.addGitIgnore (Init.project_files w) = Throw er ->
  fst (Init.settle_project w o ti) = [Init.AddGitIgnore].
Proof. unfold Init.settle_project. intros ->. reflexivity. Qed.

(** X24.  A failed install of the dependencies does not stop the run: when
    [beforeGitCommit] does not throw, the run goes on to the first commit
    and returns. *)
Theorem createProject_commits_after_failed_install
    (w : Init.world) (o : Init.options) :
  In (Init.SpinFail Init.TIP_DEPENDENCIES_INSTALL_FAILED) (fst (Init.createProject w o)) ->
  (forall er, Init.beforeGitCommit o <> Some (Some er)) ->
  snd (Init.createProject w o) = Init.Returned
  /\ In "git add -A" (commands (fst (Init.createProject w o))).
Proof.
  intros Hin Hbefore.
  assert (Hearly : forall l, Forall (fun s => past_template s = false) l ->
                     ~ In (Init.SpinFail Init.TIP_DEPENDENCIES_INSTALL_FAILED) l).
  { intros l Hall Hl. rewrite List.Forall_forall in Hall. apply Hall in Hl.
    discriminate. }
  destruct (createProject_cases w o)
    as [(er & Hend & Hall)|[(Hend & pre & k & er & Hsteps & Hk & Hall)
                           |(pre & ti & Hsteps & Hend & Hall)]].
  - exfalso. exact (Hearly _ Hall Hin).
  - exfalso. rewrite Hsteps in Hin. apply in_app_or in Hin as [Hin|Hin];
      [exact (Hearly _ Hall Hin)|].
    destruct Hin as [Hin|[Hin|[]]]; [|discriminate].
    injection Hin as ->. destruct Hk as [Hk|[Hk|Hk]]; discriminate.
  - rewrite Hsteps in Hin. apply in_app_or in Hin as [Hin|Hin];
      [exfalso; exact (Hearly _ Hall Hin)|].
    rewrite Hend, Hsteps, commands_app, (commands_early _ Hall), app_nil_l,
      settle_project_ending, settle_project_commands.
    destruct (Init.addGitIgnore (Init.project_files w)) as [fs'|e] eqn:Eadd.
    2:{ exfalso. rewrite (settle_project_thrown w o ti e Eadd) in Hin.
        destruct Hin as [Hin|[]]. discriminate. }
    destruct (Init.beforeGitCommit o) as [[e|]|] eqn:Ebefore.
    + exfalso. exact (Hbefore e eq_refl).
    + split; [reflexivity|]. apply in_or_app. right. left. reflexivity.
    + split; [reflexivity|]. apply in_or_app. right. left. reflexivity.
Qed.

Lemma createProject_commits_after_failed_install_sample :
  snd (Init.createProject (Init.sample_world Init.only_template_installs)
         Init.sample_options) = Init.Returned
  /\ In "git add -A"
       (commands (fst (Init.createProject (Init.sample_world Init.only_template_installs)
                         Init.sample_options))).
Proof.
  apply (createProject_commits_after_failed_install
           (Init.sample_world Init.only_template_installs) Init.sample_options).
  - vm_compute. repeat (first [left; reflexivity | right]).
  - discriminate.
Defined.
